(** * RFID indoor positioning backend: fingerprint pipeline, tag model, tag store

    A shallow embedding of [src/services/positioning.py], [src/models.py],
    [src/db.py] (the [tag] table and its CHECK constraints) and
    [src/repository.py] (the tag CRUD), with the properties the
    specification states about them.

    Conventions.
    - A Python [float] / NumPy [float64] is a primitive binary64 [float];
      an unset cell of a float column of a pandas frame is [nan], as in
      the source, and a cell of a column of objects may be [None].
    - A Python exception is a value [Raise e] of the result type; a
      function that returns normally yields [Ok v].
    - A pandas frame is the list of its rows; the antenna columns
      [rssi_antenna<a>] and [rc_antenna<a>] are kept as two lists per
      row, aligned with the list of antenna suffixes of the frame.
    - What the source calls in NumPy, pandas, scikit-learn and Python's
      builtins is written out as far as its result is determined by
      the arguments: the order in which NumPy adds, the compensated
      mean of pandas, the dating of the readings, the validation that
      precedes the growing of a forest, [round] and [float].  The
      forest itself is a parameter. *)

From Stdlib Require Import ZArith Floats Lia.
From stdpp Require Import base option list strings sorting pretty.

#[local] Set Warnings "-inexact-float".
#[local] Open Scope Z_scope.

(* ===================================================================== *)
(** ** Python exceptions and results *)
(* ===================================================================== *)

Inductive PyError : Set :=
  | ValueError
  | KeyError
  | TypeError
  | IntegrityError.

Inductive Result (A : Type) : Type :=
  | Ok (a : A)
  | Raise (e : PyError).
Arguments Ok {A} a.
Arguments Raise {A} e.

#[global] Instance Result_ret : MRet Result := fun _ a => Ok a.
#[global] Instance Result_bind : MBind Result := fun _ _ k r =>
  match r with
  | Ok a => k a
  | Raise e => Raise e
  end.

(** A [for] loop whose body may raise: the accumulator is threaded
    through the iterations, the first exception ends the loop. *)
Fixpoint for_loop {S I : Type} (body : S -> I -> Result S) (iter : list I) (s : S)
  : Result S :=
  match iter with
  | [] => Ok s
  | i :: rest => s' ← body s i; for_loop body rest s'
  end.

(** A list comprehension whose element expression may raise. *)
Fixpoint comprehension {A B : Type} (f : A -> Result B) (l : list A) : Result (list B) :=
  match l with
  | [] => Ok []
  | x :: rest => y ← f x; ys ← comprehension f rest; Ok (y :: ys)
  end.

(** [range(lo, hi)] *)
Definition py_range (lo hi : Z) : list Z :=
  (fun d => lo + Z.of_nat d) <$> seq 0 (Z.to_nat (hi - lo)).

(** [l[:k]], with Python's reading of a negative bound. *)
Definition py_prefix {A : Type} (k : Z) (l : list A) : list A :=
  if k <? 0 then take (length l - Z.to_nat (- k)) l else take (Z.to_nat k) l.

(** The binary64 nearest to [n / d], ties to even. *)
Definition nearest_quotient (negative : bool) (n d : positive) : float :=
  SF2Prim (SFdiv prec emax (S754_finite negative n 0) (S754_finite false d 0)).

(** The binary64 nearest to [digits * 10 ^ exponent]. *)
Definition of_decimal (negative : bool) (digits : Z) (exponent : Z) : float :=
  match digits with
  | Z.pos n =>
      if 0 <=? exponent then nearest_quotient negative (n * Z.to_pos (10 ^ exponent)) 1
      else nearest_quotient negative n (Z.to_pos (10 ^ (- exponent)))
  | _ => SF2Prim (S754_zero negative)
  end.

(** [round(x, 4)] on a Python float: the exact value of [x] is rounded
    to four decimals, ties to even, and the decimal is read back as the
    nearest binary64; [nan] and the infinities round to themselves. *)
Definition py_round4 (x : float) : float :=
  match Prim2SF x with
  | S754_finite s m e =>
      let scaled := Z.pos m * 10000 in
      let n :=
        if 0 <=? e then scaled * 2 ^ e
        else
          let d := 2 ^ (- e) in
          let q := scaled / d in
          let r := scaled mod d in
          if 2 * r <? d then q
          else if d <? 2 * r then q + 1
          else if Z.even q then q else q + 1 in
      of_decimal s n (-4)
  | _ => x
  end.

Definition is_digit (c : Ascii.ascii) : bool :=
  let n := Ascii.N_of_ascii c in ((48 <=? n) && (n <=? 57))%N.

(** The blanks [float] skips around a literal: tab, line feed, vertical
    tab, form feed, carriage return and space. *)
Definition is_space (c : Ascii.ascii) : bool :=
  let n := Ascii.N_of_ascii c in (((9 <=? n) && (n <=? 13)) || (n =? 32))%N.

(** [c] is the one character of the string [s]. *)
Definition is_char (s : string) (c : Ascii.ascii) : bool :=
  bool_decide (String c EmptyString = s).

Fixpoint lstrip (s : list Ascii.ascii) : list Ascii.ascii :=
  match s with
  | c :: s' => if is_space c then lstrip s' else s
  | [] => []
  end.

Definition lower (c : Ascii.ascii) : Ascii.ascii :=
  let n := Ascii.N_of_ascii c in
  if ((65 <=? n) && (n <=? 90))%N then Ascii.ascii_of_N (n + 32) else c.

(** A run of digits at the head of [s], in which single underscores
    may stand between two digits; returns the digits and the rest. *)
Fixpoint digit_run (after_digit : bool) (s : list Ascii.ascii)
  : list Ascii.ascii * list Ascii.ascii :=
  match s with
  | c :: s' =>
      if is_digit c then
        let '(ds, rest) := digit_run true s' in (c :: ds, rest)
      else if after_digit && is_char "_" c
              && match s' with d :: _ => is_digit d | [] => false end
      then digit_run false s'
      else ([], s)
  | [] => ([], [])
  end.

Definition digits_value (ds : list Ascii.ascii) : Z :=
  foldl (fun acc c => 10 * acc + (Z.of_N (Ascii.N_of_ascii c) - 48)) 0 ds.

Definition split_sign (s : list Ascii.ascii) : bool * list Ascii.ascii :=
  match s with
  | c :: s' =>
      if is_char "-" c then (true, s')
      else if is_char "+" c then (false, s')
      else (false, s)
  | [] => (false, [])
  end.

(** [float(s)] on a string of ASCII characters: blanks around the
    literal are dropped; the literal is a signed decimal number with an
    optional fraction and exponent, or [inf], [infinity] or [nan] in
    any case.  [None] stands for the ValueError of a string that is not
    such a literal.  (Python also reads the digits and blanks of other
    scripts; a string is taken to be ASCII here.) *)
Definition py_float (s : string) : option float :=
  let body := reverse (lstrip (reverse (lstrip (String.list_ascii_of_string s)))) in
  let '(negative, literal) := split_sign body in
  let word := String.string_of_list_ascii (lower <$> literal) in
  if bool_decide (word ∈ ["inf"; "infinity"]%string)
  then Some (if negative then neg_infinity else infinity)
  else if bool_decide (word = "nan"%string) then Some nan
  else
    let '(int_digits, s1) := digit_run false literal in
    let '(frac_digits, s2) :=
      match s1 with
      | c :: s1' => if is_char "." c then digit_run false s1' else ([], s1)
      | [] => ([], [])
      end in
    let mantissa := digits_value (int_digits ++ frac_digits) in
    let scale := - Z.of_nat (length frac_digits) in
    if bool_decide (int_digits = []) && bool_decide (frac_digits = []) then None
    else
      match s2 with
      | [] => Some (of_decimal negative mantissa scale)
      | c :: s3 =>
          if is_char "e" (lower c) then
            let '(exp_negative, s4) := split_sign s3 in
            let '(exp_digits, s5) := digit_run false s4 in
            if bool_decide (exp_digits = []) || negb (bool_decide (s5 = [])) then None
            else
              let e := digits_value exp_digits in
              Some (of_decimal negative mantissa
                      (scale + (if exp_negative then - e else e)))
          else None
      end.

(* ===================================================================== *)
(** ** NumPy on binary64 *)
(* ===================================================================== *)

Module np.

#[local] Open Scope float_scope.

Definition float_of_nat (n : nat) : float :=
  PrimFloat.of_uint63 (Uint63.of_Z (Z.of_nat n)).

(** [np.minimum] and [np.maximum] on two scalars: the inner loops
    compute [(a <= b || isnan(a)) ? a : b], and [>=] for the maximum. *)
Definition minimum (a b : float) : float :=
  if (a <=? b) || is_nan a then a else b.
Definition maximum (a b : float) : float :=
  if (b <=? a) || is_nan a then a else b.

(** [ufunc.reduce] over one column of a non-empty array: the first
    entry starts the accumulator. *)
Definition reduce (op : float -> float -> float) (col : list float) : float :=
  match col with
  | [] => nan
  | x :: rest => foldl op x rest
  end.

(** NumPy's [pairwise_sum] of a column that is contiguous in memory,
    as the columns of [DataFrame.values] are.  Fewer than 8 entries
    are added up in order.  From 8 entries on, eight accumulators
    take the entries in turn, accumulator [j] adding up the entries
    [j], [8 + j], [16 + j], ... of the leading multiple of 8; the
    accumulators are combined as a balanced tree and the remaining
    entries are added in order.  Above 128 entries the column is
    split near the middle, at a multiple of 8, and the sums of the
    two parts are added.  [fuel] bounds the depth of the splitting;
    the length of the column is enough. *)
Definition lane (j : nat) (body : list float) : list float :=
  omap (fun k => body !! (8 * k + j)%nat) (seq 0 (length body / 8)%nat).

Definition unrolled_sum (col : list float) : float :=
  let n := length col in
  let body := take (n - n mod 8)%nat col in
  let r (j : nat) := reduce PrimFloat.add (lane j body) in
  let res := ((r 0%nat + r 1%nat) + (r 2%nat + r 3%nat))
             + ((r 4%nat + r 5%nat) + (r 6%nat + r 7%nat)) in
  foldl PrimFloat.add res (drop (n - n mod 8)%nat col).

Fixpoint pairwise_sum (fuel : nat) (col : list float) : float :=
  let n := length col in
  if (n <? 8)%nat then foldl PrimFloat.add neg_zero col
  else if (n <=? 128)%nat then unrolled_sum col
  else
    match fuel with
    | O => nan
    | S fuel =>
        let n2 := (n / 2 - (n / 2) mod 8)%nat in
        pairwise_sum fuel (take n2 col) + pairwise_sum fuel (drop n2 col)
    end.

(** [np.add.reduce] over one column: the result starts as the
    identity 0, to which the pairwise sum of the column is added. *)
Definition sum (col : list float) : float :=
  0 + pairwise_sum (length col) col.

(** [np.mean]: the sum over the count; an empty column gives [0/0],
    that is [nan]. *)
Definition mean (col : list float) : float :=
  sum col / float_of_nat (length col).

(** [np.std] with [ddof = 0]: the root of the mean squared deviation. *)
Definition std (col : list float) : float :=
  let m := mean col in
  let x := (fun v => v - m) <$> col in
  let x := (fun v => v * v) <$> x in
  sqrt (sum x / float_of_nat (length col)).

Definition min (col : list float) : float := reduce minimum col.
Definition max (col : list float) : float := reduce maximum col.

(** [np.rint]: round to the nearest integer, ties to even.  Below
    [2^52] adding and removing [2^52] rounds in the default rounding
    mode; from [2^52] on every binary64 is an integer. *)
Definition two52 : float := 4503599627370496.
Definition rint (x : float) : float :=
  if abs x <? two52 then
    let r := (abs x + two52) - two52 in
    if get_sign x then - r else r
  else x.

(** [np.around(x, 4)]: scale by [10**4], [rint], scale back. *)
Definition around4 (x : float) : float := rint (x * 10000) / 10000.

(** The cast of a float64 to float32 and back: the nearest binary32,
    ties to even, infinite beyond the range of binary32. *)
Definition float32 (x : float) : float :=
  match Prim2SF x with
  | S754_finite s m e =>
      match binary_round 24 128 s m e with
      | S754_finite s' m' e' => SF2Prim (binary_round prec emax s' m' e')
      | other => SF2Prim other
      end
  | _ => x
  end.

(** Column [j] of a two-dimensional array given by its rows. *)
Definition column (j : nat) (arr : list (list float)) : list float :=
  (fun row => nth j row nan) <$> arr.

(** [func(arr, axis=0)] for an array of [ncols] columns. *)
Definition axis0 (func : list float -> float) (ncols : nat) (arr : list (list float))
  : list float :=
  (fun j => func (column j arr)) <$> seq 0 ncols.

(** [np.min] and [np.max] have no identity: reducing along an axis of
    length zero raises [ValueError]. *)
Definition no_identity (func : list float -> float) (ncols : nat)
    (arr : list (list float)) : Result (list float) :=
  match arr with
  | [] => Raise ValueError
  | _ => Ok (axis0 func ncols arr)
  end.

End np.

(** [np.unique] on a column of strings: the distinct values, sorted. *)
Definition np_unique (l : list string) : list string :=
  merge_sort String.le (remove_dups l).

(* ===================================================================== *)
(** ** Frames of the positioning pipeline *)
(* ===================================================================== *)

(** One row of the frame [load_data_from_db] returns: the key columns
    [TagID] and [read], one [rssi_antenna<a>] and one [rc_antenna<a>]
    cell per antenna column of the frame, and the true coordinates.  A
    coordinate cell holds a float, [nan] where pandas marks a missing
    value, or Python's [None]: a column of the tag table in which every
    entry is NULL arrives as a column of objects that are all [None]. *)
Record FingerprintRow : Type := {
  TagID : string;
  read : Z;
  rssi : list float;
  rc : list float;
  true_x : option float;
  true_y : option float
}.

(** A frame: the suffixes [<a>] of its antenna columns, in column order,
    and its rows. *)
Record DataFrame (Row : Type) : Type := {
  antennas : list string;
  rows : list Row
}.
Arguments antennas {Row} _.
Arguments rows {Row} _.

(** The four statistic blocks, in the order the source builds them:
    [avg_*], [min_*], [max_*], [stddev_*]. *)
Record Stats : Type := {
  avg : list float;
  min : list float;
  max : list float;
  stddev : list float
}.

(** One row of the frame [sliding_window_features] returns. *)
Record FeatureRow : Type := {
  fingerprint : FingerprintRow;
  stats : Stats
}.

(* ===================================================================== *)
(** ** [sliding_window_features] *)
(* ===================================================================== *)

(** [rssi_cols] and [rc_cols] name the columns by [i+1] for [i] in
    [range(num_ant)]; the suffixes are the decimal numerals. *)
Definition antenna_cols (num_ant : nat) : list string :=
  (fun i => pretty (S i)) <$> seq 0 num_ant.

(** Position of the antenna column with a given suffix; selecting a
    column the frame does not have raises [KeyError]. *)
Definition column_position (cols : list string) (suffix : string) : Result nat :=
  match list_find (fun a => a = suffix) cols with
  | Some (j, _) => Ok j
  | None => Raise KeyError
  end.

(** The cells [rssi_cols + rc_cols] of one row. *)
Definition base_values (positions : list nat) (r : FingerprintRow) : list float :=
  ((fun j => nth j (rssi r) nan) <$> positions)
    ++ ((fun j => nth j (rc r) nan) <$> positions).

(** [df.loc[a:b]] on a frame indexed [0 .. n-1]: the rows whose label
    lies in [[a, b]], both ends included. *)
Definition loc_slice {A : Type} (a b : Z) (df : list A) : list A :=
  take (Z.to_nat (b + 1) - Z.to_nat a) (drop (Z.to_nat a) df).

(** [df_tag.loc[a:b, rssi_cols+rc_cols].values] *)
Definition loc_values (positions : list nat) (a b : Z) (df : list FeatureRow)
  : list (list float) :=
  (fun r => base_values positions (fingerprint r)) <$> loc_slice a b df.

(** The dictionary [stats]: each of [np.mean], [np.min], [np.max],
    [np.std] along axis 0, rounded to four decimals.  The entries are
    evaluated in that order, so an empty window raises at [np.min]. *)
Definition window_stats (ncols : nat) (window : list (list float)) : Result Stats :=
  let a := np.axis0 np.mean ncols window in
  mi ← np.no_identity np.min ncols window;
  ma ← np.no_identity np.max ncols window;
  let sd := np.axis0 np.std ncols window in
  Ok {| avg := np.around4 <$> a;
        min := np.around4 <$> mi;
        max := np.around4 <$> ma;
        stddev := np.around4 <$> sd |}.

(** The statistic columns do not exist before the first assignment;
    that assignment creates them with [nan] in every other row. *)
Definition unassigned (ncols : nat) : Stats :=
  {| avg := replicate ncols nan; min := replicate ncols nan;
     max := replicate ncols nan; stddev := replicate ncols nan |}.

(** [df_tag.loc[i, <statistic columns>] = stats].  The assignment is
    only reached with a label [0 <= i < n]: the ranges end at [n], and
    with a first window size below 1 the first window is empty and
    [np.min] has raised before.  So the frame is never enlarged. *)
Definition loc_set (df : list FeatureRow) (i : Z) (s : Stats) : list FeatureRow :=
  alter (fun r => {| fingerprint := fingerprint r; stats := s |}) (Z.to_nat i) df.

(** The body of the loop over tags, from [n = len(df_tag)] to the end of
    the sliding loop: [df_tag] are the rows of one tag in frame order. *)
Definition tag_features (first_window_size window_size : Z) (cols : list string)
    (df_tag : list FingerprintRow) : Result (list FeatureRow) :=
  let num_ant := length cols in
  let ncols := (num_ant + num_ant)%nat in
  let n := Z.of_nat (length df_tag) in
  let df0 := (fun r => {| fingerprint := r; stats := unassigned ncols |}) <$> df_tag in
  positions ← comprehension (column_position cols) (antenna_cols num_ant);
  let window :=
    if first_window_size <=? n
    then loc_values positions 0 (first_window_size - 1) df0
    else loc_values positions 0 (n - 1) df0 in
  s ← window_stats ncols window;
  let df1 := foldl (fun df i => loc_set df i s) df0 (py_range 0 (Z.min first_window_size n)) in
  for_loop
    (fun df i =>
       let beg := Z.max 0 (i - window_size + 1) in
       let window := loc_values positions beg i df in
       s ← window_stats ncols window;
       Ok (loc_set df i s))
    (py_range first_window_size n) df1.

(** [sort_values(by=['read','TagID'])]: ascending on [read], ties broken
    by [TagID]; the sort on several keys is stable, as the merge sort
    used below. *)
Definition by_read_TagID (r1 r2 : FeatureRow) : Prop :=
  read (fingerprint r1) < read (fingerprint r2)
  ∨ (read (fingerprint r1) = read (fingerprint r2)
     ∧ String.le (TagID (fingerprint r1)) (TagID (fingerprint r2))).

#[global] Instance by_read_TagID_dec : RelDecision by_read_TagID.
Proof. intros r1 r2. unfold by_read_TagID. apply _. Defined.

Definition sliding_window_features (dbase : DataFrame FingerprintRow)
    (first_window_size window_size : Z) : Result (DataFrame FeatureRow) :=
  let tags := np_unique (TagID <$> rows dbase) in
  newdbase ← for_loop
    (fun newdbase tag =>
       let df_tag := filter (fun r => TagID r = tag) (rows dbase) in
       df_tag ← tag_features first_window_size window_size (antennas dbase) df_tag;
       Ok (newdbase ++ df_tag))
    tags [];
  Ok {| antennas := antennas dbase;
        rows := merge_sort by_read_TagID newdbase |}.

(* ===================================================================== *)
(** ** The feature frame as [train_rf_models] and [evaluate_position] slice it *)
(* ===================================================================== *)

(** A cell of the feature frame as [iloc] sees it: the frame mixes
    numeric columns with the [TagID] strings, the [read] timestamps and,
    in a coordinate column of objects, [None]. *)
Inductive value : Type :=
  | VFloat (f : float)
  | VStr (s : string)
  | VTime (t : Z)
  | VNone.

Definition coordinate_cell (c : option float) : value :=
  match c with
  | Some f => VFloat f
  | None => VNone
  end.

(** The engineered feature vector, in column order: the raw cells, then
    the four statistic blocks. *)
Definition feature_vector (r : FeatureRow) : list float :=
  rssi (fingerprint r) ++ rc (fingerprint r)
    ++ avg (stats r) ++ min (stats r) ++ max (stats r) ++ stddev (stats r).

(** One row of the returned frame: [TagID], [read], [true_x], [true_y]
    have been moved behind the feature columns. *)
Definition frame_row (r : FeatureRow) : list value :=
  (VFloat <$> feature_vector r)
    ++ [VStr (TagID (fingerprint r)); VTime (read (fingerprint r));
        coordinate_cell (true_x (fingerprint r));
        coordinate_cell (true_y (fingerprint r))].

(** [df.iloc[:, :num_features].values] *)
Definition iloc_prefix (num_features : Z) (df : list FeatureRow) : list (list value) :=
  (fun r => py_prefix num_features (frame_row r)) <$> df.

(* ===================================================================== *)
(** ** scikit-learn, [train_rf_models], [evaluate_position] *)
(* ===================================================================== *)

Module sklearn.

(** The inside of a random forest, which no statement below looks
    into: the trees grown from a validated sample (with the
    [n_estimators=1000, random_state=0] of the source) and their
    averaged answer on validated rows, one number per row. *)
Class Forest : Type := {
  trees : Type;
  grow : list (list float) -> list float -> trees;
  vote : trees -> list (list float) -> list float;
  vote_length : forall t X, length (vote t X) = length X
}.

(** One cell on its way into a float32 array: a number is cast, a
    string goes through [float], [None] becomes [nan], a [Timestamp]
    is refused with TypeError. *)
Definition as_float32 (v : value) : Result float :=
  match v with
  | VFloat f => Ok (np.float32 f)
  | VStr s =>
      match py_float s with
      | Some f => Ok (np.float32 f)
      | None => Raise ValueError
      end
  | VTime _ => Raise TypeError
  | VNone => Ok nan
  end.

Definition n_features (X : list (list value)) : nat :=
  match X with
  | row :: _ => length row
  | [] => 0
  end.

(** The columns of [X]: [DataFrame.values] lays a frame out column
    after column. *)
Definition columns (X : list (list value)) : list (list value) :=
  (fun j => omap (fun row => row !! j) X) <$> seq 0 (n_features X).

(** [np.asarray(X, dtype=np.float32)]: the cells are converted in the
    order of the memory, and the first that cannot be converted
    decides the exception. *)
Definition asarray32 (X : list (list value)) : Result (list (list float)) :=
  _ ← comprehension (comprehension as_float32) (columns X);
  comprehension (comprehension as_float32) X.

(** [check_array] on the labels, which keep their dtype: in a float
    column [nan] and the infinities are refused, in a column of
    objects only [nan] is, and [None] is not a [nan].  A coordinate
    column of the frame holds [None] only if it is a column of
    objects, and besides [None] such a column holds nothing but
    [nan]. *)
Definition label_ok (y : list (option float)) (c : option float) : bool :=
  match c with
  | None => true
  | Some v =>
      if forallb (fun c' => bool_decide (c' ≠ None)) y then is_finite v
      else negb (is_nan v)
  end.

Section forest.

Context `{Forest}.

(** A fitted [RandomForestRegressor]. *)
Record RandomForestRegressor : Type := {
  n_features_in : nat;
  estimators : trees
}.

(** [RandomForestRegressor.fit]: [X] is converted to float32 and
    must have a row and a column, [y] is checked, the lengths are
    compared, an infinite cell of [X] is refused ([nan] is not);
    then the trees are grown on [y] as float64. *)
Definition fit (X : list (list value)) (y : list (option float))
  : Result RandomForestRegressor :=
  X32 ← asarray32 X;
  if bool_decide (X = []) then Raise ValueError
  else if (n_features X =? 0)%nat then Raise ValueError
  else if negb (forallb (label_ok y) y) then Raise ValueError
  else if negb (length y =? length X)%nat then Raise ValueError
  else if existsb (existsb is_infinity) X32 then Raise ValueError
  else Ok {| n_features_in := n_features X;
             estimators := grow X32 (default nan <$> y) |}.


End forest.


End sklearn.


Section positioning.

Context `{sklearn.Forest}.

Definition train_rf_models (feature_df : DataFrame FeatureRow)
    (reference_tags : list string) (num_features : Z)
  : Result (sklearn.RandomForestRegressor * sklearn.RandomForestRegressor) :=
  let landmarc :=
    filter (fun r => TagID (fingerprint r) ∈ reference_tags) (rows feature_df) in
  let X := iloc_prefix num_features landmarc in
  let yx := (fun r => true_x (fingerprint r)) <$> landmarc in
  let yy := (fun r => true_y (fingerprint r)) <$> landmarc in
  regX ← sklearn.fit X yx;
  regY ← sklearn.fit X yy;
  Ok (regX, regY).



End positioning.

(** A forest to run the pipeline on concrete frames: it answers every
    row with the mean of the training labels. *)
Definition MeanForest : sklearn.Forest :=
  {| sklearn.trees := float;
     sklearn.grow := fun _ y => np.mean y;
     sklearn.vote := fun t X => replicate (length X) t;
     sklearn.vote_length := fun t X => length_replicate (length X) t |}.

(* ===================================================================== *)
(** ** [src/models.py] *)
(* ===================================================================== *)

Module models.

(** [Optional[float]] fields are [option float]; [None] is Python's
    [None]. *)
Record Tag : Type := {
  tag_id : string;
  type : string;
  true_x : option float;
  true_y : option float;
  pred_x : option float;
  pred_y : option float;
  is_read : bool
}.

(** [Tag.__post_init__]: runs at the end of every [Tag(...)] call and
    returns the object unless it raises. *)
Definition post_init (self : Tag) : Result Tag :=
  if negb (bool_decide (type self ∈ ["ref"; "tar"]%string)) then Raise ValueError
  else if bool_decide (type self = "ref"%string)
          && (negb (bool_decide (pred_x self = None))
              || negb (bool_decide (pred_y self = None)))
  then Raise ValueError
  else Ok self.

(** A row of the [record] table, as [Record] holds it; [read_time] is
    a [datetime] without time zone, counted in microseconds. *)
Record Record_ : Type := {
  rec_tag_id : string;
  rec_antenna_id : string;
  rec_rc : Z;
  rec_rssi : float;
  rec_read_time : Z;
  record_id : option Z
}.

End models.

#[global] Instance float_eq_dec : EqDecision float.
Proof.
  intros a b. destruct (PrimFloat.Leibniz.eqb a b) eqn:E.
  - left. by apply FloatAxioms.Leibniz.eqb_spec.
  - right. intros Hab. apply FloatAxioms.Leibniz.eqb_spec in Hab. congruence.
Defined.

(* ===================================================================== *)
(** ** [src/db.py]: the [tag] and [record] tables *)
(* ===================================================================== *)

Module db.

(** The state of a connection: the rows of the two tables the
    positioning pipeline and the tag CRUD use, in rowid order. *)
Record Database : Type := {
  tag : list models.Tag;
  record : list models.Record_
}.

(** The database right after [initialize_database] on a new file. *)
Definition initial : Database := {| tag := []; record := [] |}.

(** Binding a Python float to a REAL column: SQLite stores [nan] as
    NULL. *)
Definition sql_real (v : option float) : option float :=
  match v with
  | Some f => if is_nan f then None else Some f
  | None => None
  end.

(** The two CHECK constraints of the [tag] table in [_SCHEMA]. *)
Definition tag_check (row : models.Tag) : bool :=
  bool_decide (models.type row ∈ ["ref"; "tar"]%string)
  && ((bool_decide (models.type row = "ref"%string)
       && bool_decide (models.pred_x row = None)
       && bool_decide (models.pred_y row = None))
      || bool_decide (models.type row = "tar"%string)).

End db.

(* ===================================================================== *)
(** ** [src/repository.py]: the tag CRUD *)
(* ===================================================================== *)

Module repository.

Import models db.

(** The tuple of bound parameters: the row as the table stores it. *)
Definition tag_row (t : Tag) : Tag :=
  {| tag_id := tag_id t; type := type t;
     true_x := sql_real (true_x t); true_y := sql_real (true_y t);
     pred_x := sql_real (pred_x t); pred_y := sql_real (pred_y t);
     is_read := is_read t |}.

(** [INSERT OR REPLACE INTO tag]: a row with the same primary key is
    removed, the new row is appended; a failed CHECK raises
    [sqlite3.IntegrityError] and leaves the table as it was. *)
Definition insert_tag (conn : Database) (t : Tag) : Result Database :=
  let row := tag_row t in
  if tag_check row
  then Ok {| tag := filter (fun r => tag_id r ≠ tag_id row) (tag conn) ++ [row];
             record := record conn |}
  else Raise IntegrityError.

(** [UPDATE tag SET ... WHERE tag_id = ?]: every matching row is
    rewritten in place; the CHECK is evaluated on each rewritten row. *)
Definition update_tag (conn : Database) (t : Tag) : Result Database :=
  let row := tag_row t in
  if bool_decide (Exists (fun r => tag_id r = tag_id row) (tag conn))
     && negb (tag_check row)
  then Raise IntegrityError
  else Ok {| tag := (fun r => if bool_decide (tag_id r = tag_id row) then row else r)
                      <$> tag conn;
             record := record conn |}.

(** [Tag(tag_id=row["tag_id"], ...)] *)
Definition tag_of_row (row : Tag) : Result Tag := post_init row.

Definition get_tag_by_id (conn : Database) (id : string) : Result (option Tag) :=
  match filter (fun r => tag_id r = id) (tag conn) with
  | row :: _ => t ← tag_of_row row; Ok (Some t)
  | [] => Ok None
  end.

Definition list_tags (conn : Database) (tag_type : option string) : Result (list Tag) :=
  let rows :=
    if bool_decide (tag_type ∈ [Some "ref"; Some "tar"]%string)
    then filter (fun r => Some (type r) = tag_type) (tag conn)
    else tag conn in
  comprehension tag_of_row rows.

End repository.

(* ===================================================================== *)
(** ** [load_data_from_db] *)
(* ===================================================================== *)

(** An INTEGER cell read into a float64 column. *)
Definition float_of_Z (z : Z) : float :=
  if z <? 0 then (- PrimFloat.of_uint63 (Uint63.of_Z (- z)))%float
  else PrimFloat.of_uint63 (Uint63.of_Z z).

(** [isoformat(sep=' ')] writes the microseconds of a [datetime] only
    when there are some. *)
Definition has_fraction (t : Z) : bool := negb (t mod 1000000 =? 0).

(** The instants a [datetime64[ns]] can hold. *)
Definition in_bounds (t : Z) : bool :=
  (-9223372036854775 <=? t) && (t <=? 9223372036854775).

(** [parse_dates=["read_time"]]: pandas takes the format of the column
    from its first string and reads every string with it; a string that
    is written otherwise, or lies outside [datetime64[ns]], becomes
    [NaT], and [pivot_table] leaves the rows with a [NaT] key out.
    These are the rows that remain.  (Not covered: a first reading
    before the year 1000, for which pandas finds no format.) *)
Definition parse_dates (records : list models.Record_) : list models.Record_ :=
  match records with
  | [] => []
  | first :: _ =>
      filter (fun r => has_fraction (models.rec_read_time r)
                         = has_fraction (models.rec_read_time first)
                       ∧ in_bounds (models.rec_read_time r) = true) records
  end.

(** One step of the compensated sum of pandas' [group_mean]: the running
    sum and the compensation; a compensation that has become [nan] is
    reset. *)
Definition kahan_step (acc : float * float) (val : float) : float * float :=
  let '(sumx, compensation) := acc in
  let y := (val - compensation)%float in
  let t := (sumx + y)%float in
  let c := (t - sumx - y)%float in
  (t, if is_nan c then 0%float else c).

(** The aggregation [pivot_table] applies by default ([aggfunc='mean'])
    to a group of cells: the compensated sum of the cells that are not
    null over their number, and null for a group without any. *)
Definition group_mean (cells : list float) : float :=
  let observed := filter (fun v => is_nan v = false) cells in
  ((foldl kahan_step (0%float, 0%float) observed).1
   / np.float_of_nat (length observed))%float.

(** The index of the pivoted frames: the distinct [(TagID, read_time)]
    pairs, sorted by [TagID], then by [read_time]. *)
Definition by_TagID_read (k1 k2 : string * Z) : Prop :=
  (String.le k1.1 k2.1 ∧ k1.1 ≠ k2.1) ∨ (k1.1 = k2.1 ∧ k1.2 ≤ k2.2).

#[global] Instance by_TagID_read_dec : RelDecision by_TagID_read.
Proof. intros k1 k2. unfold by_TagID_read. apply _. Defined.

Definition pivot_index (df_records : list models.Record_) : list (string * Z) :=
  merge_sort by_TagID_read
    (remove_dups ((fun r => (models.rec_tag_id r, models.rec_read_time r)) <$> df_records)).

(** The readings that fall into one cell of the pivoted frames. *)
Definition cell_group (df_records : list models.Record_) (key : string * Z) (a : string)
  : list models.Record_ :=
  filter (fun r => (models.rec_tag_id r, models.rec_read_time r) = key
                   ∧ models.rec_antenna_id r = a) df_records.

(** A REAL column of the tag table as [read_sql_query] returns it:
    float64 with [nan] for NULL when some row has a value, and a column
    of objects, all [None], when none has. *)
Definition read_real (column : list (option float)) (c : option float) : option float :=
  if forallb (fun c' => bool_decide (db.sql_real c' = None)) column then None
  else Some (default nan (db.sql_real c)).

(** The merge with the tag table on [TagID], [how="left"]: one output
    row per matching tag row, and one row with [nan] coordinates when
    there is none. *)
Definition merge_left (tags : list models.Tag) (r : FingerprintRow) : list FingerprintRow :=
  match filter (fun t => models.tag_id t = TagID r) tags with
  | [] => [r]
  | ms => (fun t => {| TagID := TagID r; read := read r; rssi := rssi r; rc := rc r;
                       true_x := read_real (models.true_x <$> tags) (models.true_x t);
                       true_y := read_real (models.true_y <$> tags) (models.true_y t) |})
            <$> ms
  end.

(** [pivot_table] sorts the antenna ids into the columns; its [dropna]
    default removes a column only when every cell of it is null, which
    the NOT NULL columns [rssi] and [rc] exclude. *)
Definition load_data_from_db (conn : db.Database) : DataFrame FingerprintRow :=
  let df_records := parse_dates (db.record conn) in
  let columns := np_unique (models.rec_antenna_id <$> df_records) in
  let df_base :=
    (fun key =>
       {| TagID := key.1; read := key.2;
          rssi := (fun a => group_mean (models.rec_rssi <$> cell_group df_records key a))
                    <$> columns;
          rc := (fun a => group_mean ((fun r => float_of_Z (models.rec_rc r))
                                        <$> cell_group df_records key a))
                  <$> columns;
          true_x := Some nan; true_y := Some nan |})
      <$> pivot_index df_records in
  {| antennas := columns;
     rows := df_base ≫= merge_left (db.tag conn) |}.

(** [load_reference_tags]: the ids of the rows with [type = 'ref']. *)
Definition load_reference_tags (conn : db.Database) : list string :=
  models.tag_id <$> filter (fun t => models.type t = "ref"%string) (db.tag conn).

(* ===================================================================== *)
(** ** Closed forms and sample data used by the statements below *)
(* ===================================================================== *)

(** The rows whose cells enter the statistics of row [i] of a tag: the
    fixed block [0 .. min(first_window_size, n) - 1] for a row of the
    first window, the trailing rows [max(0, i - window_size + 1) .. i]
    for a later row. *)
Definition row_window (first_window_size window_size : Z) (df_tag : list FingerprintRow)
    (i : nat) : list FingerprintRow :=
  if Z.of_nat i <? first_window_size
  then take (Z.to_nat (Z.min first_window_size (Z.of_nat (length df_tag)))) df_tag
  else
    let beg := (i + 1 - Z.to_nat window_size)%nat in
    take (i + 1 - beg) (drop beg df_tag).

(** The statistic as the specification words it: the rows whose cell is
    unset are left out before the function is applied. *)
Definition unset_excluded (func : list float -> float) (col : list float) : float :=
  func (filter (fun v => is_nan v = false) col).

(** The columns [rssi_antenna1 .. rssi_antenna<k>] can be selected. *)
Definition columns_resolve (cols : list string) (positions : list nat) : Prop :=
  comprehension (column_position cols) (antenna_cols (length cols)) = Ok positions.

(** The fixture of [test/test_positioning.py]: two antennas, the
    reference tag T1 at (0, 0), the target tag T2 with known position
    (2, 2), three readings of each antenna per tag, one second apart. *)
Definition fixture_reading (t a : string) (s : float) (seconds : Z) : models.Record_ :=
  {| models.rec_tag_id := t; models.rec_antenna_id := a; models.rec_rc := 1;
     models.rec_rssi := s; models.rec_read_time := seconds * 1000000;
     models.record_id := None |}.

Definition fixture_tag (t ty : string) (c : option float) : models.Tag :=
  {| models.tag_id := t; models.type := ty; models.true_x := c; models.true_y := c;
     models.pred_x := None; models.pred_y := None; models.is_read := false |}.

Definition fixture : db.Database :=
  {| db.tag := [fixture_tag "T1" "ref" (Some 0%float); fixture_tag "T2" "tar" (Some 2%float)];
     db.record :=
       [0; 1; 2] ≫= fun time =>
         [fixture_reading "T1" "1" (-50) time; fixture_reading "T1" "2" (-60) time;
          fixture_reading "T2" "1" (-55) time; fixture_reading "T2" "2" (-65) time] |}.

(** A one-antenna frame for one tag, given its [(rssi, rc)] cells in
    time order. *)
Definition single_antenna_frame (t : string) (truth : float) (cells : list (float * float))
  : DataFrame FingerprintRow :=
  {| antennas := ["1"%string];
     rows := imap (fun i c => {| TagID := t; read := Z.of_nat i; rssi := [c.1]; rc := [c.2];
                                 true_x := Some truth; true_y := Some truth |}) cells |}.

(** Two antennas and two time points; antenna 1 misses the tag at the
    second one, which leaves its two cells of that row unset. *)
Definition gap_db : db.Database :=
  {| db.tag := [fixture_tag "T1" "ref" (Some 0%float)];
     db.record := [fixture_reading "T1" "1" (-50) 0; fixture_reading "T1" "2" (-60) 0;
                   fixture_reading "T1" "2" (-60) 1] |}.

Definition gap_frame : DataFrame FingerprintRow := load_data_from_db gap_db.

(** Three time points with read counts 1, 1, 2. *)
Definition thirds_frame : DataFrame FingerprintRow :=
  single_antenna_frame "T1" 0
    [((-50)%float, 1%float); ((-50)%float, 1%float); ((-51)%float, 2%float)].

(** Ten readings of one tag, as many as the default window sizes. *)
Definition ten_rows_frame : DataFrame FingerprintRow :=
  single_antenna_frame "T1" 0
    ((fun s => (s, 1%float))
       <$> [-59.2081; -43.6752; -40.5559; -46.694; -68.065;
            -42.8237; -56.2462; -44.9783; -64.6966; -65.5695]%float).

(** A tag whose numeric id reads as a number, and the frame of the
    features of its two identical readings. *)
Definition numeric_id_frame : DataFrame FingerprintRow :=
  single_antenna_frame "1001" 0 [((-50)%float, 1%float); ((-50)%float, 1%float)].


(** A tag table in which no tag has coordinates, with two readings of
    its reference tag T1. *)
Definition uncharted_db : db.Database :=
  {| db.tag := [fixture_tag "T1" "ref" None];
     db.record := [fixture_reading "T1" "1" (-50) 0; fixture_reading "T1" "1" (-50) 1] |}.


(** Readings at 0 s, 1 s and 1.5 s: only the last is written with
    microseconds, so pandas cannot date it with the format of the
    first, and the frame has the two rows of 0 s and 1 s. *)
Definition mixed_format_conn : db.Database :=
  {| db.tag := [fixture_tag "T1" "ref" (Some 0%float)];
     db.record := [fixture_reading "T1" "1" (-50) 0; fixture_reading "T1" "1" (-51) 1;
                   {| models.rec_tag_id := "T1"; models.rec_antenna_id := "2";
                      models.rec_rc := 1; models.rec_rssi := (-52)%float;
                      models.rec_read_time := 1500000; models.record_id := None |}] |}.

(** The fixture with a second reading of T1 by antenna 1 at time 0. *)
Definition fixture_with_duplicate : db.Database :=
  {| db.tag := db.tag fixture;
     db.record :=
       db.record fixture
       ++ [ {| models.rec_tag_id := "T1"; models.rec_antenna_id := "1";
               models.rec_rc := 3; models.rec_rssi := (-60)%float;
               models.rec_read_time := 0; models.record_id := None |} ] |}.

(** What [Tag.__post_init__] and the CHECK constraints of the [tag]
    table both enforce. *)
Definition tag_invariant (t : models.Tag) : Prop :=
  models.type t ∈ ["ref"; "tar"]%string
  ∧ (models.type t = "ref"%string -> models.pred_x t = None ∧ models.pred_y t = None).

Definition db_invariant (conn : db.Database) : Prop :=
  Forall tag_invariant (db.tag conn).

(** A reference tag entered without coordinates. *)
Definition bare_reference_tag : models.Tag := fixture_tag "T9" "ref" None.

(** The feature frame of the fixture with both window sizes 2, as
    [test_sliding_and_models] builds it. *)
Definition fixture_features : DataFrame FeatureRow :=
  match sliding_window_features (load_data_from_db fixture) 2 2 with
  | Ok feats => feats
  | Raise _ => {| antennas := []; rows := [] |}
  end.

(* ===================================================================== *)
(** ** A connection: the three tables with the foreign keys enforced *)
(* ===================================================================== *)

Module sqlite.

Import models db.

(** [Antenna] of [src/models.py]. *)
Record Antenna : Type := {
  antenna_id : string;
  x : float;
  y : float
}.

(** What a connection opened by [get_connection] works on, with
    [PRAGMA foreign_keys = ON]: the [antenna] table, the [tag] and
    [record] tables, and the AUTOINCREMENT counter of [record], the
    largest [record_id] issued so far.  Rows are kept in rowid order,
    the order in which a SELECT without ORDER BY returns them.  The
    statements follow SQLite: INSERT OR REPLACE deletes the row with
    the same primary key, with the foreign-key action of that
    deletion, and appends the new row; a constraint that fails raises
    [sqlite3.IntegrityError]. *)
Record Connection : Type := {
  antenna : list Antenna;
  tables : Database;
  sequence : Z
}.

(** The connection right after [initialize_database] on a new file. *)
Definition initial : Connection :=
  {| antenna := []; tables := db.initial; sequence := 0 |}.

Definition has_antenna (conn : Connection) (id : string) : Prop :=
  Exists (fun a => antenna_id a = id) (antenna conn).

Definition has_tag (conn : Connection) (id : string) : Prop :=
  Exists (fun t => tag_id t = id) (tag (tables conn)).

(** Some reading refers to the antenna. *)
Definition antenna_in_use (conn : Connection) (id : string) : Prop :=
  Exists (fun r => rec_antenna_id r = id) (record (tables conn)).

(** [INSERT OR REPLACE INTO antenna]: [x] and [y] are NOT NULL and a
    bound [nan] is NULL; replacing a row deletes the old one first,
    which ON DELETE RESTRICT refuses while a reading refers to it. *)
Definition insert_antenna (conn : Connection) (a : Antenna) : Result Connection :=
  if is_nan (x a) || is_nan (y a) then Raise IntegrityError
  else if bool_decide (has_antenna conn (antenna_id a)
                       ∧ antenna_in_use conn (antenna_id a))
  then Raise IntegrityError
  else Ok {| antenna := filter (fun r => antenna_id r ≠ antenna_id a) (antenna conn)
                          ++ [a];
             tables := tables conn;
             sequence := sequence conn |}.

Definition get_antenna_by_id (conn : Connection) (id : string) : option Antenna :=
  head (filter (fun a => antenna_id a = id) (antenna conn)).

Definition list_antennas (conn : Connection) : list Antenna := antenna conn.

(** [insert_tag] on the connection: the [tag] table changes as in
    [repository.insert_tag]; when the statement replaces a row, the
    deletion of the old row cascades to the readings of the tag. *)
Definition insert_tag (conn : Connection) (t : Tag) : Result Connection :=
  conn' ← repository.insert_tag (tables conn) t;
  let cascaded (r : Record_) :=
    has_tag conn (tag_id t) ∧ rec_tag_id r = tag_id t in
  Ok {| antenna := antenna conn;
        tables := {| tag := tag conn';
                     record := filter (fun r => ¬ cascaded r) (record conn') |};
        sequence := sequence conn |}.

(** [update_tag] leaves the key [tag_id] alone, so no foreign-key
    action runs. *)
Definition update_tag (conn : Connection) (t : Tag) : Result Connection :=
  conn' ← repository.update_tag (tables conn) t;
  Ok {| antenna := antenna conn; tables := conn'; sequence := sequence conn |}.

(** [insert_record]: [rssi] is NOT NULL, both foreign keys must have
    their parent row; the new row, [stored_row], gets the next
    [record_id], which is returned as [lastrowid].  The [record_id] of
    the argument is not part of the statement.  [rc] is taken within the 64-bit range
    of an INTEGER column. *)
Definition stored_row (r : Record_) (id : Z) : Record_ :=
  {| rec_tag_id := rec_tag_id r; rec_antenna_id := rec_antenna_id r;
     rec_rc := rec_rc r; rec_rssi := rec_rssi r;
     rec_read_time := rec_read_time r; record_id := Some id |}.

Definition insert_record (conn : Connection) (r : Record_) : Result (Connection * Z) :=
  if is_nan (rec_rssi r) then Raise IntegrityError
  else if bool_decide (has_tag conn (rec_tag_id r)
                       ∧ has_antenna conn (rec_antenna_id r))
  then
    let id := sequence conn + 1 in
    Ok ({| antenna := antenna conn;
           tables := {| tag := tag (tables conn);
                        record := record (tables conn) ++ [stored_row r id] |};
           sequence := id |}, id)
  else Raise IntegrityError.

(** [insert_records]: [executemany] runs the statement once per
    record, in order, and stops at the first that fails. *)
Definition insert_records (conn : Connection) (records : list Record_)
  : Result Connection :=
  for_loop (fun conn r => p ← insert_record conn r; Ok p.1) records conn.

Definition get_records_by_tag (conn : Connection) (id : string) : list Record_ :=
  filter (fun r => rec_tag_id r = id) (record (tables conn)).

Definition get_records_by_antenna (conn : Connection) (id : string) : list Record_ :=
  filter (fun r => rec_antenna_id r = id) (record (tables conn)).

(** The three statements of [reset_all] in [src/api/handlers.py]. *)
Definition delete_from_record (conn : Connection) : Result Connection :=
  Ok {| antenna := antenna conn;
        tables := {| tag := tag (tables conn); record := [] |};
        sequence := sequence conn |}.

(** Deleting the tags cascades to the readings of the deleted tags. *)
Definition delete_from_tag (conn : Connection) : Result Connection :=
  Ok {| antenna := antenna conn;
        tables := {| tag := [];
                     record := filter (fun r => ¬ has_tag conn (rec_tag_id r))
                                 (record (tables conn)) |};
        sequence := sequence conn |}.

(** Deleting the antennas is refused while a reading refers to one. *)
Definition delete_from_antenna (conn : Connection) : Result Connection :=
  if bool_decide (Exists (fun r => has_antenna conn (rec_antenna_id r))
                    (record (tables conn)))
  then Raise IntegrityError
  else Ok {| antenna := []; tables := tables conn; sequence := sequence conn |}.

Definition reset_all (conn : Connection) : Result Connection :=
  conn ← delete_from_record conn;
  conn ← delete_from_tag conn;
  delete_from_antenna conn.

(** The request body [TagIn] of [create_tag]. *)
Record TagIn : Type := {
  in_tag_id : string;
  in_type : string;
  in_true_x : option float;
  in_true_y : option float
}.

(** [create_tag]: the [Tag] is built from the four fields of the body,
    the others take their defaults, then it is inserted. *)
Definition create_tag (conn : Connection) (tag_in : TagIn) : Result Connection :=
  t ← post_init {| tag_id := in_tag_id tag_in; type := in_type tag_in;
                   true_x := in_true_x tag_in; true_y := in_true_y tag_in;
                   pred_x := None; pred_y := None; is_read := false |};
  insert_tag conn t.

(** The outcome of a request handler: a response body, an
    [HTTPException] with its status code, or another exception. *)
Inductive Response (A : Type) : Type :=
  | Returned (body : A)
  | HTTPException (status_code : Z)
  | Unhandled (e : PyError).
Arguments Returned {A} body.
Arguments HTTPException {A} status_code.
Arguments Unhandled {A} e.

Record ReadingOut : Type := {
  out_tag_id : string;
  out_rssi : list float;
  out_rc : list Z;
  out_is_read : bool
}.

(** [get_readings] *)
Definition get_readings (conn : Connection) (tag_type : string)
  : Response (list ReadingOut) :=
  if negb (bool_decide (tag_type ∈ ["ref"; "tar"]%string)) then HTTPException 400
  else
    match repository.list_tags (tables conn) (Some tag_type) with
    | Raise e => Unhandled e
    | Ok tags =>
        Returned
          ((fun t =>
              let recs := get_records_by_tag conn (tag_id t) in
              {| out_tag_id := tag_id t;
                 out_rssi := rec_rssi <$> recs;
                 out_rc := rec_rc <$> recs;
                 out_is_read := is_read t |}) <$> tags)
    end.

Record PredictionOut : Type := {
  out_pred_tag_id : string;
  out_pred_x : option float;
  out_pred_y : option float
}.

(** [get_predictions] *)
Definition get_predictions (conn : Connection) : Response (list PredictionOut) :=
  match repository.list_tags (tables conn) (Some "tar"%string) with
  | Raise e => Unhandled e
  | Ok tags =>
      Returned
        ((fun t => {| out_pred_tag_id := tag_id t;
                      out_pred_x := pred_x t;
                      out_pred_y := pred_y t |}) <$> tags)
  end.

End sqlite.

(** The rows of the connection are consistent: distinct keys in every
    table, tags within the constraints of the schema, every reading with
    a non-null signal, a parent tag and a parent antenna, and a
    [record_id] that has been issued. *)
Record connection_invariant (conn : sqlite.Connection) : Prop := {
  antenna_keys : NoDup (sqlite.antenna_id <$> sqlite.antenna conn);
  tag_keys : NoDup (models.tag_id <$> db.tag (sqlite.tables conn));
  tag_constraints : db_invariant (sqlite.tables conn);
  record_parents :
    Forall (fun r => sqlite.has_tag conn (models.rec_tag_id r)
                     ∧ sqlite.has_antenna conn (models.rec_antenna_id r)
                     ∧ is_nan (models.rec_rssi r) = false)
      (db.record (sqlite.tables conn));
  record_ids :
    Forall (fun r => ∃ id, models.record_id r = Some id ∧ 0 < id ≤ sqlite.sequence conn)
      (db.record (sqlite.tables conn));
  record_keys : NoDup (models.record_id <$> db.record (sqlite.tables conn));
  sequence_nonneg : 0 ≤ sqlite.sequence conn
}.

(** A connection with the fixture's tags, its two antennas and its
    twelve readings, entered through the repository functions. *)
Definition fixture_connection : sqlite.Connection :=
  let antennas :=
    [ {| sqlite.antenna_id := "1"; sqlite.x := 0; sqlite.y := 0 |};
      {| sqlite.antenna_id := "2"; sqlite.x := 1; sqlite.y := 1 |} ] in
  let step {A} (f : sqlite.Connection -> A -> Result sqlite.Connection)
      (conn : sqlite.Connection) (a : A) : sqlite.Connection :=
    match f conn a with Ok conn' => conn' | Raise _ => conn end in
  let conn := foldl (step sqlite.insert_antenna) sqlite.initial antennas in
  let conn := foldl (step sqlite.insert_tag) conn (db.tag fixture) in
  foldl (step (fun c r => p ← sqlite.insert_record c r; Ok p.1)) conn (db.record fixture).

(* ===================================================================== *)
(** ** Results and loops *)
(* ===================================================================== *)

Lemma bind_Ok {A B : Type} (r : Result A) (k : A -> Result B) (b : B) :
  r ≫= k = Ok b -> ∃ a, r = Ok a ∧ k a = Ok b.
Proof. destruct r as [a|e]; [by exists a | done]. Qed.

Lemma bind_Raise {A B : Type} (r : Result A) (k : A -> Result B) (e : PyError) :
  r = Raise e -> r ≫= k = Raise e.
Proof. by intros ->. Qed.

(** Run a bind whose first computation has returned. *)
Ltac bind_ok := repeat (change (Ok ?a ≫= ?k) with (k a); cbv beta).

Ltac bind_inv H :=
  let a := fresh "a" in
  let Ha := fresh "Ha" in
  apply bind_Ok in H as (a & Ha & H).

Lemma comprehension_Ok {A B : Type} (f : A -> Result B) (l : list A) (out : list B) :
  comprehension f l = Ok out <-> Forall2 (fun x y => f x = Ok y) l out.
Proof.
  revert out. induction l as [|x l IH]; intros out; simpl.
  - split; [intros [= <-]; constructor | by inversion 1].
  - split.
    + intros Hc. bind_inv Hc. bind_inv Hc. injection Hc as <-.
      constructor; [done | by apply IH].
    + inversion 1 as [|? y ? ys Hy Hys]; subst.
      rewrite Hy. simpl. apply IH in Hys. by rewrite Hys.
Qed.

Lemma comprehension_total {A B : Type} (f : A -> Result B) (l : list A) :
  Forall (fun x => ∃ y, f x = Ok y) l -> ∃ out, comprehension f l = Ok out.
Proof.
  induction 1 as [|x l [y Hy] _ [ys Hys]]; simpl; [by eexists |].
  exists (y :: ys). by rewrite Hy; simpl; rewrite Hys.
Qed.

Lemma comprehension_Raise {A B : Type} (f : A -> Result B) (l : list A) :
  Exists (fun x => ∃ e, f x = Raise e) l -> ∃ e, comprehension f l = Raise e.
Proof.
  induction 1 as [x l [e He]|x l _ [e He]]; simpl.
  - exists e. by rewrite He.
  - destruct (f x) as [y|e']; simpl; [|by eexists].
    exists e. by rewrite He.
Qed.

(** A loop that appends one block per iteration returns the blocks in
    iteration order. *)
Lemma for_loop_append {A I : Type} (f : I -> Result (list A)) (iter : list I)
    (acc out : list A) :
  for_loop (fun acc i => blk ← f i; Ok (acc ++ blk)) iter acc = Ok out ->
  ∃ blocks, Forall2 (fun i blk => f i = Ok blk) iter blocks ∧ out = acc ++ concat blocks.
Proof.
  revert acc. induction iter as [|i iter IH]; intros acc; simpl.
  - intros [= <-]. exists []. split; [constructor | by rewrite app_nil_r].
  - intros Hl. bind_inv Hl. bind_inv Ha. injection Ha as <-.
    destruct (IH _ Hl) as (blocks & Hb & ->).
    exists (a0 :: blocks). split; [by constructor | by rewrite <-app_assoc].
Qed.

Lemma for_loop_append_total {A I : Type} (f : I -> Result (list A)) (iter : list I)
    (acc : list A) :
  Forall (fun i => ∃ blk, f i = Ok blk) iter ->
  ∃ out, for_loop (fun acc i => blk ← f i; Ok (acc ++ blk)) iter acc = Ok out.
Proof.
  intros Hall. revert acc.
  induction Hall as [|i iter [blk Hblk] _ IH]; intros acc; simpl; [by eexists |].
  rewrite Hblk. simpl. apply IH.
Qed.

Lemma elem_of_py_range (lo hi i : Z) : i ∈ py_range lo hi <-> lo ≤ i < hi.
Proof.
  unfold py_range. rewrite list_elem_of_fmap. split.
  - intros (d & -> & Hd). apply elem_of_seq in Hd. lia.
  - intros Hi. exists (Z.to_nat (i - lo)). split; [lia |].
    apply elem_of_seq. lia.
Qed.

(* ===================================================================== *)
(** ** Not-a-number in binary64 arithmetic *)
(* ===================================================================== *)

Section nan_facts.

#[local] Open Scope float_scope.

Lemma Prim2SF_nan : Prim2SF nan = S754_nan.
Proof. reflexivity. Qed.

(** There is one not-a-number. *)
Lemma is_nan_eq (x : float) : is_nan x = true -> x = nan.
Proof.
  intros Hx. apply Prim2SF_inj. rewrite Prim2SF_nan.
  unfold Prim2SF. by rewrite Hx.
Qed.

Lemma add_nan_r x : x + nan = nan.
Proof.
  apply Prim2SF_inj. rewrite add_spec, Prim2SF_nan. by destruct (Prim2SF x).
Qed.

Lemma add_nan_l x : nan + x = nan.
Proof. apply Prim2SF_inj. by rewrite add_spec, Prim2SF_nan. Qed.

Lemma sub_nan_r x : x - nan = nan.
Proof.
  apply Prim2SF_inj. rewrite sub_spec, Prim2SF_nan. by destruct (Prim2SF x).
Qed.

Lemma div_nan_l x : nan / x = nan.
Proof. apply Prim2SF_inj. by rewrite div_spec, Prim2SF_nan. Qed.

Lemma leb_nan_r x : (x <=? nan) = false.
Proof. rewrite leb_spec, Prim2SF_nan. by destruct (Prim2SF x). Qed.

Lemma is_finite_nan x : is_nan x = true -> is_finite x = false.
Proof. intros Hx. unfold is_finite. by rewrite Hx. Qed.

Lemma foldl_add_nan (col : list float) : foldl PrimFloat.add nan col = nan.
Proof. induction col as [|v col IH]; simpl; [done | by rewrite add_nan_l]. Qed.

Lemma foldl_add_has_nan (col : list float) (x : float) :
  nan ∈ col -> foldl PrimFloat.add x col = nan.
Proof.
  revert x. induction col as [|v col IH]; intros x; [by inversion 1 |].
  intros [<-|Hin]%elem_of_cons; simpl.
  - rewrite add_nan_r. apply foldl_add_nan.
  - by apply IH.
Qed.

Lemma minimum_nan_l x : np.minimum nan x = nan.
Proof. unfold np.minimum. by rewrite orb_true_r. Qed.

Lemma minimum_nan_r x : np.minimum x nan = nan.
Proof.
  unfold np.minimum. rewrite leb_nan_r. simpl.
  destruct (is_nan x) eqn:Hx; [by apply is_nan_eq | done].
Qed.

Lemma maximum_nan_l x : np.maximum nan x = nan.
Proof. unfold np.maximum. by rewrite orb_true_r. Qed.

Lemma maximum_nan_r x : np.maximum x nan = nan.
Proof.
  unfold np.maximum.
  assert ((nan <=? x) = false) as -> by by rewrite leb_spec, Prim2SF_nan.
  simpl. destruct (is_nan x) eqn:Hx; [by apply is_nan_eq | done].
Qed.

(** A reduction with an operation that not-a-number absorbs on both
    sides returns not-a-number as soon as one entry is. *)
Lemma reduce_has_nan (op : float -> float -> float) (col : list float) :
  (∀ x, op nan x = nan) -> (∀ x, op x nan = nan) ->
  nan ∈ col -> np.reduce op col = nan.
Proof.
  intros Hl Hr.
  assert (∀ l, foldl op nan l = nan) as Hfold.
  { induction l as [|v l IH]; simpl; [done | by rewrite Hl]. }
  destruct col as [|x col]; [by inversion 1 |].
  intros [<-|Hin]%elem_of_cons; simpl; [by apply Hfold |].
  revert x. induction col as [|v col IH]; intros x; [by inversion Hin |].
  apply elem_of_cons in Hin as [<-|Hin]; simpl.
  - by rewrite Hr.
  - by apply IH.
Qed.

Lemma lane_has_nan (body : list float) (i : nat) :
  (i < 8 * (length body / 8))%nat -> body !! i = Some nan ->
  nan ∈ np.lane (i mod 8) body.
Proof.
  intros Hi Hnan. unfold np.lane. apply list_elem_of_omap.
  exists (i / 8)%nat. split.
  - apply elem_of_seq. split; [lia |]. rewrite Nat.add_0_l.
    apply Nat.Div0.div_lt_upper_bound. lia.
  - rewrite <-Hnan. f_equal. symmetry. apply Nat.div_mod_eq.
Qed.

Lemma unrolled_sum_has_nan (col : list float) :
  nan ∈ col -> np.unrolled_sum col = nan.
Proof.
  intros Hin. unfold np.unrolled_sum.
  set (n := length col). set (body := take (n - n mod 8) col).
  rewrite <-(take_drop (n - n mod 8) col) in Hin.
  apply elem_of_app in Hin as [Hin|Hin]; [|by apply foldl_add_has_nan].
  fold body in Hin. apply list_elem_of_lookup_1 in Hin as [i Hi].
  assert (length body = (n - n mod 8)%nat) as Hlen.
  { unfold body. rewrite length_take. fold n.
    pose proof (Nat.Div0.mod_le n 8). lia. }
  assert (i < 8 * (length body / 8))%nat as Hlt.
  { apply lookup_lt_Some in Hi. rewrite Hlen in *.
    pose proof (Nat.div_mod_eq n 8) as Hn.
    replace (n - n mod 8)%nat with (8 * (n / 8))%nat by lia.
    replace (8 * (n / 8))%nat with ((n / 8) * 8)%nat in * by lia.
    rewrite Nat.div_mul by done. lia. }
  pose proof (lane_has_nan body i Hlt Hi) as Hlane.
  apply (reduce_has_nan PrimFloat.add) in Hlane; [|apply add_nan_l | apply add_nan_r].
  assert (i mod 8 < 8)%nat as Hj by (apply Nat.mod_upper_bound; lia).
  replace (foldl _ _ _) with nan; [done |]. symmetry.
  destruct (i mod 8)%nat as [|[|[|[|[|[|[|[|j]]]]]]]] eqn:Hmod; [..|lia];
    rewrite Hlane; repeat first [rewrite add_nan_l | rewrite add_nan_r];
    apply foldl_add_nan.
Qed.

Lemma pairwise_sum_has_nan (fuel : nat) (col : list float) :
  nan ∈ col -> np.pairwise_sum fuel col = nan.
Proof.
  revert col. induction fuel as [|fuel IH]; intros col Hin.
  - simpl. destruct (_ <? 8)%nat; [by apply foldl_add_has_nan |].
    destruct (_ <=? 128)%nat; [by apply unrolled_sum_has_nan | done].
  - cbn [np.pairwise_sum]. destruct (_ <? 8)%nat; [by apply foldl_add_has_nan |].
    destruct (_ <=? 128)%nat; [by apply unrolled_sum_has_nan |].
    set (n2 := (_ - _)%nat).
    rewrite <-(take_drop n2 col) in Hin. apply elem_of_app in Hin as [Hin|Hin].
    + by rewrite (IH _ Hin), add_nan_l.
    + by rewrite (IH _ Hin), add_nan_r.
Qed.

(** The splitting never runs out of fuel: from the length of the
    column on, every amount of fuel gives the same sum. *)
Lemma pairwise_sum_fuel (fuel1 fuel2 : nat) (col : list float) :
  (length col ≤ fuel1)%nat -> (length col ≤ fuel2)%nat ->
  np.pairwise_sum fuel1 col = np.pairwise_sum fuel2 col.
Proof.
  revert fuel2 col. induction fuel1 as [|fuel1 IH]; intros fuel2 col H1 H2.
  - destruct col; [by destruct fuel2 | simpl in H1; lia].
  - destruct fuel2 as [|fuel2]; [destruct col; [done | simpl in H2; lia] |].
    cbn [np.pairwise_sum].
    destruct (Nat.ltb_spec (length col) 8) as [|_]; [done |].
    destruct (Nat.leb_spec (length col) 128) as [|Hlong]; [done |].
    assert (64 ≤ length col / 2 < length col)%nat as Hhalf.
    { split; [apply Nat.div_le_lower_bound; lia | apply Nat.div_lt; lia]. }
    assert ((length col / 2) mod 8 < 8)%nat as Hmod
      by (apply Nat.mod_upper_bound; lia).
    rewrite (IH fuel2 (take _ col)), (IH fuel2 (drop _ col)); [done | ..];
      rewrite ?length_take, ?length_drop;
      generalize dependent (length col / 2)%nat; intros half ? ?;
      generalize dependent (half mod 8)%nat; intros; lia.
Qed.

Lemma sum_has_nan (col : list float) : nan ∈ col -> np.sum col = nan.
Proof. intros Hin. unfold np.sum. by rewrite pairwise_sum_has_nan, add_nan_r. Qed.

Lemma mean_has_nan (col : list float) : nan ∈ col -> np.mean col = nan.
Proof. intros Hin. unfold np.mean. by rewrite sum_has_nan, div_nan_l. Qed.

Lemma min_has_nan (col : list float) : nan ∈ col -> np.min col = nan.
Proof. apply reduce_has_nan; [apply minimum_nan_l | apply minimum_nan_r]. Qed.

Lemma max_has_nan (col : list float) : nan ∈ col -> np.max col = nan.
Proof. apply reduce_has_nan; [apply maximum_nan_l | apply maximum_nan_r]. Qed.

Lemma std_has_nan (col : list float) : nan ∈ col -> np.std col = nan.
Proof.
  intros Hin. unfold np.std. rewrite (mean_has_nan col Hin).
  rewrite sum_has_nan; [by rewrite div_nan_l |].
  apply list_elem_of_fmap. exists nan. split; [done |].
  apply list_elem_of_fmap. exists nan. split; [by rewrite sub_nan_r | done].
Qed.

Lemma around4_nan : np.around4 nan = nan.
Proof. reflexivity. Qed.

End nan_facts.

(* ===================================================================== *)
(** ** The statistics of one window *)
(* ===================================================================== *)

Lemma window_stats_Ok (ncols : nat) (window : list (list float)) :
  window ≠ [] ->
  window_stats ncols window =
    Ok {| avg := np.around4 <$> np.axis0 np.mean ncols window;
          min := np.around4 <$> np.axis0 np.min ncols window;
          max := np.around4 <$> np.axis0 np.max ncols window;
          stddev := np.around4 <$> np.axis0 np.std ncols window |}.
Proof. by destruct window. Qed.

Lemma window_stats_nonempty (ncols : nat) (window : list (list float)) (s : Stats) :
  window_stats ncols window = Ok s -> window ≠ [].
Proof. by destruct window. Qed.

Lemma axis0_lookup (func : list float -> float) (ncols : nat)
    (arr : list (list float)) (j : nat) :
  (j < ncols)%nat ->
  (np.around4 <$> np.axis0 func ncols arr) !! j
    = Some (np.around4 (func (np.column j arr))).
Proof.
  intros Hj. unfold np.axis0. rewrite !list_lookup_fmap.
  by rewrite lookup_seq_lt.
Qed.

(** Column by column: each statistic is the NumPy reduction of the
    column, rounded to four decimals. *)
Lemma window_stats_column (ncols : nat) (window : list (list float)) (s : Stats) (j : nat) :
  window_stats ncols window = Ok s -> (j < ncols)%nat ->
  avg s !! j = Some (np.around4 (np.mean (np.column j window)))
  ∧ min s !! j = Some (np.around4 (np.min (np.column j window)))
  ∧ max s !! j = Some (np.around4 (np.max (np.column j window)))
  ∧ stddev s !! j = Some (np.around4 (np.std (np.column j window))).
Proof.
  intros Hs Hj. pose proof (window_stats_nonempty _ _ _ Hs) as Hne.
  rewrite (window_stats_Ok _ _ Hne) in Hs. injection Hs as <-. simpl.
  by rewrite !axis0_lookup.
Qed.

(* ===================================================================== *)
(** ** The per-tag loops of [sliding_window_features] *)
(* ===================================================================== *)

Lemma for_loop_ext {S I : Type} (body1 body2 : S -> I -> Result S) (iter : list I) (s : S) :
  (∀ s i, body1 s i = body2 s i) -> for_loop body1 iter s = for_loop body2 iter s.
Proof.
  intros Hext. revert s. induction iter as [|i iter IH]; intros s; simpl; [done |].
  rewrite Hext. destruct (body2 s i); simpl; [apply IH | done].
Qed.

Lemma for_loop_pure {S I : Type} (f : S -> I -> S) (iter : list I) (s : S) :
  for_loop (fun s i => Ok (f s i)) iter s = Ok (foldl f s iter).
Proof. revert s. induction iter as [|i iter IH]; intros s; simpl; [done | apply IH]. Qed.

Lemma fingerprint_loc_set (df : list FeatureRow) (i : Z) (s : Stats) :
  fingerprint <$> loc_set df i s = fingerprint <$> df.
Proof.
  unfold loc_set. apply list_eq. intros k. rewrite !list_lookup_fmap.
  destruct (decide (k = Z.to_nat i)) as [->|Hk].
  - rewrite list_lookup_alter_eq. by destruct (df !! Z.to_nat i).
  - by rewrite list_lookup_alter_ne.
Qed.

Lemma loc_values_fingerprint (positions : list nat) (a b : Z) (df : list FeatureRow) :
  loc_values positions a b df
    = base_values positions <$> loc_slice a b (fingerprint <$> df).
Proof.
  unfold loc_values, loc_slice. by rewrite !fmap_take, !fmap_drop, <-list_fmap_compose.
Qed.

Lemma loc_slice_0 {A : Type} (b : Z) (l : list A) :
  loc_slice 0 b l = take (Z.to_nat (b + 1)) l.
Proof. unfold loc_slice. simpl. by rewrite Nat.sub_0_r. Qed.

(** The trailing slice of the sliding loop, on natural numbers. *)
Lemma loc_slice_trailing {A : Type} (window_size : Z) (i : nat) (l : list A) :
  loc_slice (Z.max 0 (Z.of_nat i - window_size + 1)) (Z.of_nat i) l
    = let beg := (i + 1 - Z.to_nat window_size)%nat in take (i + 1 - beg) (drop beg l).
Proof.
  unfold loc_slice. simpl. destruct (decide (window_size ≤ 0)) as [Hw|Hw].
  - replace (Z.to_nat (Z.of_nat i + 1) - _)%nat with 0%nat by lia.
    by replace (i + 1 - (i + 1 - Z.to_nat window_size))%nat with 0%nat by lia.
  - f_equal; [lia |]. f_equal. lia.
Qed.

Section loops.

(** The statistics assigned at label [i] depend on the fingerprints
    only, which the assignments leave alone. *)
Variable g : list FingerprintRow -> Z -> Result Stats.

Let body (df : list FeatureRow) (i : Z) : Result (list FeatureRow) :=
  s ← g (fingerprint <$> df) i; Ok (loc_set df i s).

Lemma for_loop_loc_set (iter : list Z) (df out : list FeatureRow) :
  Forall (fun i => 0 ≤ i) iter ->
  for_loop body iter df = Ok out ->
  fingerprint <$> out = fingerprint <$> df
  ∧ ∀ k fr, out !! k = Some fr ->
      (Z.of_nat k ∈ iter -> g (fingerprint <$> df) (Z.of_nat k) = Ok (stats fr))
      ∧ (Z.of_nat k ∉ iter -> df !! k = Some fr).
Proof.
  intros Hpos. revert df. induction Hpos as [|i iter Hi _ IH]; intros df; simpl.
  - intros [= <-]. split; [done |]. intros k fr Hk. split; [by inversion 1 | done].
  - intros Hl. bind_inv Hl. unfold body in Ha. bind_inv Ha. injection Ha as <-.
    destruct (IH _ Hl) as [Hfp Hlook]. rewrite fingerprint_loc_set in Hfp, Hlook.
    split; [done |]. intros k fr Hk. destruct (Hlook k fr Hk) as [Hin Hout].
    destruct (decide (Z.of_nat k ∈ iter)) as [Hmem|Hmem].
    + split; [by intros _; apply Hin | intros Hn; exfalso; apply Hn; by right].
    + specialize (Hout Hmem). split.
      * intros [Hki|?]%elem_of_cons; [|done]. subst i.
        unfold loc_set in Hout. rewrite Nat2Z.id, list_lookup_alter_eq in Hout.
        destruct (df !! k); simplify_eq/=. done.
      * intros Hn. unfold loc_set in Hout.
        rewrite list_lookup_alter_ne in Hout; [done |].
        intros <-. apply Hn. rewrite Z2Nat.id by done. by left.
Qed.

Lemma for_loop_loc_set_total (iter : list Z) (df : list FeatureRow) :
  Forall (fun i => ∃ s, g (fingerprint <$> df) i = Ok s) iter ->
  ∃ out, for_loop body iter df = Ok out.
Proof.
  revert df. induction iter as [|i iter IH]; intros df; [by eexists |].
  intros [[s Hs] Hrest]%Forall_cons.
  change (∃ out, body df i ≫= for_loop body iter = Ok out).
  unfold body. rewrite Hs. apply IH. by rewrite fingerprint_loc_set.
Qed.

End loops.

Lemma first_window_values (positions : list nat) (first_window_size : Z)
    (ncols : nat) (df_tag : list FingerprintRow) :
  let n := Z.of_nat (length df_tag) in
  let df0 := (fun r => {| fingerprint := r; stats := unassigned ncols |}) <$> df_tag in
  (if first_window_size <=? n
   then loc_values positions 0 (first_window_size - 1) df0
   else loc_values positions 0 (n - 1) df0)
  = base_values positions <$> take (Z.to_nat (Z.min first_window_size n)) df_tag.
Proof.
  intros n df0.
  assert (fingerprint <$> df0 = df_tag) as Hfp.
  { unfold df0. rewrite <-list_fmap_compose. apply list_fmap_id. }
  rewrite !loc_values_fingerprint, Hfp, !loc_slice_0.
  destruct (Z.leb_spec first_window_size n).
  - do 3 f_equal. lia.
  - do 3 f_equal. lia.
Qed.

(** What the loop body leaves in [df_tag]: the rows of the tag, each
    with the statistics of its own [row_window]. *)
Lemma tag_features_lookup (first_window_size window_size : Z) (cols : list string)
    (df_tag : list FingerprintRow) (out : list FeatureRow) :
  tag_features first_window_size window_size cols df_tag = Ok out ->
  ∃ positions,
    columns_resolve cols positions
    ∧ 1 ≤ first_window_size
    ∧ df_tag ≠ []
    ∧ fingerprint <$> out = df_tag
    ∧ ∀ k fr, out !! k = Some fr ->
        window_stats (length cols + length cols)
          (base_values positions
             <$> row_window first_window_size window_size df_tag k)
        = Ok (stats fr).
Proof.
  unfold tag_features. intros Hout.
  apply bind_Ok in Hout as (positions & Hpos & Hout). exists positions.
  rewrite first_window_values in Hout.
  apply bind_Ok in Hout as (s & Hs & Hout).
  set (ncols := (length cols + length cols)%nat) in *.
  set (n := Z.of_nat (length df_tag)) in *.
  set (df0 := (fun r => {| fingerprint := r; stats := unassigned ncols |}) <$> df_tag) in *.
  assert (fingerprint <$> df0 = df_tag) as Hfp0.
  { unfold df0. rewrite <-list_fmap_compose. apply list_fmap_id. }
  (* the first window is not empty *)
  pose proof (window_stats_nonempty _ _ _ Hs) as Hne.
  assert (1 ≤ first_window_size ∧ df_tag ≠ []) as [Hw0 Hrows].
  { split.
    - destruct (decide (1 ≤ first_window_size)) as [|Hlt]; [done |].
      exfalso. apply Hne.
      by replace (Z.to_nat (Z.min first_window_size n)) with 0%nat by lia.
    - intros ->. apply Hne. by rewrite take_nil. }
  (* the warm-up loop *)
  pose proof (for_loop_pure (fun df i => loc_set df i s)
                (py_range 0 (Z.min first_window_size n)) df0) as Hwarm.
  apply (for_loop_loc_set (fun _ _ => Ok s)) in Hwarm as [Hfp1 Hwarm];
    [|apply Forall_forall; intros i Hi%elem_of_py_range; lia].
  set (df1 := foldl _ df0 _) in *.
  (* the sliding loop *)
  pose (g := fun (F : list FingerprintRow) (i : Z) =>
              window_stats ncols
                (base_values positions
                   <$> loc_slice (Z.max 0 (i - window_size + 1)) i F)).
  rewrite (for_loop_ext _ (fun df i => s ← g (fingerprint <$> df) i; Ok (loc_set df i s)))
    in Hout by (intros df i; unfold g; simpl; by rewrite loc_values_fingerprint).
  apply (for_loop_loc_set g) in Hout as [Hfp Hslide];
    [|apply Forall_forall; intros i Hi%elem_of_py_range; lia].
  rewrite Hfp1, Hfp0 in Hfp, Hslide.
  repeat split; [done..|].
  intros k fr Hk.
  assert (k < length df_tag)%nat as Hlen.
  { rewrite <-Hfp, length_fmap. by eapply lookup_lt_Some. }
  destruct (Hslide k fr Hk) as [Hin Hnotin].
  unfold row_window. destruct (Z.ltb_spec (Z.of_nat k) first_window_size) as [Hlt|Hge].
  - assert (df1 !! k = Some fr) as Hk1.
    { apply Hnotin. rewrite elem_of_py_range. lia. }
    destruct (Hwarm k fr Hk1) as [Hs' _].
    assert (Ok s = Ok (stats fr)) as [= <-]; [|done].
    apply Hs'. rewrite elem_of_py_range. unfold n. lia.
  - rewrite <-loc_slice_trailing. apply Hin. rewrite elem_of_py_range. unfold n. lia.
Qed.

(** With positive window sizes and resolvable columns the loop body
    does not raise on a tag that has rows. *)
Lemma tag_features_total (first_window_size window_size : Z) (cols : list string)
    (positions : list nat) (df_tag : list FingerprintRow) :
  columns_resolve cols positions -> 1 ≤ first_window_size -> 1 ≤ window_size ->
  df_tag ≠ [] ->
  ∃ out, tag_features first_window_size window_size cols df_tag = Ok out.
Proof.
  intros Hpos Hw0 Hw Hrows. unfold tag_features.
  unfold columns_resolve in Hpos. rewrite Hpos. simpl.
  rewrite first_window_values.
  set (ncols := (length cols + length cols)%nat).
  set (n := Z.of_nat (length df_tag)).
  assert (0 < n) as Hn by (unfold n; destruct df_tag; [done | simpl; lia]).
  rewrite window_stats_Ok.
  2:{ intros Hnil%(f_equal length). rewrite length_fmap, length_take in Hnil.
      unfold n in *. simpl in Hnil. lia. }
  change (Ok ?s ≫= ?k) with (k s). cbv beta.
  set (s := Build_Stats _ _ _ _).
  set (df0 := (fun r => {| fingerprint := r; stats := unassigned ncols |}) <$> df_tag).
  set (df1 := foldl _ df0 _).
  assert (fingerprint <$> df1 = df_tag) as Hfp1.
  { pose proof (for_loop_pure (fun df i => loc_set df i s)
                  (py_range 0 (Z.min first_window_size n)) df0) as Hwarm.
    apply (for_loop_loc_set (fun _ _ => Ok s)) in Hwarm as [Hfp1 _];
      [|apply Forall_forall; intros i Hi%elem_of_py_range; lia].
    fold df1 in Hfp1. rewrite Hfp1. unfold df0.
    rewrite <-list_fmap_compose. apply list_fmap_id. }
  pose (g := fun (F : list FingerprintRow) (i : Z) =>
              window_stats ncols
                (base_values positions
                   <$> loc_slice (Z.max 0 (i - window_size + 1)) i F)).
  rewrite (for_loop_ext _ (fun df i => s ← g (fingerprint <$> df) i; Ok (loc_set df i s)))
    by (intros df i; unfold g; simpl; by rewrite loc_values_fingerprint).
  apply (for_loop_loc_set_total g). rewrite Hfp1. unfold g.
  apply Forall_forall. intros i Hi%elem_of_py_range.
  eexists. apply window_stats_Ok.
  intros Hnil%(f_equal length). revert Hnil.
  unfold loc_slice. rewrite length_fmap, length_take, length_drop. unfold n in *.
  simpl. lia.
Qed.

(* ===================================================================== *)
(** ** Grouping by tag and the final sort *)
(* ===================================================================== *)

Lemma elem_of_np_unique (l : list string) (t : string) : t ∈ np_unique l <-> t ∈ l.
Proof. unfold np_unique. by rewrite merge_sort_Permutation, elem_of_remove_dups. Qed.

Lemma NoDup_np_unique (l : list string) : NoDup (np_unique l).
Proof. unfold np_unique. rewrite merge_sort_Permutation. apply NoDup_remove_dups. Qed.

(** Selecting the rows of each key in turn, for keys without repetition
    that cover the list, rearranges the list. *)
Lemma group_by_key_Permutation {A K : Type} `{EqDecision K} (key : A -> K)
    (keys : list K) (l : list A) :
  NoDup keys -> (∀ x, x ∈ l -> key x ∈ keys) ->
  concat ((fun k => filter (fun x => key x = k) l) <$> keys) ≡ₚ l.
Proof.
  intros Hnd. revert l. induction Hnd as [|k ks Hk _ IH]; intros l Hcover.
  - destruct l as [|x l]; [done |].
    specialize (Hcover x ltac:(left)). by inversion Hcover.
  - simpl. etrans; [|apply (filter_app_complement (fun x => key x = k))].
    f_equiv. etrans; [|apply (IH (filter (fun x => ¬ key x = k) l))].
    + apply reflexive_eq. f_equal.
      apply list_eq_Forall2, Forall2_fmap, Forall_Forall2_diag, Forall_forall.
      intros k' Hk'. rewrite list_filter_filter. apply list_filter_iff.
      intros x. split; [|tauto]. intros ->. split; [done |]. by intros ->.
    + intros x [Hx Hin]%list_elem_of_filter.
      specialize (Hcover x Hin). apply elem_of_cons in Hcover as [?|?]; done.
Qed.

#[global] Instance by_read_TagID_total : Total by_read_TagID.
Proof.
  intros r1 r2. unfold by_read_TagID.
  destruct (Z.lt_total (read (fingerprint r1)) (read (fingerprint r2))) as [?|[Heq|?]];
    [by left; left | | by right; left].
  destruct (total String.le (TagID (fingerprint r1)) (TagID (fingerprint r2)));
    [left | right]; right; split; congruence.
Qed.

#[global] Instance by_read_TagID_trans : Transitive by_read_TagID.
Proof.
  intros r1 r2 r3. unfold by_read_TagID.
  intros [?|[? ?]] [?|[? ?]]; [left; lia | left; lia | left; lia |].
  right. split; [lia | by etrans].
Qed.

(** The blocks the loop over tags appends, one per tag of the frame. *)
Lemma sliding_window_features_blocks (dbase : DataFrame FingerprintRow)
    (first_window_size window_size : Z) (out : DataFrame FeatureRow) :
  sliding_window_features dbase first_window_size window_size = Ok out ->
  antennas out = antennas dbase
  ∧ ∃ blocks,
      Forall2 (fun tag blk =>
                 tag_features first_window_size window_size (antennas dbase)
                   (filter (fun r => TagID r = tag) (rows dbase)) = Ok blk)
        (np_unique (TagID <$> rows dbase)) blocks
      ∧ rows out = merge_sort by_read_TagID (concat blocks).
Proof.
  unfold sliding_window_features. intros Hout.
  apply bind_Ok in Hout as (newdbase & Hloop & [= <-]). split; [done |].
  apply (for_loop_append
           (fun tag => tag_features first_window_size window_size (antennas dbase)
                         (filter (fun r => TagID r = tag) (rows dbase))))
    in Hloop as (blocks & Hblocks & ->).
  by exists blocks.
Qed.

Lemma sliding_window_features_total (dbase : DataFrame FingerprintRow)
    (first_window_size window_size : Z) (positions : list nat) :
  columns_resolve (antennas dbase) positions ->
  1 ≤ first_window_size -> 1 ≤ window_size ->
  ∃ out, sliding_window_features dbase first_window_size window_size = Ok out.
Proof.
  intros Hpos Hw0 Hw. unfold sliding_window_features.
  destruct (for_loop_append_total
              (fun tag => tag_features first_window_size window_size (antennas dbase)
                            (filter (fun r => TagID r = tag) (rows dbase)))
              (np_unique (TagID <$> rows dbase)) []) as [newdbase Hloop].
  - apply Forall_forall. intros tag Htag.
    apply (proj1 (elem_of_np_unique _ _)) in Htag.
    apply (tag_features_total _ _ _ positions); [done..|].
    apply list_elem_of_fmap in Htag as (r & -> & Hr).
    intros Hnil. by eapply (filter_nil_not_elem_of _ _ r) in Hnil.
  - rewrite Hloop. by eexists.
Qed.

(** The rows that come out are the rows that went in, each with its
    statistics attached. *)
Lemma sliding_window_features_Permutation (dbase : DataFrame FingerprintRow)
    (first_window_size window_size : Z) (out : DataFrame FeatureRow) :
  sliding_window_features dbase first_window_size window_size = Ok out ->
  fingerprint <$> rows out ≡ₚ rows dbase.
Proof.
  intros (_ & blocks & Hblocks & ->)%sliding_window_features_blocks.
  rewrite merge_sort_Permutation.
  rewrite <-(group_by_key_Permutation TagID (np_unique (TagID <$> rows dbase)) (rows dbase)).
  - apply reflexive_eq. clear -Hblocks.
    induction Hblocks as [|tag blk tags blocks Hblk _ IH]; [done |].
    simpl. rewrite fmap_app, IH. f_equal.
    by apply tag_features_lookup in Hblk as (_ & _ & _ & _ & Hfp & _).
  - apply NoDup_np_unique.
  - intros r Hr. apply elem_of_np_unique, list_elem_of_fmap. by exists r.
Qed.

Lemma filter_fmap_comm {A B : Type} (f : A -> B) (P : B -> Prop)
    `{!∀ y, Decision (P y)} (l : list A) :
  f <$> filter (fun x => P (f x)) l = filter P (f <$> l).
Proof.
  induction l as [|x l IH]; [done |].
  rewrite fmap_cons, !filter_cons.
  destruct (decide (P (f x))); [rewrite fmap_cons|]; by rewrite IH.
Qed.

(** Row by row: under the preconditions every row of the tag comes back
    with the statistics of its [row_window]. *)
Lemma tag_features_rows (first_window_size window_size : Z) (cols : list string)
    (positions : list nat) (df_tag : list FingerprintRow) :
  columns_resolve cols positions -> 1 ≤ first_window_size -> 1 ≤ window_size ->
  df_tag ≠ [] ->
  ∃ out,
    tag_features first_window_size window_size cols df_tag = Ok out
    ∧ length out = length df_tag
    ∧ ∀ i r, df_tag !! i = Some r ->
        ∃ s, out !! i = Some {| fingerprint := r; stats := s |}
             ∧ window_stats (length cols + length cols)
                 (base_values positions
                    <$> row_window first_window_size window_size df_tag i)
               = Ok s.
Proof.
  intros Hpos Hw0 Hw Hrows.
  destruct (tag_features_total _ _ _ _ _ Hpos Hw0 Hw Hrows) as [out Hout].
  exists out. split; [done |].
  destruct (tag_features_lookup _ _ _ _ _ Hout) as (pos' & Hpos' & _ & _ & Hfp & Hstats).
  assert (pos' = positions) as -> by (unfold columns_resolve in *; congruence).
  split; [by rewrite <-Hfp, length_fmap |].
  intros i r Hr. rewrite <-Hfp, list_lookup_fmap in Hr.
  destruct (out !! i) as [[fp s]|] eqn:Hi; simplify_eq/=.
  exists s. split; [done |]. by apply (Hstats i _ Hi).
Qed.

(* ===================================================================== *)
(** ** The window feature extractor *)
(* ===================================================================== *)

(** C1, as amended.  For every row of a tag and every base column: when
    some row of the window that feeds the row's statistics has an unset
    cell in the column, then the mean, minimum, maximum and standard
    deviation of that column are all unset for the row.  Unset cells
    propagate, they are not left out; a window that is entirely unset
    for a column is a special case, and no number is invented. *)
Theorem unset_cell_gives_unset_statistics (first_window_size window_size : Z)
    (cols : list string) (positions : list nat) (df_tag : list FingerprintRow) :
  columns_resolve cols positions -> 1 ≤ first_window_size -> 1 ≤ window_size ->
  df_tag ≠ [] ->
  ∃ out,
    tag_features first_window_size window_size cols df_tag = Ok out
    ∧ ∀ i fr j,
        out !! i = Some fr -> (j < length cols + length cols)%nat ->
        (∃ v, v ∈ np.column j
                    (base_values positions
                       <$> row_window first_window_size window_size df_tag i)
              ∧ is_nan v = true) ->
        avg (stats fr) !! j = Some nan
        ∧ min (stats fr) !! j = Some nan
        ∧ max (stats fr) !! j = Some nan
        ∧ stddev (stats fr) !! j = Some nan.
Proof.
  intros Hpos Hw0 Hw Hrows.
  destruct (tag_features_rows _ _ _ _ _ Hpos Hw0 Hw Hrows) as (out & Hout & Hlen & Hrow).
  exists out. split; [done |]. intros i fr j Hi Hj (v & Hv & Hnan).
  apply is_nan_eq in Hnan as ->.
  assert (is_Some (df_tag !! i)) as [r Hr].
  { apply lookup_lt_is_Some. rewrite <-Hlen. by eapply lookup_lt_Some. }
  destruct (Hrow i r Hr) as (s & Hi' & Hs). rewrite Hi in Hi'. injection Hi' as ->.
  simpl. destruct (window_stats_column _ _ _ j Hs Hj) as (-> & -> & -> & ->).
  by rewrite mean_has_nan, min_has_nan, max_has_nan, std_has_nan, around4_nan.
Qed.

Lemma unset_cell_gives_unset_statistics_witness :
  ∃ out,
    tag_features 2 2 (antennas gap_frame) (rows gap_frame) = Ok out
    ∧ ∀ i fr j,
        out !! i = Some fr -> (j < 2 + 2)%nat ->
        (∃ v, v ∈ np.column j
                    (base_values [0; 1]%nat <$> row_window 2 2 (rows gap_frame) i)
              ∧ is_nan v = true) ->
        avg (stats fr) !! j = Some nan
        ∧ min (stats fr) !! j = Some nan
        ∧ max (stats fr) !! j = Some nan
        ∧ stddev (stats fr) !! j = Some nan.
Proof.
  apply (unset_cell_gives_unset_statistics 2 2 (antennas gap_frame) [0; 1]%nat
           (rows gap_frame));
    [by vm_compute | lia | lia | by vm_compute].
Defined.

(** C1 as stated fails.  Two antennas, two time points, antenna 1
    misses the tag at the second one.  With both window sizes 2 the
    statistics of the two antenna-1 columns are unset for both rows,
    where leaving the unset row out would give -50 for the signal and 1
    for the read count. *)
Lemma unset_rows_are_not_excluded :
  (fun r => (rssi r, rc r)) <$> rows gap_frame
  = [ ([-50; -60], [1; 1]); ([nan; -60], [nan; 1]) ]%float
  ∧ (out ← sliding_window_features gap_frame 2 2; Ok (stats <$> rows out))
    = Ok [ {| avg := [nan; -60; nan; 1]; min := [nan; -60; nan; 1];
              max := [nan; -60; nan; 1]; stddev := [nan; 0; nan; 0] |};
           {| avg := [nan; -60; nan; 1]; min := [nan; -60; nan; 1];
              max := [nan; -60; nan; 1]; stddev := [nan; 0; nan; 0] |} ]%float
  ∧ np.around4 (unset_excluded np.mean [-50; nan]%float) = (-50)%float
  ∧ np.around4 (unset_excluded np.min [-50; nan]%float) = (-50)%float
  ∧ np.around4 (unset_excluded np.mean [1; nan]%float) = 1%float
  ∧ nan ≠ (-50)%float.
Proof.
  repeat (split; [by vm_compute |]).
  apply (bool_decide_unpack _). by vm_compute.
Qed.

(** C3, as amended.  Let a tag have [n] rows and let [m = min(W0, n)].
    Every row with index below [m] comes back with one and the same
    statistic vector [s], and for every base column the entries of [s]
    are NumPy's mean, minimum, maximum and population standard
    deviation of the column over the fixed block of rows [0 .. m-1],
    each rounded to four decimals.  The raw cells of a row stay its own:
    it is the statistic blocks of the feature vectors that coincide.
    For [n < W0] the block is the whole tag. *)
Theorem warm_up_rows_share_block_statistics (first_window_size window_size : Z)
    (cols : list string) (positions : list nat) (df_tag : list FingerprintRow) :
  columns_resolve cols positions -> 1 ≤ first_window_size -> 1 ≤ window_size ->
  df_tag ≠ [] ->
  let m := Z.to_nat (Z.min first_window_size (Z.of_nat (length df_tag))) in
  let block := base_values positions <$> take m df_tag in
  ∃ out s,
    tag_features first_window_size window_size cols df_tag = Ok out
    ∧ (∀ i r, (i < m)%nat -> df_tag !! i = Some r ->
         out !! i = Some {| fingerprint := r; stats := s |})
    ∧ (∀ j, (j < length cols + length cols)%nat ->
         avg s !! j = Some (np.around4 (np.mean (np.column j block)))
         ∧ min s !! j = Some (np.around4 (np.min (np.column j block)))
         ∧ max s !! j = Some (np.around4 (np.max (np.column j block)))
         ∧ stddev s !! j = Some (np.around4 (np.std (np.column j block))))
    ∧ (Z.of_nat (length df_tag) < first_window_size -> take m df_tag = df_tag).
Proof.
  intros Hpos Hw0 Hw Hrows m block.
  destruct (tag_features_rows _ _ _ _ _ Hpos Hw0 Hw Hrows) as (out & Hout & Hlen & Hrow).
  assert (block ≠ []) as Hne.
  { intros Hnil%(f_equal length). unfold block in Hnil.
    rewrite length_fmap, length_take in Hnil. simpl in Hnil.
    destruct df_tag; [done | simpl in *; lia]. }
  pose proof (window_stats_Ok (length cols + length cols) block Hne) as Hs.
  set (s := Build_Stats _ _ _ _) in Hs.
  exists out, s. split; [done |]. split; [|split].
  - intros i r Hi Hr. destruct (Hrow i r Hr) as (s' & Hi' & Hs').
    unfold row_window in Hs'.
    destruct (Z.ltb_spec (Z.of_nat i) first_window_size) as [_|Hge]; [|lia].
    fold m in Hs'. fold block in Hs'. rewrite Hs in Hs'. by injection Hs' as <-.
  - intros j Hj. by apply (window_stats_column _ _ _ _ Hs).
  - intros Hlt. apply take_ge. lia.
Qed.

Lemma warm_up_rows_share_block_statistics_witness :
  let df_tag := rows ten_rows_frame in
  let block := base_values [0%nat] <$> take 10 df_tag in
  ∃ out s,
    tag_features 10 10 ["1"%string] df_tag = Ok out
    ∧ (∀ i r, (i < 10)%nat -> df_tag !! i = Some r ->
         out !! i = Some {| fingerprint := r; stats := s |})
    ∧ (∀ j, (j < 1 + 1)%nat ->
         avg s !! j = Some (np.around4 (np.mean (np.column j block)))
         ∧ min s !! j = Some (np.around4 (np.min (np.column j block)))
         ∧ max s !! j = Some (np.around4 (np.max (np.column j block)))
         ∧ stddev s !! j = Some (np.around4 (np.std (np.column j block))))
    ∧ (Z.of_nat (length df_tag) < 10 -> take 10 df_tag = df_tag).
Proof.
  apply (warm_up_rows_share_block_statistics 10 10 ["1"%string] [0%nat]
           (rows ten_rows_frame));
    [reflexivity | lia | lia | discriminate].
Defined.

(** A warm-up block of ten rows, the default size.  Each of the ten
    rows gets the mean -53.2513 of the signal: NumPy adds the first
    eight cells of the column in eight lanes, combines the lanes in
    pairs and adds the last two cells, which gives the sum -532.5125
    and, over ten, a mean just below -53.25125; adding the ten cells
    one after the other gives a mean just above it, which rounds to
    -53.2512. *)
Example warm_up_block_of_ten_rows :
  let column := [-59.2081; -43.6752; -40.5559; -46.694; -68.065;
                 -42.8237; -56.2462; -44.9783; -64.6966; -65.5695]%float in
  (out ← sliding_window_features ten_rows_frame 10 10; Ok (stats <$> rows out))
  = Ok (replicate 10 {| avg := [-53.2513; 1]; min := [-68.065; 1];
                        max := [-40.5559; 1]; stddev := [10.0979; 0] |})%float
  ∧ np.mean column = (-53.251250000000006)%float
  ∧ (foldl PrimFloat.add 0 column / 10 = -53.251249999999992)%float
  ∧ np.around4 (foldl PrimFloat.add 0 column / 10)%float = (-53.2512)%float.
Proof. repeat split; by vm_compute. Qed.

(** C3 as stated fails.  Three rows with read counts 1, 1, 2 and both
    window sizes 3: all three rows are warm-up rows, yet the feature
    vectors of the first and the last row differ in their raw cells, and
    the [avg] entry of the read count is 1.3333, not the mean 4/3. *)
Lemma warm_up_feature_vectors_differ :
  (out ← sliding_window_features thirds_frame 3 3; Ok (feature_vector <$> rows out))
  = Ok [ [-50; 1; -50.3333; 1.3333; -51; 1; -50; 2; 0.4714; 0.4714];
         [-50; 1; -50.3333; 1.3333; -51; 1; -50; 2; 0.4714; 0.4714];
         [-51; 2; -50.3333; 1.3333; -51; 1; -50; 2; 0.4714; 0.4714] ]%float
  ∧ [-50; 1; -50.3333; 1.3333; -51; 1; -50; 2; 0.4714; 0.4714]%float
    ≠ [-51; 2; -50.3333; 1.3333; -51; 1; -50; 2; 0.4714; 0.4714]%float
  ∧ 1.3333%float ≠ np.mean [1; 1; 2]%float.
Proof.
  split; [by vm_compute |].
  split; apply (bool_decide_unpack _); by vm_compute.
Qed.

(** C4, as amended.  For every row index [i] with [W0 <= i <= n-1] and
    every base column, the statistics of the row are NumPy's mean,
    minimum, maximum and population standard deviation of the column
    over the rows [max(0, i-W+1) .. i], each rounded to four decimals. *)
Theorem sliding_rows_have_trailing_statistics (first_window_size window_size : Z)
    (cols : list string) (positions : list nat) (df_tag : list FingerprintRow) :
  columns_resolve cols positions -> 1 ≤ first_window_size -> 1 ≤ window_size ->
  df_tag ≠ [] ->
  ∃ out,
    tag_features first_window_size window_size cols df_tag = Ok out
    ∧ ∀ i r, first_window_size ≤ Z.of_nat i -> df_tag !! i = Some r ->
        let beg := Z.to_nat (Z.max 0 (Z.of_nat i - window_size + 1)) in
        let window := base_values positions <$> take (i + 1 - beg) (drop beg df_tag) in
        ∃ s,
          out !! i = Some {| fingerprint := r; stats := s |}
          ∧ ∀ j, (j < length cols + length cols)%nat ->
              avg s !! j = Some (np.around4 (np.mean (np.column j window)))
              ∧ min s !! j = Some (np.around4 (np.min (np.column j window)))
              ∧ max s !! j = Some (np.around4 (np.max (np.column j window)))
              ∧ stddev s !! j = Some (np.around4 (np.std (np.column j window))).
Proof.
  intros Hpos Hw0 Hw Hrows.
  destruct (tag_features_rows _ _ _ _ _ Hpos Hw0 Hw Hrows) as (out & Hout & Hlen & Hrow).
  exists out. split; [done |]. intros i r Hi Hr beg window.
  destruct (Hrow i r Hr) as (s & Hi' & Hs). exists s. split; [done |].
  intros j Hj. apply (window_stats_column (length cols + length cols)); [|done].
  unfold row_window in Hs.
  destruct (Z.ltb_spec (Z.of_nat i) first_window_size) as [Hlt|_]; [lia |].
  simpl in Hs. unfold window, beg.
  by replace (Z.to_nat (Z.max 0 (Z.of_nat i - window_size + 1)))
    with (i + 1 - Z.to_nat window_size)%nat by lia.
Qed.

Lemma sliding_rows_have_trailing_statistics_witness :
  let df_tag := rows ten_rows_frame in
  ∃ out,
    tag_features 1 10 ["1"%string] df_tag = Ok out
    ∧ ∀ i r, 1 ≤ Z.of_nat i -> df_tag !! i = Some r ->
        let beg := Z.to_nat (Z.max 0 (Z.of_nat i - 10 + 1)) in
        let window := base_values [0%nat] <$> take (i + 1 - beg) (drop beg df_tag) in
        ∃ s,
          out !! i = Some {| fingerprint := r; stats := s |}
          ∧ ∀ j, (j < 1 + 1)%nat ->
              avg s !! j = Some (np.around4 (np.mean (np.column j window)))
              ∧ min s !! j = Some (np.around4 (np.min (np.column j window)))
              ∧ max s !! j = Some (np.around4 (np.max (np.column j window)))
              ∧ stddev s !! j = Some (np.around4 (np.std (np.column j window))).
Proof.
  apply (sliding_rows_have_trailing_statistics 1 10 ["1"%string] [0%nat]
           (rows ten_rows_frame));
    [reflexivity | lia | lia | discriminate].
Defined.

(** C4 as stated fails.  Ten rows, warm-up size 1 and window size 10:
    the last row is a sliding row whose window is all ten rows, the
    row before it one whose window is the first nine.  The [avg] and
    [stddev] entries of the last row for the signal are -53.2513 and
    10.0979; the mean and the standard deviation recomputed over the
    window are -53.251250000000006 and 10.097930330840079.  The same
    holds on a window of three rows with read counts 1, 1, 2. *)
Lemma sliding_statistics_are_rounded :
  let column := [-59.2081; -43.6752; -40.5559; -46.694; -68.065;
                 -42.8237; -56.2462; -44.9783; -64.6966; -65.5695]%float in
  (out ← sliding_window_features ten_rows_frame 1 10;
   Ok (stats <$> drop 8 (rows out)))
  = Ok [ {| avg := [-51.8826; 1]; min := [-68.065; 1];
            max := [-40.5559; 1]; stddev := [9.7244; 0] |};
         {| avg := [-53.2513; 1]; min := [-68.065; 1];
            max := [-40.5559; 1]; stddev := [10.0979; 0] |} ]%float
  ∧ (-53.2513)%float ≠ np.mean column
  ∧ 10.0979%float ≠ np.std column
  ∧ (out ← sliding_window_features thirds_frame 1 3; Ok (stats <$> rows out !! 2%nat))
    = Ok (Some {| avg := [-50.3333; 1.3333]; min := [-51; 1];
                  max := [-50; 2]; stddev := [0.4714; 0.4714] |})%float
  ∧ 1.3333%float ≠ np.mean [1; 1; 2]%float
  ∧ 0.4714%float ≠ np.std [1; 1; 2]%float.
Proof.
  split; [by vm_compute |].
  split; [apply (bool_decide_unpack _); by vm_compute |].
  split; [apply (bool_decide_unpack _); by vm_compute |].
  split; [by vm_compute |].
  split; apply (bool_decide_unpack _); by vm_compute.
Qed.

(** C5.  With positive window sizes, on a frame whose antenna columns
    are the ones the function selects, [sliding_window_features]
    returns a frame, and for every tag that frame has as many rows of
    the tag as the input has: the returned rows are the input rows, in
    some order, each with its statistics attached. *)
Theorem extractor_preserves_row_count_per_tag (dbase : DataFrame FingerprintRow)
    (first_window_size window_size : Z) (positions : list nat) :
  columns_resolve (antennas dbase) positions ->
  1 ≤ first_window_size -> 1 ≤ window_size ->
  ∃ out,
    sliding_window_features dbase first_window_size window_size = Ok out
    ∧ fingerprint <$> rows out ≡ₚ rows dbase
    ∧ ∀ tag,
        length (filter (fun r => TagID (fingerprint r) = tag) (rows out))
        = length (filter (fun r => TagID r = tag) (rows dbase)).
Proof.
  intros Hpos Hw0 Hw.
  destruct (sliding_window_features_total _ _ _ _ Hpos Hw0 Hw) as [out Hout].
  exists out. split; [done |].
  pose proof (sliding_window_features_Permutation _ _ _ _ Hout) as Hperm.
  split; [done |]. intros tag.
  rewrite <-Hperm, <-(filter_fmap_comm fingerprint (fun r => TagID r = tag)).
  by rewrite length_fmap.
Qed.

Lemma extractor_preserves_row_count_per_tag_witness :
  let dbase := load_data_from_db fixture in
  ∃ out,
    sliding_window_features dbase 2 2 = Ok out
    ∧ fingerprint <$> rows out ≡ₚ rows dbase
    ∧ ∀ tag,
        length (filter (fun r => TagID (fingerprint r) = tag) (rows out))
        = length (filter (fun r => TagID r = tag) (rows dbase)).
Proof.
  apply (extractor_preserves_row_count_per_tag (load_data_from_db fixture) 2 2 [0; 1]%nat);
    [by vm_compute | lia | lia].
Defined.

(** C6.  Under the same preconditions the rows of the returned frame are
    in ascending order of timestamp, rows with equal timestamps in
    ascending order of tag id. *)
Theorem extractor_output_sorted_by_read_then_TagID (dbase : DataFrame FingerprintRow)
    (first_window_size window_size : Z) (positions : list nat) :
  columns_resolve (antennas dbase) positions ->
  1 ≤ first_window_size -> 1 ≤ window_size ->
  ∃ out,
    sliding_window_features dbase first_window_size window_size = Ok out
    ∧ StronglySorted by_read_TagID (rows out).
Proof.
  intros Hpos Hw0 Hw.
  destruct (sliding_window_features_total _ _ _ _ Hpos Hw0 Hw) as [out Hout].
  exists out. split; [done |].
  apply sliding_window_features_blocks in Hout as (_ & blocks & _ & ->).
  apply StronglySorted_merge_sort; apply _.
Qed.

Lemma extractor_output_sorted_by_read_then_TagID_witness :
  ∃ out,
    sliding_window_features (load_data_from_db fixture) 2 2 = Ok out
    ∧ StronglySorted by_read_TagID (rows out).
Proof.
  apply (extractor_output_sorted_by_read_then_TagID (load_data_from_db fixture) 2 2 [0; 1]%nat);
    [by vm_compute | lia | lia].
Defined.

(* ===================================================================== *)
(** ** The trainer *)
(* ===================================================================== *)


Lemma comprehension_total_strong {A B : Type} (f : A -> Result B) (Q : A -> B -> Prop)
    (l : list A) :
  Forall (fun x => ∃ y, f x = Ok y ∧ Q x y) l ->
  ∃ out, comprehension f l = Ok out ∧ Forall2 Q l out.
Proof.
  induction 1 as [|x l (y & Hy & HQ) _ (ys & Hys & HQs)]; simpl.
  - exists []. by split.
  - exists (y :: ys). rewrite Hy. bind_ok. rewrite Hys. split; [done | by constructor].
Qed.

(** When every element either succeeds or raises [e], and one raises,
    the comprehension raises [e]. *)
Lemma comprehension_Raise_uniform {A B : Type} (f : A -> Result B) (e : PyError)
    (l : list A) :
  Forall (fun x => (∃ y, f x = Ok y) ∨ f x = Raise e) l ->
  Exists (fun x => f x = Raise e) l ->
  comprehension f l = Raise e.
Proof.
  induction 1 as [|x l Hx Hl IH]; [by inversion 1 |].
  intros Hex. simpl. destruct Hx as [[y Hy]|Hx]; [|by rewrite Hx].
  rewrite Hy. bind_ok. rewrite IH; [done |].
  inversion Hex; [congruence | done].
Qed.

(** The first element that raises decides the exception. *)
Lemma comprehension_Raise_first {A B : Type} (f : A -> Result B) (e : PyError)
    (l : list A) (i : nat) (x : A) :
  l !! i = Some x -> f x = Raise e ->
  (∀ j y, (j < i)%nat -> l !! j = Some y -> ∃ b, f y = Ok b) ->
  comprehension f l = Raise e.
Proof.
  revert i. induction l as [|z l IH]; intros i Hi Hx Hbefore; [done |].
  destruct i as [|i]; simpl in *.
  - injection Hi as ->. by rewrite Hx.
  - destruct (Hbefore 0%nat z) as [b Hb]; [lia | done |].
    rewrite Hb. bind_ok. rewrite (IH i); [done | done | done |].
    intros j y Hj Hy. apply (Hbefore (S j) y); [lia | done].
Qed.

Lemma frame_row_lookup (r : FeatureRow) (j : nat) (v : value) :
  frame_row r !! j = Some v ->
  ((j < length (feature_vector r))%nat ∧ ∃ f, feature_vector r !! j = Some f ∧ v = VFloat f)
  ∨ (j = length (feature_vector r) ∧ v = VStr (TagID (fingerprint r)))
  ∨ (j = S (length (feature_vector r)) ∧ v = VTime (read (fingerprint r)))
  ∨ ((S (length (feature_vector r)) < j)%nat
     ∧ (v = coordinate_cell (true_x (fingerprint r))
        ∨ v = coordinate_cell (true_y (fingerprint r)))).
Proof.
  unfold frame_row. intros Hv.
  apply lookup_app_Some in Hv as [Hv|[Hle Hv]].
  - left. apply list_lookup_fmap_Some in Hv as (f & -> & Hf).
    split; [by apply lookup_lt_Some in Hf | by exists f].
  - right. rewrite length_fmap in Hle, Hv.
    destruct (j - length (feature_vector r))%nat as [|[|[|[|k]]]] eqn:Hj;
      simpl in Hv; [| | | |done]; injection Hv as <-.
    + left. split; [lia | done].
    + right. left. split; [lia | done].
    + right. right. split; [lia | by left].
    + right. right. split; [lia | by right].
Qed.

Lemma py_prefix_frame_row (num_features : Z) (r : FeatureRow) :
  Z.of_nat (length (feature_vector r)) ≤ num_features ->
  py_prefix num_features (frame_row r)
  = (VFloat <$> feature_vector r)
      ++ take (Z.to_nat num_features - length (feature_vector r))
           [VStr (TagID (fingerprint r)); VTime (read (fingerprint r));
            coordinate_cell (true_x (fingerprint r));
            coordinate_cell (true_y (fingerprint r))].
Proof.
  intros Hle. unfold py_prefix, frame_row.
  destruct (Z.ltb_spec num_features 0) as [|_]; [lia |].
  rewrite take_app_ge; rewrite length_fmap; [done | lia].
Qed.

Lemma frame_row_length (r : FeatureRow) :
  length (frame_row r) = (length (feature_vector r) + 4)%nat.
Proof. unfold frame_row. by rewrite length_app, length_fmap. Qed.

Lemma py_prefix_lookup {A : Type} (k : Z) (l : list A) (j : nat) :
  0 ≤ k -> py_prefix k l !! j = if decide (j < Z.to_nat k)%nat then l !! j else None.
Proof.
  intros Hk. unfold py_prefix. destruct (Z.ltb_spec k 0) as [|_]; [lia |].
  destruct (decide _); [by apply lookup_take_lt | by apply lookup_take_ge; lia].
Qed.

Lemma nonempty_elem_of {A : Type} (l : list A) : l ≠ [] -> ∃ x, x ∈ l.
Proof. destruct l as [|x l]; [done |]. intros _. exists x. by left. Qed.

Section fit.

Context `{sklearn.Forest}.

Import sklearn.

Lemma n_features_uniform (X : list (list value)) (w : nat) :
  X ≠ [] -> (∀ row, row ∈ X -> length row = w) -> n_features X = w.
Proof. destruct X as [|row X]; [done |]. intros _ Hw. apply Hw. by left. Qed.

Lemma elem_of_columns (X : list (list value)) (col : list value) (v : value) :
  col ∈ columns X -> v ∈ col -> ∃ row, row ∈ X ∧ v ∈ row.
Proof.
  unfold columns. intros (j & -> & _)%list_elem_of_fmap Hv.
  apply list_elem_of_omap in Hv as (row & Hrow & Hv).
  exists row. split; [done |]. by eapply list_elem_of_lookup_2.
Qed.

(** When every cell can be converted the array is converted, cell by
    cell. *)
Lemma asarray32_Ok (X : list (list value)) :
  (∀ row v, row ∈ X -> v ∈ row -> ∃ f, as_float32 v = Ok f) ->
  ∃ X32, asarray32 X = Ok X32
         ∧ Forall2 (Forall2 (fun v f => as_float32 v = Ok f)) X X32.
Proof.
  intros Hcells. unfold asarray32.
  destruct (comprehension_total (comprehension as_float32) (columns X)) as [cols ->].
  { apply Forall_forall. intros col Hcol. apply comprehension_total, Forall_forall.
    intros v Hv. destruct (elem_of_columns X col v Hcol Hv) as (row & Hrow & Hin).
    by apply (Hcells row). }
  bind_ok.
  destruct (comprehension_total_strong (comprehension as_float32)
              (Forall2 (fun v f => as_float32 v = Ok f)) X) as (X32 & -> & HX32).
  { apply Forall_forall. intros row Hrow.
    destruct (comprehension_total as_float32 row) as [out Hout].
    - apply Forall_forall. intros v Hv. by apply (Hcells row).
    - exists out. split; [done | by apply comprehension_Ok]. }
  by exists X32.
Qed.

(** The conversion fails with the exception of the first column, from
    the left, that has a cell which cannot be converted, when the
    cells of that column agree on the exception. *)
Lemma asarray32_Raise (X : list (list value)) (e : PyError) (j0 : nat) :
  (j0 < n_features X)%nat ->
  (∀ j row v, (j < j0)%nat -> row ∈ X -> row !! j = Some v -> ∃ f, as_float32 v = Ok f) ->
  (∀ row v, row ∈ X -> row !! j0 = Some v ->
     (∃ f, as_float32 v = Ok f) ∨ as_float32 v = Raise e) ->
  (∃ row v, row ∈ X ∧ row !! j0 = Some v ∧ as_float32 v = Raise e) ->
  asarray32 X = Raise e.
Proof.
  intros Hj0 Hbefore Hat (row & v & Hrow & Hv & He). unfold asarray32.
  rewrite (comprehension_Raise_first (comprehension as_float32) e (columns X) j0
             (omap (fun row => row !! j0) X)); [done | | |].
  - unfold columns. rewrite list_lookup_fmap, lookup_seq_lt by done. done.
  - apply comprehension_Raise_uniform.
    + apply Forall_forall. intros v' (row' & Hrow' & Hv')%list_elem_of_omap.
      by apply (Hat row').
    + apply Exists_exists. exists v. split; [|done].
      apply list_elem_of_omap. by exists row.
  - intros j col Hj Hcol. unfold columns in Hcol.
    apply list_lookup_fmap_Some in Hcol as (j' & -> & Hj').
    apply lookup_seq in Hj' as [-> _]. simpl.
    apply comprehension_total, Forall_forall.
    intros v' (row' & Hrow' & Hv')%list_elem_of_omap.
    by apply (Hbefore j row').
Qed.

(** Once the cells are converted, [fit] returns or raises
    ValueError. *)
Lemma fit_cases (X : list (list value)) (y : list (option float)) :
  (∀ row v, row ∈ X -> v ∈ row -> ∃ f, as_float32 v = Ok f) ->
  (∃ reg, fit X y = Ok reg ∧ n_features_in reg = n_features X)
  ∨ fit X y = Raise ValueError.
Proof.
  intros Hcells. unfold fit.
  destruct (asarray32_Ok X Hcells) as (X32 & -> & _). bind_ok.
  destruct (bool_decide (X = [])); [by right |].
  destruct (n_features X =? 0)%nat; [by right |].
  destruct (negb (forallb _ y)); [by right |].
  destruct (negb (length y =? length X)%nat); [by right |].
  destruct (existsb _ X32); [by right |].
  left. by eexists.
Qed.

Lemma fit_refused (X : list (list value)) (y : list (option float)) :
  (∀ row v, row ∈ X -> v ∈ row -> ∃ f, as_float32 v = Ok f) ->
  forallb (label_ok y) y = false ->
  fit X y = Raise ValueError.
Proof.
  intros Hcells Hy. unfold fit.
  destruct (asarray32_Ok X Hcells) as (X32 & -> & _). bind_ok.
  destruct (bool_decide (X = [])); [done |].
  destruct (n_features X =? 0)%nat; [done |].
  by rewrite Hy.
Qed.

Lemma fit_overflow (X : list (list value)) (y : list (option float)) :
  (∀ row v, row ∈ X -> v ∈ row -> ∃ f, as_float32 v = Ok f) ->
  (∃ row v, row ∈ X ∧ v ∈ row ∧ ∃ f, as_float32 v = Ok f ∧ is_infinity f = true) ->
  fit X y = Raise ValueError.
Proof.
  intros Hcells (row & v & Hrow & Hv & f & Hf & Hinf). unfold fit.
  destruct (asarray32_Ok X Hcells) as (X32 & -> & HX32). bind_ok.
  destruct (bool_decide (X = [])); [done |].
  destruct (n_features X =? 0)%nat; [done |].
  destruct (negb (forallb _ y)); [done |].
  destruct (negb (length y =? length X)%nat); [done |].
  assert (existsb (existsb is_infinity) X32 = true) as ->; [|done].
  apply list_elem_of_lookup_1 in Hrow as [i Hi].
  destruct (Forall2_lookup_l _ _ _ _ _ HX32 Hi) as (row32 & Hi32 & Hrow32).
  apply list_elem_of_lookup_1 in Hv as [k Hk].
  destruct (Forall2_lookup_l _ _ _ _ _ Hrow32 Hk) as (f' & Hk32 & Hf').
  assert (f' = f) as -> by congruence.
  apply existsb_exists. exists row32.
  split; [by eapply list_elem_of_In, list_elem_of_lookup_2 |].
  apply existsb_exists. exists f.
  split; [by eapply list_elem_of_In, list_elem_of_lookup_2 | done].
Qed.

Lemma fit_Ok (X : list (list value)) (y : list (option float)) :
  (∀ row v, row ∈ X -> v ∈ row -> ∃ f, as_float32 v = Ok f ∧ is_infinity f = false) ->
  X ≠ [] -> n_features X ≠ 0%nat ->
  forallb (label_ok y) y = true -> length y = length X ->
  ∃ reg, fit X y = Ok reg ∧ n_features_in reg = n_features X.
Proof.
  intros Hcells Hrows Hcols Hy Hlen. unfold fit.
  destruct (asarray32_Ok X) as (X32 & -> & HX32).
  { intros row v Hrow Hv. destruct (Hcells row v Hrow Hv) as (f & Hf & _). by exists f. }
  bind_ok.
  rewrite bool_decide_eq_false_2 by done.
  destruct (Nat.eqb_spec (n_features X) 0) as [|_]; [done |].
  rewrite Hy, Hlen, Nat.eqb_refl. cbn [negb].
  assert (existsb (existsb is_infinity) X32 = false) as ->; [|by eexists].
  apply not_true_is_false. intros (row32 & Hrow32 & Hex)%existsb_exists.
  apply existsb_exists in Hex as (f & Hf & Hinf).
  apply list_elem_of_In, list_elem_of_lookup_1 in Hrow32 as [i Hi32].
  destruct (Forall2_lookup_r _ _ _ _ _ HX32 Hi32) as (row & Hi & Hrow).
  apply list_elem_of_In, list_elem_of_lookup_1 in Hf as [k Hk32].
  destruct (Forall2_lookup_r _ _ _ _ _ Hrow Hk32) as (v & Hk & Hv).
  destruct (Hcells row v) as (f' & Hf' & Hfin);
    [by eapply list_elem_of_lookup_2 | by eapply list_elem_of_lookup_2 |].
  congruence.
Qed.

(** An input without columns is refused. *)
Lemma fit_no_features (n : nat) (y : list (option float)) :
  fit (replicate n []) y = Raise ValueError.
Proof.
  unfold fit, asarray32.
  assert (columns (replicate n []) = []) as -> by (unfold columns; by destruct n).
  bind_ok.
  assert (comprehension (comprehension as_float32) (replicate n [])
          = Ok (replicate n [])) as ->.
  { induction n as [|n IH]; [done |]. simpl. by rewrite IH. }
  bind_ok. destruct (bool_decide _); [done |]. by destruct n.
Qed.

Lemma label_ok_accepted (y : list (option float)) :
  (∀ c, c ∈ y -> c = None ∨ ∃ v, c = Some v ∧ is_finite v = true) ->
  forallb (label_ok y) y = true.
Proof.
  intros Hy. apply forallb_forall. intros c Hc%list_elem_of_In.
  destruct (Hy c Hc) as [->|(v & -> & Hv)]; [done |]. unfold label_ok.
  destruct (forallb _ y); [done |].
  unfold is_finite in Hv. by destruct (is_nan v).
Qed.

Lemma label_ok_refused (y : list (option float)) :
  (∃ v, Some v ∈ y ∧ is_nan v = true)
  ∨ ((None ∉ y) ∧ ∃ v, Some v ∈ y ∧ is_finite v = false) ->
  forallb (label_ok y) y = false.
Proof.
  intros Hy. apply not_true_is_false. intros Hall.
  rewrite forallb_forall in Hall.
  destruct Hy as [(v & Hv & Hnan)|(Hnone & v & Hv & Hinf)].
  - apply list_elem_of_In, Hall in Hv. unfold label_ok in Hv.
    rewrite (is_finite_nan v Hnan), Hnan in Hv. by destruct (forallb _ y).
  - apply list_elem_of_In, Hall in Hv. unfold label_ok in Hv.
    assert (forallb (fun c' => bool_decide (c' ≠ None)) y = true) as Hfloat.
    { apply forallb_forall. intros c Hc%list_elem_of_In.
      apply bool_decide_eq_true_2. by intros ->. }
    rewrite Hfloat in Hv. congruence.
Qed.

End fit.

Section trainer.

Context `{sklearn.Forest}.

Import sklearn.

Variables (landmarc : list FeatureRow) (num_features : Z) (L : nat).

Hypothesis uniform : ∀ r, r ∈ landmarc -> length (feature_vector r) = L.

Hypothesis non_negative : 0 ≤ num_features.

(** A cell of the regressor input is a cell of a row of the frame,
    within the first [num_features] columns. *)
Lemma iloc_prefix_cell (row : list value) (j : nat) (v : value) :
  row ∈ iloc_prefix num_features landmarc -> row !! j = Some v ->
  ∃ r, r ∈ landmarc ∧ (j < Z.to_nat num_features)%nat ∧ frame_row r !! j = Some v.
Proof.
  unfold iloc_prefix. intros (r & -> & Hr)%list_elem_of_fmap Hv.
  rewrite py_prefix_lookup in Hv by done.
  destruct (decide _); [|done]. by exists r.
Qed.

Lemma iloc_prefix_n_features :
  landmarc ≠ [] ->
  n_features (iloc_prefix num_features landmarc) = Nat.min (Z.to_nat num_features) (L + 4).
Proof.
  intros Hne. apply n_features_uniform.
  - by intros ?%fmap_nil_inv.
  - unfold iloc_prefix. intros row (r & -> & Hr)%list_elem_of_fmap.
    unfold py_prefix. destruct (Z.ltb_spec num_features 0) as [|_]; [lia |].
    by rewrite length_take, frame_row_length, uniform.
Qed.

(** The columns before the key columns hold floats. *)
Lemma feature_cell (row : list value) (j : nat) (v : value) :
  (j < L)%nat -> row ∈ iloc_prefix num_features landmarc -> row !! j = Some v ->
  ∃ r f, r ∈ landmarc ∧ feature_vector r !! j = Some f ∧ v = VFloat f.
Proof.
  intros Hj Hrow Hv. destruct (iloc_prefix_cell row j v Hrow Hv) as (r & Hr & _ & Hcell).
  apply frame_row_lookup in Hcell. rewrite (uniform r Hr) in Hcell.
  destruct Hcell as [(_ & f & Hf & ->)|[[? _]|[[? _]|[? _]]]]; [by exists r, f | lia..].
Qed.

Lemma feature_cells_convert (row : list value) (j : nat) (v : value) :
  (j < L)%nat -> row ∈ iloc_prefix num_features landmarc -> row !! j = Some v ->
  ∃ f, as_float32 v = Ok f.
Proof.
  intros Hj Hrow Hv. destruct (feature_cell row j v Hj Hrow Hv) as (r & f & _ & _ & ->).
  by eexists.
Qed.

Lemma TagID_cell (row : list value) (v : value) :
  row ∈ iloc_prefix num_features landmarc -> row !! L = Some v ->
  ∃ r, r ∈ landmarc ∧ v = VStr (TagID (fingerprint r)).
Proof.
  intros Hrow Hv. destruct (iloc_prefix_cell row L v Hrow Hv) as (r & Hr & _ & Hcell).
  apply frame_row_lookup in Hcell. rewrite (uniform r Hr) in Hcell.
  destruct Hcell as [(? & _)|[[_ ->]|[[? _]|[? _]]]]; [lia | by exists r | lia..].
Qed.

Lemma read_cell (row : list value) (v : value) :
  row ∈ iloc_prefix num_features landmarc -> row !! S L = Some v ->
  ∃ t, v = VTime t.
Proof.
  intros Hrow Hv. destruct (iloc_prefix_cell row (S L) v Hrow Hv) as (r & Hr & _ & Hcell).
  apply frame_row_lookup in Hcell. rewrite (uniform r Hr) in Hcell.
  destruct Hcell as [(? & _)|[[? _]|[[_ ->]|[? _]]]]; [lia | lia | by eexists | lia].
Qed.

(** A row of the frame has a cell in each of the first
    [num_features] columns, up to its width. *)
Lemma iloc_prefix_has_cell (r : FeatureRow) (j : nat) (v : value) :
  r ∈ landmarc -> (j < Z.to_nat num_features)%nat -> frame_row r !! j = Some v ->
  ∃ row, row ∈ iloc_prefix num_features landmarc ∧ row !! j = Some v.
Proof.
  intros Hr Hj Hv. exists (py_prefix num_features (frame_row r)). split.
  - unfold iloc_prefix. apply list_elem_of_fmap. by exists r.
  - rewrite py_prefix_lookup by done. by rewrite decide_True.
Qed.

Lemma frame_row_TagID (r : FeatureRow) :
  r ∈ landmarc -> frame_row r !! L = Some (VStr (TagID (fingerprint r))).
Proof.
  intros Hr. unfold frame_row. rewrite lookup_app_r; rewrite length_fmap, (uniform r Hr);
    [|done]. by rewrite Nat.sub_diag.
Qed.

Lemma frame_row_read (r : FeatureRow) :
  r ∈ landmarc -> frame_row r !! S L = Some (VTime (read (fingerprint r))).
Proof.
  intros Hr. unfold frame_row. rewrite lookup_app_r; rewrite length_fmap, (uniform r Hr);
    [|lia]. by replace (S L - L)%nat with 1%nat by lia.
Qed.

(** With [num_features] above [L] the tag id is a cell of the input:
    an id that [float] does not read fails the conversion. *)
Lemma asarray32_TagID :
  Z.of_nat L < num_features ->
  (∃ r, r ∈ landmarc ∧ py_float (TagID (fingerprint r)) = None) ->
  asarray32 (iloc_prefix num_features landmarc) = Raise ValueError.
Proof.
  intros Hnum (r & Hr & Hid).
  assert (landmarc ≠ []) as Hne by (intros Hnil; rewrite Hnil in Hr; by inversion Hr).
  apply (asarray32_Raise _ ValueError L).
  - rewrite iloc_prefix_n_features by done. lia.
  - intros j row v Hj. by apply feature_cells_convert.
  - intros row v Hrow Hv. destruct (TagID_cell row v Hrow Hv) as (r' & _ & ->).
    cbn [as_float32].
    destruct (py_float (TagID (fingerprint r'))); [left; by eexists | by right].
  - destruct (iloc_prefix_has_cell r L (VStr (TagID (fingerprint r))) Hr)
      as (row & Hrow & Hv); [lia | by apply frame_row_TagID |].
    exists row, (VStr (TagID (fingerprint r))). split; [done |]. split; [done |].
    cbn [as_float32]. by rewrite Hid.
Qed.

(** With [num_features] above [L + 1] the timestamp is a cell of the
    input as well: when every tag id reads as a number, the
    timestamp fails the conversion. *)
Lemma asarray32_read :
  landmarc ≠ [] -> Z.of_nat L + 1 < num_features ->
  (∀ r, r ∈ landmarc -> py_float (TagID (fingerprint r)) ≠ None) ->
  asarray32 (iloc_prefix num_features landmarc) = Raise TypeError.
Proof.
  intros Hne Hnum Hids.
  apply (asarray32_Raise _ TypeError (S L)).
  - rewrite iloc_prefix_n_features by done. lia.
  - intros j row v Hj Hrow Hv. destruct (decide (j = L)) as [->|Hjl].
    + destruct (TagID_cell row v Hrow Hv) as (r & Hr & ->). cbn [as_float32].
      destruct (py_float _) eqn:Hid; [by eexists | by destruct (Hids r Hr)].
    + apply (feature_cells_convert row j v); [lia | done | done].
  - intros row v Hrow Hv. destruct (read_cell row v Hrow Hv) as [t ->]. by right.
  - destruct (nonempty_elem_of landmarc Hne) as [r Hr].
    destruct (iloc_prefix_has_cell r (S L) (VTime (read (fingerprint r))) Hr)
      as (row & Hrow & Hv); [lia | by apply frame_row_read |].
    by exists row, (VTime (read (fingerprint r))).
Qed.

End trainer.

(** C2, as amended.  [train_rf_models] checks nothing itself; what
    fails is what [RandomForestRegressor.fit] refuses.  Let every
    reference row have a feature vector of length L.
    - Without a reference row the call raises ValueError, and so it
      does with [num_features = 0].
    - With [0 < num_features <= L] and a reference row: the call raises
      ValueError when a true coordinate of a reference row is [nan], or
      infinite in a column of floats, and when a feature cell is beyond
      the range of float32; it returns two models fitted on
      [num_features] columns when every true coordinate of the
      reference rows is a finite number or [None] and the feature cells
      are in the range of float32.  [None] coordinates, which the frame
      holds when no tag of the tag table has coordinates, are accepted.
    - A [num_features] above L is not refused as such: the slice runs
      on into the columns TagID, read, true_x, true_y.  The call raises
      ValueError when the id of a reference row does not read as a
      number, TypeError when all ids do and the timestamp column is
      reached, and returns two models fitted on L + 1 columns, the tag
      id among them, when [num_features = L + 1] and the ids read as
      numbers in the range of float32. *)
Theorem train_rf_models_fails_where_fit_refuses `{sklearn.Forest}
    (feature_df : DataFrame FeatureRow) (reference_tags : list string) (num_features : Z)
    (L : nat) :
  let landmarc :=
    filter (fun r => TagID (fingerprint r) ∈ reference_tags) (rows feature_df) in
  let yx := (fun r => true_x (fingerprint r)) <$> landmarc in
  let yy := (fun r => true_y (fingerprint r)) <$> landmarc in
  let accepted (y : list (option float)) :=
    ∀ c, c ∈ y -> c = None ∨ ∃ v, c = Some v ∧ is_finite v = true in
  let refused (y : list (option float)) :=
    (∃ v, Some v ∈ y ∧ is_nan v = true)
    ∨ ((None ∉ y) ∧ ∃ v, Some v ∈ y ∧ is_finite v = false) in
  let in_range :=
    ∀ r v, r ∈ landmarc -> v ∈ feature_vector r -> is_infinity (np.float32 v) = false in
  let call := train_rf_models feature_df reference_tags num_features in
  let fitted :=
    ∃ regX regY, call = Ok (regX, regY)
                 ∧ sklearn.n_features_in regX = Z.to_nat num_features
                 ∧ sklearn.n_features_in regY = Z.to_nat num_features in
  (∀ r, r ∈ landmarc -> length (feature_vector r) = L) ->
  (landmarc = [] -> call = Raise ValueError)
  ∧ (num_features = 0 -> call = Raise ValueError)
  ∧ (landmarc ≠ [] -> 0 < num_features ≤ Z.of_nat L ->
       (refused yx ∨ refused yy -> call = Raise ValueError)
       ∧ ((∃ r j v, r ∈ landmarc ∧ (j < Z.to_nat num_features)%nat
                    ∧ feature_vector r !! j = Some v
                    ∧ is_infinity (np.float32 v) = true) ->
          call = Raise ValueError)
       ∧ (accepted yx -> accepted yy -> in_range -> fitted))
  ∧ (landmarc ≠ [] -> Z.of_nat L < num_features ->
       ((∃ r, r ∈ landmarc ∧ py_float (TagID (fingerprint r)) = None) ->
          call = Raise ValueError)
       ∧ ((∀ r, r ∈ landmarc -> py_float (TagID (fingerprint r)) ≠ None) ->
          Z.of_nat L + 1 < num_features -> call = Raise TypeError)
       ∧ ((∀ r, r ∈ landmarc ->
             ∃ f, py_float (TagID (fingerprint r)) = Some f
                  ∧ is_infinity (np.float32 f) = false) ->
          num_features = Z.of_nat L + 1 -> accepted yx -> accepted yy -> in_range -> fitted)).
Proof.
  intros landmarc yx yy accepted refused in_range call fitted Huniform.
  unfold fitted, call, train_rf_models. fold landmarc. fold yx. fold yy.
  set (X := iloc_prefix num_features landmarc).
  assert (Hfitted :
    (∀ row v, row ∈ X -> v ∈ row ->
       ∃ f, sklearn.as_float32 v = Ok f ∧ is_infinity f = false) ->
    landmarc ≠ [] -> 0 < num_features ≤ Z.of_nat L + 4 -> accepted yx -> accepted yy ->
    ∃ regX regY,
      (regX ← sklearn.fit X yx; regY ← sklearn.fit X yy; Ok (regX, regY)) = Ok (regX, regY)
      ∧ sklearn.n_features_in regX = Z.to_nat num_features
      ∧ sklearn.n_features_in regY = Z.to_nat num_features).
  { intros Hcells Hne Hnum Hyx Hyy.
    assert (sklearn.n_features X = Z.to_nat num_features) as Hn.
    { unfold X. rewrite (iloc_prefix_n_features landmarc num_features L) by (done || lia).
      lia. }
    assert (X ≠ []) as HX by (unfold X, iloc_prefix; by intros ?%fmap_nil_inv).
    assert (length yx = length X ∧ length yy = length X) as [Hlx Hly].
    { unfold yx, yy, X, iloc_prefix. by rewrite !length_fmap. }
    destruct (fit_Ok X yx Hcells HX) as (regX & HregX & HnX);
      [rewrite Hn; lia | by apply label_ok_accepted | done |].
    destruct (fit_Ok X yy Hcells HX) as (regY & HregY & HnY);
      [rewrite Hn; lia | by apply label_ok_accepted | done |].
    exists regX, regY. rewrite HregX. bind_ok. rewrite HregY. bind_ok.
    by rewrite HnX, HnY, Hn. }
  assert (Hfloats : 0 < num_features ≤ Z.of_nat L ->
    ∀ row v, row ∈ X -> v ∈ row ->
      ∃ r f, r ∈ landmarc ∧ f ∈ feature_vector r ∧ v = VFloat f).
  { intros Hnum row v Hrow [j Hj]%list_elem_of_lookup_1.
    destruct (iloc_prefix_cell landmarc num_features ltac:(lia) row j v Hrow Hj)
      as (_ & _ & Hlt & _).
    destruct (feature_cell landmarc num_features L Huniform ltac:(lia) row j v)
      as (r & f & Hr & Hf & ->); [lia | done | done |].
    exists r, f. split; [done |]. split; [by eapply list_elem_of_lookup_2 | done]. }
  split; [|split; [|split]].
  - intros Hnil. unfold X. by rewrite Hnil.
  - intros ->. assert (X = replicate (length landmarc) []) as ->.
    { unfold X, iloc_prefix. clear. induction landmarc as [|r l IH]; [done |].
      by rewrite fmap_cons, IH. }
    by rewrite (fit_no_features _ yx).
  - intros Hne Hnum.
    assert (∀ row v, row ∈ X -> v ∈ row -> ∃ f, sklearn.as_float32 v = Ok f) as Hcells.
    { intros row v Hrow Hv. destruct (Hfloats Hnum row v Hrow Hv) as (r & f & _ & _ & ->).
      by eexists. }
    split; [|split].
    + intros [Hx|Hy].
      * by rewrite (fit_refused X yx Hcells (label_ok_refused yx Hx)).
      * destruct (fit_cases X yx Hcells) as [(regX & -> & _)| ->]; [bind_ok | done].
        by rewrite (fit_refused X yy Hcells (label_ok_refused yy Hy)).
    + intros (r & j & v & Hr & Hj & Hv & Hinf).
      rewrite (fit_overflow X yx Hcells); [done |].
      exists (py_prefix num_features (frame_row r)), (VFloat v).
      split; [unfold X, iloc_prefix; apply list_elem_of_fmap; by exists r |].
      split; [|by exists (np.float32 v)].
      apply (list_elem_of_lookup_2 _ j). rewrite py_prefix_lookup by lia.
      rewrite decide_True by done. unfold frame_row.
      rewrite lookup_app_l by (rewrite length_fmap; by apply lookup_lt_Some in Hv).
      by rewrite list_lookup_fmap, Hv.
    + intros Hyx Hyy Hrange. apply Hfitted; [|done | lia | done | done].
      intros row v Hrow Hv. destruct (Hfloats Hnum row v Hrow Hv) as (r & f & Hr & Hf & ->).
      exists (np.float32 f). split; [done | by apply (Hrange r)].
  - intros Hne Hnum. split; [|split].
    + intros Hid. unfold sklearn.fit, X.
      by rewrite (asarray32_TagID landmarc num_features L Huniform) by (lia || done).
    + intros Hids Hread. unfold sklearn.fit, X.
      by rewrite (asarray32_read landmarc num_features L Huniform) by (lia || done).
    + intros Hids -> Hyx Hyy Hrange. apply Hfitted; [|done | lia | done | done].
      intros row v Hrow [j Hj]%list_elem_of_lookup_1.
      destruct (iloc_prefix_cell landmarc (Z.of_nat L + 1) ltac:(lia) row j v Hrow Hj)
        as (_ & _ & Hlt & _).
      destruct (decide (j = L)) as [->|Hjl].
      * destruct (TagID_cell landmarc (Z.of_nat L + 1) L Huniform ltac:(lia) row v)
          as (r & Hr & ->); [done | done |].
        destruct (Hids r Hr) as (f & Hf & Hfin). exists (np.float32 f).
        cbn [sklearn.as_float32]. by rewrite Hf.
      * destruct (feature_cell landmarc (Z.of_nat L + 1) L Huniform ltac:(lia) row j v)
          as (r & f & Hr & Hf & ->); [lia | done | done |].
        exists (np.float32 f). split; [done |].
        apply (Hrange r); [done | by eapply list_elem_of_lookup_2].
Qed.

Lemma train_rf_models_fails_where_fit_refuses_witness :
  ∃ regX regY,
    @train_rf_models MeanForest fixture_features (load_reference_tags fixture) 16
    = Ok (regX, regY)
    ∧ sklearn.n_features_in regX = 16%nat ∧ sklearn.n_features_in regY = 16%nat.
Proof.
  destruct (@train_rf_models_fails_where_fit_refuses MeanForest
              fixture_features (load_reference_tags fixture) 16 20)
    as (_ & _ & Hfit & _).
  - apply Forall_forall. vm_compute. repeat constructor.
  - destruct Hfit as (_ & _ & Hfit); [by vm_compute | lia |].
    apply Hfit.
    + apply Forall_forall. vm_compute.
      repeat (apply Forall_cons_2; [right; eexists; split; reflexivity |]).
      apply Forall_nil_2.
    + apply Forall_forall. vm_compute.
      repeat (apply Forall_cons_2; [right; eexists; split; reflexivity |]).
      apply Forall_nil_2.
    + intros r v Hr Hv.
      assert (forallb (fun r => forallb (fun v => negb (is_infinity (np.float32 v)))
                                  (feature_vector r))
                (filter (fun r => TagID (fingerprint r) ∈ load_reference_tags fixture)
                   (rows fixture_features)) = true) as Hall by (by vm_compute).
      rewrite forallb_forall in Hall. apply list_elem_of_In, Hall in Hr.
      rewrite forallb_forall in Hr. apply list_elem_of_In, Hr in Hv.
      by destruct (is_infinity _).
Defined.

(** C2 as stated fails, twice.  A tag with the id "1001" and one
    antenna, so L = 10: with [num_features = 11] the call returns two
    models fitted on eleven columns, the eleventh being the tag id.
    And a tag table in which no tag has coordinates: the reference rows
    hold [None] for both true coordinates, and the call returns two
    fitted models. *)
Lemma num_features_above_length_and_unset_labels_are_accepted :
  (f ← sliding_window_features numeric_id_frame 2 2;
   Ok (length ∘ feature_vector <$> rows f)) = Ok [10%nat; 10%nat]
  ∧ (f ← sliding_window_features numeric_id_frame 2 2;
     @train_rf_models MeanForest f ["1001"%string] 11)
    = Ok (@sklearn.Build_RandomForestRegressor MeanForest 11 0%float,
          @sklearn.Build_RandomForestRegressor MeanForest 11 0%float)
  ∧ (f ← sliding_window_features numeric_id_frame 2 2;
     Ok (iloc_prefix 11 (rows f) !! 0%nat))
    = Ok (Some [VFloat (-50); VFloat 1; VFloat (-50); VFloat 1; VFloat (-50);
                VFloat 1; VFloat (-50); VFloat 1; VFloat 0; VFloat 0;
                VStr "1001"])
  ∧ (fun r => (TagID r, true_x r, true_y r)) <$> rows (load_data_from_db uncharted_db)
    = [("T1"%string, None, None); ("T1"%string, None, None)]
  ∧ (f ← sliding_window_features (load_data_from_db uncharted_db) 2 2;
     @train_rf_models MeanForest f (load_reference_tags uncharted_db) 10)
    = Ok (@sklearn.Build_RandomForestRegressor MeanForest 10 nan,
          @sklearn.Build_RandomForestRegressor MeanForest 10 nan).
Proof. repeat split; by vm_compute. Qed.

(* ===================================================================== *)
(** ** The evaluator *)
(* ===================================================================== *)









(** Python's [round] and [np.around] differ: 0.12345 lies above the
    decimal 0.12345 and rounds to 0.1235, while [np.around] rounds
    1234.5 to the even 1234. *)
Example round_is_not_around :
  py_round4 0.12345 = 0.1235%float ∧ np.around4 0.12345 = 0.1234%float.
Proof. split; by vm_compute. Qed.

(* ===================================================================== *)
(** ** The tag model and the tag table *)
(* ===================================================================== *)

Section tags.

Import models db repository.

Lemma tag_check_invariant (row : Tag) : tag_check row = true <-> tag_invariant row.
Proof.
  unfold tag_check, tag_invariant.
  rewrite andb_true_iff, orb_true_iff, !andb_true_iff, !bool_decide_eq_true.
  rewrite elem_of_cons, list_elem_of_singleton.
  split.
  - intros [Hty [[[Href ?] ?]|Htar]]; (split; [done |]); [done |].
    intros Href. by rewrite Href in Htar.
  - intros [Hty Hpred]. split; [done |].
    destruct Hty as [Href|Htar]; [left | by right].
    by destruct (Hpred Href).
Qed.

Lemma post_init_Ok (t t' : Tag) : post_init t = Ok t' <-> t' = t ∧ tag_invariant t.
Proof.
  unfold post_init, tag_invariant.
  destruct (bool_decide (type t ∈ ["ref"; "tar"]%string)) eqn:Hty; simpl.
  2:{ apply bool_decide_eq_false in Hty. split; [done | by intros [_ [? _]]]. }
  apply bool_decide_eq_true in Hty.
  destruct (bool_decide (type t = "ref"%string)) eqn:Href; simpl.
  - apply bool_decide_eq_true in Href.
    destruct (bool_decide (pred_x t = None)) eqn:Hx; simpl;
      [apply bool_decide_eq_true in Hx | apply bool_decide_eq_false in Hx].
    + destruct (bool_decide (pred_y t = None)) eqn:Hy; simpl;
        [apply bool_decide_eq_true in Hy | apply bool_decide_eq_false in Hy].
      * split; [by intros [= <-] | by intros [-> _]].
      * split; [done |]. intros [_ [_ Hp]]. by destruct (Hp Href).
    + split; [done |]. intros [_ [_ Hp]]. by destruct (Hp Href).
  - apply bool_decide_eq_false in Href.
    split; [by intros [= <-] | by intros [-> _]].
Qed.

Lemma comprehension_tag_of_row (rows : list Tag) :
  Forall tag_invariant rows -> comprehension tag_of_row rows = Ok rows.
Proof.
  intros Hall. apply comprehension_Ok.
  induction Hall as [|row rows Hrow _ IH]; constructor; [|done].
  by apply post_init_Ok.
Qed.

(** C8, as amended.  Every tag the system accepts has role [ref] or
    [tar], and if its role is [ref] it carries no predicted
    coordinates; the constructor, the two writes and the two reads of
    the tag table keep this.  True coordinates are not required of a
    reference tag. *)
Theorem accepted_reference_tag_has_no_prediction (conn : Database) :
  db_invariant conn ->
  (∀ t t', post_init t = Ok t' -> t' = t ∧ tag_invariant t')
  ∧ (∀ t conn', insert_tag conn t = Ok conn' -> db_invariant conn')
  ∧ (∀ t conn', update_tag conn t = Ok conn' -> db_invariant conn')
  ∧ (∀ id t, get_tag_by_id conn id = Ok (Some t) -> tag_invariant t)
  ∧ (∀ tag_type ts, list_tags conn tag_type = Ok ts -> Forall tag_invariant ts).
Proof.
  unfold db_invariant. intros Hinv. split; [|split; [|split; [|split]]].
  - intros t t' Ht. by apply post_init_Ok in Ht as [-> ?].
  - intros t conn'. unfold insert_tag.
    destruct (tag_check (tag_row t)) eqn:Hcheck; [|done]. intros [= <-]. simpl.
    apply Forall_app. split.
    + apply Forall_forall. intros r [_ Hr]%list_elem_of_filter.
      by apply (proj1 (Forall_forall _ _) Hinv).
    + apply Forall_singleton. by apply tag_check_invariant.
  - intros t conn'. unfold update_tag.
    destruct (bool_decide (Exists _ (tag conn))) eqn:Hex.
    + destruct (tag_check (tag_row t)) eqn:Hcheck; [|done].
      intros [= <-]. apply Forall_fmap, Forall_forall. intros r Hr.
      cbv beta delta [compose].
      destruct (bool_decide (tag_id r = _)); [by apply tag_check_invariant |].
      by apply (proj1 (Forall_forall _ _) Hinv).
    + intros [= <-]. apply bool_decide_eq_false in Hex.
      apply Forall_fmap, Forall_forall. intros r Hr.
      cbv beta delta [compose].
      destruct (bool_decide (tag_id r = _)) eqn:Hid;
        [|by apply (proj1 (Forall_forall _ _) Hinv)].
      apply bool_decide_eq_true in Hid.
      exfalso. apply Hex, Exists_exists. by exists r.
  - intros id t. unfold get_tag_by_id.
    destruct (filter _ (tag conn)) as [|row rest] eqn:Hrows; [done |].
    intros Hget. apply bind_Ok in Hget as (t' & Ht' & [= <-]).
    by apply post_init_Ok in Ht' as [-> ?].
  - intros tag_type ts Hts. unfold list_tags in Hts.
    apply comprehension_Ok in Hts. clear Hinv.
    induction Hts as [|row t ?? Ht _ IH]; constructor; [|done].
    by apply post_init_Ok in Ht as [-> ?].
Qed.

Lemma accepted_reference_tag_has_no_prediction_witness :
  db_invariant {| tag := tag fixture ++ [bare_reference_tag]; record := record fixture |}.
Proof.
  destruct (accepted_reference_tag_has_no_prediction fixture) as (_ & Hins & _).
  - unfold db_invariant, tag_invariant. vm_compute. repeat constructor; discriminate.
  - apply (Hins bare_reference_tag). by vm_compute.
Defined.

(** C8 as stated fails.  A reference tag entered without true
    coordinates passes the constructor and is stored by
    [insert_tag]. *)
Lemma reference_tag_without_true_coordinates_is_accepted :
  post_init bare_reference_tag = Ok bare_reference_tag
  ∧ insert_tag initial bare_reference_tag
    = Ok {| tag := [bare_reference_tag]; record := [] |}
  ∧ type bare_reference_tag = "ref"%string
  ∧ true_x bare_reference_tag = None
  ∧ true_y bare_reference_tag = None.
Proof. repeat split; by vm_compute. Qed.

(** C10.  On a tag table whose rows satisfy the constraints of the
    schema, [list_tags] with a filter other than ['ref'] and ['tar'],
    or with no filter, returns every tag of the table and does not
    raise; with ['ref'] or ['tar'] it returns the tags of that type. *)
Theorem list_tags_filters_only_on_ref_and_tar (conn : Database)
    (tag_type : option string) :
  db_invariant conn ->
  (tag_type ≠ Some "ref"%string -> tag_type ≠ Some "tar"%string ->
     list_tags conn tag_type = Ok (tag conn))
  ∧ (tag_type = Some "ref"%string ∨ tag_type = Some "tar"%string ->
     list_tags conn tag_type
     = Ok (filter (fun t => Some (type t) = tag_type) (tag conn))).
Proof.
  intros Hinv. unfold list_tags. split.
  - intros Href Htar. rewrite bool_decide_eq_false_2.
    + by apply comprehension_tag_of_row.
    + rewrite elem_of_cons, list_elem_of_singleton. by intros [?|?].
  - intros Hty. rewrite bool_decide_eq_true_2.
    + apply comprehension_tag_of_row, Forall_forall.
      intros r [_ Hr]%list_elem_of_filter.
      by apply (proj1 (Forall_forall _ _) Hinv).
    + rewrite elem_of_cons, list_elem_of_singleton. by destruct Hty; [left | right].
Qed.

Lemma list_tags_filters_only_on_ref_and_tar_witness :
  list_tags fixture (Some "reference"%string) = Ok (tag fixture)
  ∧ list_tags fixture None = Ok (tag fixture)
  ∧ list_tags fixture (Some "ref"%string)
    = Ok (filter (fun t => Some (type t) = Some "ref"%string) (tag fixture)).
Proof.
  assert (db_invariant fixture) as Hinv.
  { unfold db_invariant, tag_invariant. vm_compute. repeat constructor; discriminate. }
  split; [|split].
  - by apply (list_tags_filters_only_on_ref_and_tar fixture (Some "reference"%string) Hinv).
  - by apply (list_tags_filters_only_on_ref_and_tar fixture None Hinv).
  - apply (list_tags_filters_only_on_ref_and_tar fixture (Some "ref"%string) Hinv).
    by left.
Defined.

End tags.

(* ===================================================================== *)
(** ** The fingerprint assembler *)
(* ===================================================================== *)

Lemma filter_all {A : Type} (P : A -> Prop) `{!∀ x, Decision (P x)} (l : list A) :
  Forall P l -> filter P l = l.
Proof.
  induction 1 as [|x l Hx _ IH]; [done |].
  by rewrite filter_cons_True, IH.
Qed.

Lemma elem_of_merge_left (tags : list models.Tag) (b fr : FingerprintRow) :
  fr ∈ merge_left tags b ->
  TagID fr = TagID b ∧ read fr = read b ∧ rssi fr = rssi b ∧ rc fr = rc b.
Proof.
  unfold merge_left. destruct (filter _ tags) as [|m ms].
  - by intros ->%list_elem_of_singleton.
  - by intros (t & -> & _)%list_elem_of_fmap.
Qed.

(** Facts of binary64 arithmetic the mean of a group rests on. *)
Section float_facts.

#[local] Open Scope float_scope.

Lemma is_nan_Prim2SF (x : float) : is_nan x = false <-> Prim2SF x ≠ S754_nan.
Proof.
  split.
  - intros Hx. unfold Prim2SF. rewrite Hx.
    destruct (is_zero x); [done |]. destruct (is_infinity x); [done |].
    destruct (Z.frexp x) as [r e]. destruct (shr_fexp _ _ _ _ _) as [shr e'].
    by destruct (shr_m shr).
  - intros Hx. destruct (is_nan x) eqn:Hnan; [|done].
    apply is_nan_eq in Hnan. by subst x.
Qed.

Lemma shr_1_nonneg (mrs : shr_record) : (0 ≤ shr_m mrs)%Z -> (0 ≤ shr_m (shr_1 mrs))%Z.
Proof. destruct mrs as [[|[p|p|]|p] r s]; simpl; lia. Qed.

Lemma iter_pos_shr_1_nonneg (p : positive) (mrs : shr_record) :
  (0 ≤ shr_m mrs)%Z -> (0 ≤ shr_m (SpecFloat.iter_pos shr_1 p mrs))%Z.
Proof.
  revert mrs. induction p as [p IH|p IH|]; intros mrs Hm; simpl.
  - by apply IH, IH, shr_1_nonneg.
  - by apply IH, IH.
  - by apply shr_1_nonneg.
Qed.

Lemma shr_fexp_nonneg (m e : Z) (l : location) :
  (0 ≤ m)%Z -> (0 ≤ shr_m (shr_fexp prec emax m e l).1)%Z.
Proof.
  intros Hm. unfold shr_fexp, shr.
  assert (0 ≤ shr_m (shr_record_of_loc m l))%Z by by destruct l as [|[]].
  destruct (_ - e)%Z; simpl; [done | | done].
  by apply iter_pos_shr_1_nonneg.
Qed.

Lemma binary_round_aux_not_nan (s : bool) (m e : Z) (l : location) :
  (0 ≤ m)%Z -> binary_round_aux prec emax s m e l ≠ S754_nan.
Proof.
  intros Hm. unfold binary_round_aux.
  pose proof (shr_fexp_nonneg m e l Hm) as H1.
  destruct (shr_fexp prec emax m e l) as [mrs' e']. simpl in H1.
  assert (0 ≤ round_nearest_even (shr_m mrs') (loc_of_shr_record mrs'))%Z as H2.
  { unfold round_nearest_even.
    destruct (loc_of_shr_record mrs') as [|[]]; [done | | done | lia].
    destruct (Z.even _); lia. }
  pose proof (shr_fexp_nonneg _ e' loc_Exact H2) as H3.
  destruct (shr_fexp prec emax _ e' loc_Exact) as [mrs'' e'']. simpl in H3.
  destruct (shr_m mrs''); [done | by destruct (_ <=? _)%Z | lia].
Qed.

Lemma of_uint63_not_nan (n : Uint63.int) : is_nan (of_uint63 n) = false.
Proof.
  apply is_nan_Prim2SF. rewrite of_uint63_spec. unfold binary_normalize.
  destruct (Uint63.to_Z n); [done | |];
    unfold binary_round; destruct (shl_align _ _ _);
    by apply binary_round_aux_not_nan.
Qed.

Lemma float_of_Z_not_nan (z : Z) : is_nan (float_of_Z z) = false.
Proof.
  unfold float_of_Z. destruct (z <? 0)%Z; [|apply of_uint63_not_nan].
  apply is_nan_Prim2SF. rewrite opp_spec.
  pose proof (proj1 (is_nan_Prim2SF _) (of_uint63_not_nan (Uint63.of_Z (- z)))) as Hn.
  by destruct (Prim2SF _).
Qed.

Lemma sub_zero_r (x : float) : x - 0 = x.
Proof.
  apply Prim2SF_inj. rewrite sub_spec.
  change (Prim2SF 0) with (S754_zero false).
  by destruct (Prim2SF x) as [[]|[]| |].
Qed.

(** The first step of the compensated sum leaves no compensation. *)
Lemma kahan_step_first (a : float) :
  is_nan a = false -> kahan_step (0, 0) a = (0 + a, 0).
Proof.
  intros Ha. unfold kahan_step. rewrite !sub_zero_r. f_equal.
  destruct (is_nan (0 + a - a)) eqn:Hc; [done |].
  apply is_nan_Prim2SF in Hc. apply is_nan_Prim2SF in Ha.
  apply Prim2SF_inj. revert Hc. rewrite sub_spec, add_spec.
  change (Prim2SF 0) with (S754_zero false).
  destruct (Prim2SF a) as [[]|[]| |s m e]; try done.
  cbn [SF64add SFadd SF64sub SFsub]. intros _.
  by rewrite Z.sub_diag.
Qed.

Lemma kahan_two (a b : float) :
  is_nan a = false -> (foldl kahan_step (0, 0) [a; b]).1 = 0 + a + b.
Proof.
  intros Ha. cbn [foldl]. rewrite (kahan_step_first a Ha).
  unfold kahan_step. cbn [fst]. by rewrite sub_zero_r.
Qed.

End float_facts.

Lemma elem_of_parse_dates (records : list models.Record_) (r : models.Record_) :
  r ∈ parse_dates records <->
  r ∈ records
  ∧ ∃ first, head records = Some first
      ∧ has_fraction (models.rec_read_time r) = has_fraction (models.rec_read_time first)
      ∧ in_bounds (models.rec_read_time r) = true.
Proof.
  unfold parse_dates. destruct records as [|first rest].
  - split; [by intros ?%elem_of_nil | by intros [?%elem_of_nil _]].
  - rewrite list_elem_of_filter. simpl. split.
    + intros [[Hf Hb] Hr]. split; [done |]. by exists first.
    + intros (Hr & first' & [= <-] & Hf & Hb). by split.
Qed.

(** C9.  Take a row of the assembled frame and an antenna column of it.
    The readings of the row's tag by that antenna at the row's
    timestamp, among the readings pandas could date, are the duplicates
    of one cell.  As the [record] table stores no null [rssi], the
    row's [rssi] cell for the antenna is the sum of the duplicates'
    [rssi] values, accumulated from zero with pandas' compensation,
    over their number, and its [rc] cell the like of their [rc] values.
    For two duplicates this is the binary64 sum of the two values over
    two. *)
Theorem duplicate_readings_are_averaged (conn : db.Database) (fr : FingerprintRow)
    (j : nat) (a : string) :
  let dbase := load_data_from_db conn in
  let duplicates :=
    filter (fun r => models.rec_tag_id r = TagID fr
                     ∧ models.rec_antenna_id r = a
                     ∧ models.rec_read_time r = read fr) (parse_dates (db.record conn)) in
  let compensated_sum (values : list float) :=
    (foldl kahan_step (0%float, 0%float) values).1 in
  let signals := models.rec_rssi <$> duplicates in
  let counts := (fun r => float_of_Z (models.rec_rc r)) <$> duplicates in
  fr ∈ rows dbase ->
  antennas dbase !! j = Some a ->
  Forall (fun v => is_nan v = false) signals ->
  rssi fr !! j
  = Some (compensated_sum signals / np.float_of_nat (length duplicates))%float
  ∧ rc fr !! j
    = Some (compensated_sum counts / np.float_of_nat (length duplicates))%float
  ∧ (∀ r1 r2, duplicates = [r1; r2] ->
       rssi fr !! j = Some ((0 + models.rec_rssi r1 + models.rec_rssi r2) / 2)%float
       ∧ rc fr !! j
         = Some ((0 + float_of_Z (models.rec_rc r1) + float_of_Z (models.rec_rc r2)) / 2)%float).
Proof.
  intros dbase duplicates compensated_sum signals counts Hfr Ha Hnan.
  unfold dbase, load_data_from_db in Hfr, Ha. simpl in Hfr, Ha.
  apply list_elem_of_bind in Hfr as (b & Hfr & Hb).
  apply elem_of_merge_left in Hfr as (Htag & Hread & -> & ->).
  apply list_elem_of_fmap in Hb as (key & -> & _). simpl in *.
  assert (cell_group (parse_dates (db.record conn)) key a = duplicates) as Hgroup.
  { unfold cell_group, duplicates. apply list_filter_iff. intros r.
    rewrite Htag, Hread. destruct key as [t time]. split.
    - intros [[= ? ?] ?]. by repeat split.
    - intros (? & ? & ?). split; [by f_equal | done]. }
  assert (group_mean signals
          = (compensated_sum signals / np.float_of_nat (length duplicates))%float)
    as rssi_cell.
  { unfold group_mean. rewrite (filter_all _ signals Hnan).
    unfold signals. by rewrite length_fmap. }
  assert (group_mean counts
          = (compensated_sum counts / np.float_of_nat (length duplicates))%float)
    as rc_cell.
  { unfold group_mean. rewrite (filter_all _ counts).
    - unfold counts. by rewrite length_fmap.
    - apply Forall_fmap, Forall_forall. intros r _. apply float_of_Z_not_nan. }
  rewrite !list_lookup_fmap, Ha. cbn [fmap option_fmap option_map]. rewrite Hgroup.
  fold signals. fold counts. rewrite rssi_cell, rc_cell.
  split; [done |]. split; [done |].
  intros r1 r2 Hdup. unfold compensated_sum, signals, counts. rewrite Hdup.
  rewrite !fmap_cons, fmap_nil.
  rewrite (kahan_two (models.rec_rssi r1)), (kahan_two (float_of_Z (models.rec_rc r1))).
  - done.
  - apply float_of_Z_not_nan.
  - unfold signals in Hnan. rewrite Hdup in Hnan. by inversion Hnan.
Qed.

Lemma duplicate_readings_are_averaged_witness :
  let fr := {| TagID := "T1"; read := 0; rssi := [(-55)%float; (-60)%float];
               rc := [2%float; 1%float]; true_x := Some 0%float; true_y := Some 0%float |} in
  rows (load_data_from_db fixture_with_duplicate) !! 0%nat = Some fr
  ∧ rssi fr !! 0%nat = Some ((0 + (-50) + (-60)) / 2)%float
  ∧ rc fr !! 0%nat = Some ((0 + 1 + 3) / 2)%float.
Proof.
  split; [by vm_compute |].
  destruct (duplicate_readings_are_averaged fixture_with_duplicate
              {| TagID := "T1"; read := 0; rssi := [(-55)%float; (-60)%float];
                 rc := [2%float; 1%float]; true_x := Some 0%float; true_y := Some 0%float |}
              0 "1") as (_ & _ & Htwo).
  - vm_compute. left.
  - by vm_compute.
  - vm_compute. repeat constructor.
  - apply (Htwo (fixture_reading "T1" "1" (-50) 0)
             {| models.rec_tag_id := "T1"; models.rec_antenna_id := "1";
                models.rec_rc := 3; models.rec_rssi := (-60)%float;
                models.rec_read_time := 0; models.record_id := None |}).
    by vm_compute.
Defined.

(** The duplicated cell of the sample: -50 and -60 give -55, the read
    counts 1 and 3 give 2. *)
Example duplicate_readings_sample :
  (fun fr => (TagID fr, read fr, rssi fr, rc fr))
    <$> rows (load_data_from_db fixture_with_duplicate) !! 0%nat
  = Some ("T1"%string, 0, [(-55)%float; (-60)%float], [2%float; 1%float]).
Proof. by vm_compute. Qed.

(** Three readings 0.1, 0.2 and 0.3 of one cell: the compensated sum is
    0.6 and the cell 0.19999999999999998, where the plain sum
    0.6000000000000001 would give 0.20000000000000004. *)
Example duplicate_readings_compensated :
  rssi <$> rows (load_data_from_db
                   {| db.tag := [];
                      db.record := [fixture_reading "T1" "1" 0.1 0;
                                    fixture_reading "T1" "1" 0.2 0;
                                    fixture_reading "T1" "1" 0.3 0] |})
  = [[0.19999999999999998%float]]
  ∧ ((0.1 + 0.2 + 0.3) / 3 = 0.20000000000000004)%float.
Proof. split; by vm_compute. Qed.

(* ===================================================================== *)
(** ** The repository on a connection with foreign keys *)
(* ===================================================================== *)

Section connection.

Import models db.

Lemma repository_insert_tag_Ok (conn conn' : Database) (t : Tag) :
  repository.insert_tag conn t = Ok conn' <->
  db.tag_check (repository.tag_row t) = true
  ∧ conn' = {| tag := filter (fun r => tag_id r ≠ tag_id t) (tag conn)
                        ++ [repository.tag_row t];
               record := record conn |}.
Proof.
  unfold repository.insert_tag.
  destruct (tag_check (repository.tag_row t)); split.
  - by intros [= <-].
  - by intros [_ ->].
  - done.
  - by intros [? _].
Qed.

Lemma has_tag_elem_of (conn : sqlite.Connection) (id : string) :
  sqlite.has_tag conn id <-> id ∈ tag_id <$> tag (sqlite.tables conn).
Proof.
  unfold sqlite.has_tag. rewrite Exists_exists, list_elem_of_fmap. split.
  - intros (t & Ht & <-). by exists t.
  - intros (t & -> & Ht). by exists t.
Qed.

Lemma has_antenna_elem_of (conn : sqlite.Connection) (id : string) :
  sqlite.has_antenna conn id <-> id ∈ sqlite.antenna_id <$> sqlite.antenna conn.
Proof.
  unfold sqlite.has_antenna. rewrite Exists_exists, list_elem_of_fmap. split.
  - intros (a & Ha & <-). by exists a.
  - intros (a & -> & Ha). by exists a.
Qed.

(** Looking a key up after the row with that key has been replaced
    by [row] at the end of the table. *)
Lemma filter_key_replaced {A K : Type} `{EqDecision K} (key : A -> K) (l : list A)
    (row : A) (k : K) :
  filter (fun r => key r = k) (filter (fun r => key r ≠ key row) l ++ [row])
  = if decide (k = key row) then [row]
    else filter (fun r => key r = k) l.
Proof.
  rewrite filter_app, list_filter_filter. destruct (decide (k = key row)) as [->|Hk].
  - rewrite (filter_cons_True _ row) by done. simpl.
    replace (filter _ l) with (@nil A); [done |].
    symmetry. induction l as [|a l IH]; [done |].
    rewrite filter_cons_False; [done | tauto].
  - rewrite (filter_cons_False _ row) by congruence.
    rewrite app_nil_r. apply list_filter_iff. intros r. split; [tauto |].
    intros <-. split; [done | congruence].
Qed.

(** With a primary key at most one row has a given key. *)
Lemma filter_key_NoDup {A K : Type} `{EqDecision K} (key : A -> K) (l : list A) (k : K) :
  NoDup (key <$> l) ->
  filter (fun x => key x = k) l = [] ∨ ∃ x, filter (fun x => key x = k) l = [x].
Proof.
  induction l as [|a l IH]; [by left |].
  rewrite fmap_cons, NoDup_cons. intros [Ha Hl]. rewrite filter_cons.
  destruct (decide (key a = k)) as [Hk|Hk]; [|by apply IH].
  right. exists a. f_equal.
  destruct (filter (fun x => key x = k) l) as [|b l'] eqn:Hf; [done |].
  assert (b ∈ filter (fun x => key x = k) l) as Hb by (rewrite Hf; by left).
  apply list_elem_of_filter in Hb as [Hkb Hb]. destruct Ha.
  apply list_elem_of_fmap. exists b. split; [congruence | done].
Qed.

Lemma filter_none {A : Type} (P : A -> Prop) `{!∀ x, Decision (P x)} (l : list A) :
  (∀ x, x ∈ l -> ¬ P x) -> filter P l = [].
Proof.
  induction l as [|a l IH]; [done |]. intros Hnot.
  rewrite filter_cons_False by (apply Hnot; by left).
  apply IH. intros x Hx. apply Hnot. by right.
Qed.

(** X1.  After [insert_tag] the tag is read back as the table stores it,
    that is with a not-a-number coordinate turned into [None], and
    hence as it was given when no coordinate is not-a-number; the
    other tags are read back as before. *)
Theorem insert_tag_then_get_tag_by_id (conn conn' : sqlite.Connection) (t : Tag) :
  sqlite.insert_tag conn t = Ok conn' ->
  repository.get_tag_by_id (sqlite.tables conn') (tag_id t)
  = Ok (Some (repository.tag_row t))
  ∧ (sql_real (true_x t) = true_x t -> sql_real (true_y t) = true_y t ->
     sql_real (pred_x t) = pred_x t -> sql_real (pred_y t) = pred_y t ->
     repository.tag_row t = t)
  ∧ ∀ id, id ≠ tag_id t ->
      repository.get_tag_by_id (sqlite.tables conn') id
      = repository.get_tag_by_id (sqlite.tables conn) id.
Proof.
  unfold sqlite.insert_tag. intros Hins.
  apply bind_Ok in Hins as (db' & Hdb & [= <-]).
  apply repository_insert_tag_Ok in Hdb as [Hcheck ->]. simpl.
  unfold repository.get_tag_by_id. simpl.
  split; [|split].
  - pose proof (filter_key_replaced tag_id (tag (sqlite.tables conn))
                  (repository.tag_row t) (tag_id t)) as Hf.
    change (tag_id (repository.tag_row t)) with (tag_id t) in Hf.
    rewrite Hf, decide_True by done.
    unfold repository.tag_of_row.
    by rewrite (proj2 (post_init_Ok _ _)) by (split; [done | by apply tag_check_invariant]).
  - intros Hx Hy Hpx Hpy. unfold repository.tag_row.
    rewrite Hx, Hy, Hpx, Hpy. by destruct t.
  - intros id Hid.
    pose proof (filter_key_replaced tag_id (tag (sqlite.tables conn))
                  (repository.tag_row t) id) as Hf.
    change (tag_id (repository.tag_row t)) with (tag_id t) in Hf.
    by rewrite Hf, decide_False by done.
Qed.

Lemma insert_tag_then_get_tag_by_id_witness :
  repository.get_tag_by_id
    (sqlite.tables
       {| sqlite.antenna := sqlite.antenna fixture_connection;
          sqlite.tables :=
            {| tag := [fixture_tag "T2" "tar" (Some 2%float);
                       fixture_tag "T1" "ref" (Some 7%float)];
               record := filter (fun r => rec_tag_id r ≠ "T1"%string)
                           (record (sqlite.tables fixture_connection)) |};
          sqlite.sequence := 12 |})
    "T1"
  = Ok (Some (repository.tag_row (fixture_tag "T1" "ref" (Some 7%float)))).
Proof.
  eassert (sqlite.insert_tag fixture_connection
             (fixture_tag "T1" "ref" (Some 7%float)) = Ok _) as Hins
    by (vm_compute; reflexivity).
  destruct (insert_tag_then_get_tag_by_id _ _ _ Hins) as [Hget _].
  exact Hget.
Defined.

(** X2.  Inserting a tag whose id is already in the table replaces the
    row, and the readings of that tag are deleted with the old row;
    the readings of the other tags stay.  Inserting a tag with a new
    id leaves the readings alone. *)
Theorem insert_tag_replacing_deletes_readings (conn conn' : sqlite.Connection)
    (t : Tag) :
  sqlite.insert_tag conn t = Ok conn' ->
  (sqlite.has_tag conn (tag_id t) ->
     sqlite.get_records_by_tag conn' (tag_id t) = []
     ∧ ∀ id, id ≠ tag_id t ->
         sqlite.get_records_by_tag conn' id = sqlite.get_records_by_tag conn id)
  ∧ (¬ sqlite.has_tag conn (tag_id t) ->
     record (sqlite.tables conn') = record (sqlite.tables conn)).
Proof.
  unfold sqlite.insert_tag. intros Hins.
  apply bind_Ok in Hins as (db' & Hdb & [= <-]).
  apply repository_insert_tag_Ok in Hdb as [Hcheck ->].
  unfold sqlite.get_records_by_tag. simpl. split.
  - intros Hhas. split.
    + rewrite list_filter_filter.
      induction (record (sqlite.tables conn)) as [|r l IH]; [done |].
      rewrite filter_cons_False; [done | tauto].
    + intros id Hid. rewrite list_filter_filter. apply list_filter_iff.
      intros r. split; [tauto |]. intros Hr. split; [done |].
      intros [_ Heq]. congruence.
  - intros Hnot. apply filter_all, Forall_forall. intros r _. tauto.
Qed.

Lemma insert_tag_replacing_deletes_readings_witness :
  sqlite.get_records_by_tag
    {| sqlite.antenna := sqlite.antenna fixture_connection;
       sqlite.tables :=
         {| tag := [fixture_tag "T2" "tar" (Some 2%float);
                    fixture_tag "T1" "ref" (Some 7%float)];
            record := filter (fun r => rec_tag_id r ≠ "T1"%string)
                        (record (sqlite.tables fixture_connection)) |};
       sqlite.sequence := 12 |}
    "T1" = [].
Proof.
  eassert (sqlite.insert_tag fixture_connection
             (fixture_tag "T1" "ref" (Some 7%float)) = Ok _) as Hins
    by (vm_compute; reflexivity).
  destruct (insert_tag_replacing_deletes_readings _ _ _ Hins) as [Hhas _].
  apply Hhas. apply (bool_decide_unpack _). by vm_compute.
Defined.

Lemma insert_record_Ok (conn conn' : sqlite.Connection) (r : Record_) (id : Z) :
  sqlite.insert_record conn r = Ok (conn', id) <->
  is_nan (rec_rssi r) = false
  ∧ sqlite.has_tag conn (rec_tag_id r) ∧ sqlite.has_antenna conn (rec_antenna_id r)
  ∧ id = sqlite.sequence conn + 1
  ∧ conn' = {| sqlite.antenna := sqlite.antenna conn;
               sqlite.tables :=
                 {| tag := tag (sqlite.tables conn);
                    record := record (sqlite.tables conn) ++ [sqlite.stored_row r id] |};
               sqlite.sequence := id |}.
Proof.
  unfold sqlite.insert_record.
  destruct (is_nan (rec_rssi r)); [split; [done | by intros [? _]] |].
  destruct (bool_decide _) eqn:Hfk.
  - apply bool_decide_eq_true in Hfk as [Ht Ha]. split.
    + by intros [= <- <-].
    + by intros (_ & _ & _ & -> & ->).
  - apply bool_decide_eq_false in Hfk. split; [done |].
    intros (_ & Ht & Ha & _). by destruct Hfk.
Qed.

Lemma insert_record_Raise (conn : sqlite.Connection) (r : Record_) :
  (is_nan (rec_rssi r) = true
   ∨ ¬ sqlite.has_tag conn (rec_tag_id r)
   ∨ ¬ sqlite.has_antenna conn (rec_antenna_id r)) <->
  sqlite.insert_record conn r = Raise IntegrityError.
Proof.
  unfold sqlite.insert_record.
  destruct (is_nan (rec_rssi r)); [split; [done | by left] |].
  destruct (bool_decide _) eqn:Hfk.
  - apply bool_decide_eq_true in Hfk as [Ht Ha].
    split; [by intros [?|[?|?]] | done].
  - apply bool_decide_eq_false in Hfk. split; [done |]. intros _. right.
    destruct (decide (sqlite.has_tag conn (rec_tag_id r))); [right | by left].
    intros Ha. by apply Hfk.
Qed.

(** X3.  [insert_record] raises IntegrityError exactly when the signal is
    not-a-number, the tag is not in the [tag] table or the antenna is
    not in the [antenna] table.  Otherwise it returns a [record_id]
    above the counter, which on a consistent connection no stored
    reading has, and [get_records_by_tag] then returns the earlier
    readings of the tag followed by the new one. *)
Theorem insert_record_then_get_records_by_tag (conn : sqlite.Connection) (r : Record_) :
  connection_invariant conn ->
  ((is_nan (rec_rssi r) = true
    ∨ ¬ sqlite.has_tag conn (rec_tag_id r)
    ∨ ¬ sqlite.has_antenna conn (rec_antenna_id r)) ->
   sqlite.insert_record conn r = Raise IntegrityError)
  ∧ (is_nan (rec_rssi r) = false -> sqlite.has_tag conn (rec_tag_id r) ->
     sqlite.has_antenna conn (rec_antenna_id r) ->
     ∃ conn' id,
       sqlite.insert_record conn r = Ok (conn', id)
       ∧ sqlite.sequence conn < id
       ∧ Forall (fun old => record_id old ≠ Some id) (record (sqlite.tables conn))
       ∧ sqlite.get_records_by_tag conn' (rec_tag_id r)
         = sqlite.get_records_by_tag conn (rec_tag_id r)
             ++ [sqlite.stored_row r id]).
Proof.
  intros Hinv. split; [by intros ?%insert_record_Raise |].
  intros Hnan Ht Ha. eexists _, (sqlite.sequence conn + 1).
  split; [by apply insert_record_Ok |]. split; [lia |]. split.
  - eapply Forall_impl; [apply (record_ids conn Hinv) |].
    intros old (id & -> & Hid) [= ->]. lia.
  - unfold sqlite.get_records_by_tag. simpl.
    by rewrite filter_app, (filter_cons_True _ (sqlite.stored_row r _)) by done.
Qed.

(** X4.  [insert_antenna] raises IntegrityError exactly when a coordinate
    is not-a-number or the antenna is in the table and some reading
    refers to it: an antenna with readings cannot be entered again.
    Otherwise the antenna is read back as given, the other antennas
    as before, and the tags and readings are untouched. *)
Theorem insert_antenna_refused_while_in_use (conn : sqlite.Connection)
    (a : sqlite.Antenna) :
  let refused :=
    is_nan (sqlite.x a) = true ∨ is_nan (sqlite.y a) = true
    ∨ (sqlite.has_antenna conn (sqlite.antenna_id a)
       ∧ sqlite.antenna_in_use conn (sqlite.antenna_id a)) in
  (refused -> sqlite.insert_antenna conn a = Raise IntegrityError)
  ∧ (¬ refused ->
     ∃ conn',
       sqlite.insert_antenna conn a = Ok conn'
       ∧ sqlite.get_antenna_by_id conn' (sqlite.antenna_id a) = Some a
       ∧ (∀ id, id ≠ sqlite.antenna_id a ->
            sqlite.get_antenna_by_id conn' id = sqlite.get_antenna_by_id conn id)
       ∧ sqlite.tables conn' = sqlite.tables conn
       ∧ sqlite.sequence conn' = sqlite.sequence conn).
Proof.
  intros refused. unfold refused, sqlite.insert_antenna.
  destruct (is_nan (sqlite.x a)) eqn:Hx; simpl; [split; [done | intros []; by left] |].
  destruct (is_nan (sqlite.y a)) eqn:Hy; simpl;
    [split; [done | intros []; by right; left] |].
  destruct (bool_decide _) eqn:Huse.
  - apply bool_decide_eq_true in Huse. split; [done | intros []; by right; right].
  - apply bool_decide_eq_false in Huse. split; [by intros [?|[?|?]] |].
    intros _. eexists. split; [done |]. unfold sqlite.get_antenna_by_id. simpl.
    split; [|split; [|done]].
    + by rewrite (filter_key_replaced sqlite.antenna_id), decide_True by done.
    + intros id Hid.
      by rewrite (filter_key_replaced sqlite.antenna_id), decide_False by done.
Qed.

Lemma insert_antenna_refused_while_in_use_witness :
  sqlite.insert_antenna fixture_connection
    {| sqlite.antenna_id := "1"; sqlite.x := 5; sqlite.y := 5 |}
  = Raise IntegrityError.
Proof.
  destruct (insert_antenna_refused_while_in_use fixture_connection
              {| sqlite.antenna_id := "1"; sqlite.x := 5; sqlite.y := 5 |})
    as [Href _].
  apply Href. right. right. split; apply (bool_decide_unpack _); by vm_compute.
Defined.

Lemma repository_update_tag_absent (conn : Database) (t : Tag) :
  ¬ Exists (fun r => tag_id r = tag_id t) (tag conn) ->
  repository.update_tag conn t = Ok conn.
Proof.
  intros Habs. unfold repository.update_tag.
  rewrite bool_decide_eq_false_2 by done. simpl. destruct conn as [tags recs].
  do 2 f_equal. simpl in *. rewrite <-(list_fmap_id tags) at 2.
  apply list_fmap_ext. intros i r Hr.
  rewrite bool_decide_eq_false_2; [done |].
  intros Hid. apply Habs, Exists_exists. exists r. split; [|done].
  by eapply list_elem_of_lookup_2.
Qed.

(** X5.  [update_tag] for an id that is not in the table changes nothing
    and does not raise, whatever the tag holds.  For an id that is in
    the table it raises IntegrityError when the new row breaks a
    constraint of the schema; otherwise the tag is read back as the
    table stores it and the other tags as before. *)
Theorem update_tag_of_absent_tag_changes_nothing (conn : sqlite.Connection) (t : Tag) :
  (¬ sqlite.has_tag conn (tag_id t) -> sqlite.update_tag conn t = Ok conn)
  ∧ (sqlite.has_tag conn (tag_id t) ->
     db.tag_check (repository.tag_row t) = false ->
     sqlite.update_tag conn t = Raise IntegrityError)
  ∧ (sqlite.has_tag conn (tag_id t) ->
     db.tag_check (repository.tag_row t) = true ->
     ∃ conn',
       sqlite.update_tag conn t = Ok conn'
       ∧ repository.get_tag_by_id (sqlite.tables conn') (tag_id t)
         = Ok (Some (repository.tag_row t))
       ∧ (∀ id, id ≠ tag_id t ->
            repository.get_tag_by_id (sqlite.tables conn') id
            = repository.get_tag_by_id (sqlite.tables conn) id)
       ∧ tag_id <$> tag (sqlite.tables conn') = tag_id <$> tag (sqlite.tables conn)
       ∧ record (sqlite.tables conn') = record (sqlite.tables conn)).
Proof.
  unfold sqlite.update_tag. split; [|split].
  - intros Habs. rewrite repository_update_tag_absent by done.
    by destruct conn.
  - intros Hhas Hcheck. unfold repository.update_tag.
    by rewrite bool_decide_eq_true_2, Hcheck by done.
  - intros Hhas Hcheck. unfold repository.update_tag.
    rewrite Hcheck, andb_false_r. eexists. split; [done |]. simpl.
    set (row := repository.tag_row t).
    set (upd := fun r : Tag => if bool_decide (tag_id r = tag_id row) then row else r).
    assert (∀ id, filter (fun r => tag_id r = id) (upd <$> tag (sqlite.tables conn))
                  = if decide (id = tag_id t)
                    then (fun _ => row)
                           <$> filter (fun r => tag_id r = id) (tag (sqlite.tables conn))
                    else filter (fun r => tag_id r = id) (tag (sqlite.tables conn)))
      as Hfilter.
    { intros id. assert (tag_id row = tag_id t) as Hrow by done.
      induction (tag (sqlite.tables conn)) as [|r l IH]; [by case_decide |].
      rewrite fmap_cons, !filter_cons, IH. clear IH. unfold upd.
      destruct (decide (tag_id r = tag_id t)) as [Hr|Hr].
      - rewrite !(bool_decide_eq_true_2 (tag_id r = tag_id row)) by (by rewrite Hrow).
        rewrite Hrow. destruct (decide (id = tag_id t)) as [->|Hid].
        + by rewrite !decide_True by done.
        + by rewrite !decide_False by congruence.
      - rewrite !(bool_decide_eq_false_2 (tag_id r = tag_id row)) by (by rewrite Hrow).
        destruct (decide (id = tag_id t)) as [->|Hid].
        + by rewrite !decide_False by done.
        + by destruct (decide (tag_id r = id)). }
    split; [|split; [|split; [|done]]].
    + unfold repository.get_tag_by_id. simpl. fold row. fold upd.
      rewrite Hfilter, decide_True by done.
      apply Exists_exists in Hhas as (r & Hr & Hid).
      destruct (filter _ (tag (sqlite.tables conn))) as [|r' l] eqn:Hf.
      { exfalso. eapply filter_nil_not_elem_of; [exact Hf | exact Hid | exact Hr]. }
      simpl. unfold repository.tag_of_row.
      by rewrite (proj2 (post_init_Ok _ _))
        by (split; [done | by apply tag_check_invariant]).
    + intros id Hid. unfold repository.get_tag_by_id. simpl. fold row. fold upd.
      by rewrite Hfilter, decide_False by done.
    + fold row. fold upd. rewrite <-list_fmap_compose. apply list_fmap_ext.
      intros i r _. simpl. unfold upd. by case_bool_decide.
Qed.

Lemma update_tag_of_absent_tag_changes_nothing_witness :
  sqlite.update_tag fixture_connection (fixture_tag "T7" "none" None)
  = Ok fixture_connection.
Proof.
  destruct (update_tag_of_absent_tag_changes_nothing fixture_connection
              (fixture_tag "T7" "none" None)) as [Habs _].
  apply Habs. apply (bool_decide_unpack _). by vm_compute.
Defined.

Lemma fixture_connection_invariant : connection_invariant fixture_connection.
Proof.
  split.
  - apply (bool_decide_unpack _). by vm_compute.
  - apply (bool_decide_unpack _). by vm_compute.
  - unfold db_invariant, tag_invariant. apply (bool_decide_unpack _). by vm_compute.
  - unfold sqlite.has_tag, sqlite.has_antenna. apply (bool_decide_unpack _). by vm_compute.
  - apply Forall_forall. intros r Hr.
    assert (record_id r ∈ (Some <$> [1; 2; 3; 4; 5; 6; 7; 8; 9; 10; 11; 12])) as Hid.
    { apply (list_elem_of_fmap_2 record_id) in Hr. revert Hr.
      by vm_compute. }
    apply list_elem_of_fmap in Hid as (id & -> & Hid). exists id. split; [done |].
    change (sqlite.sequence fixture_connection) with 12.
    repeat (apply elem_of_cons in Hid as [->|Hid]; [lia |]). by apply elem_of_nil in Hid.
  - apply (bool_decide_unpack _). by vm_compute.
  - by vm_compute.
Qed.

Lemma insert_record_then_get_records_by_tag_witness :
  ∃ conn' id,
    sqlite.insert_record fixture_connection (fixture_reading "T2" "1" (-70) 9)
    = Ok (conn', id)
    ∧ sqlite.sequence fixture_connection < id
    ∧ length (sqlite.get_records_by_tag conn' "T2") = 7%nat.
Proof.
  destruct (insert_record_then_get_records_by_tag fixture_connection
              (fixture_reading "T2" "1" (-70) 9) fixture_connection_invariant)
    as [_ Hok].
  destruct Hok as (conn' & id & Hins & Hid & _ & Hget);
    [by vm_compute | apply (bool_decide_unpack _); by vm_compute
     | apply (bool_decide_unpack _); by vm_compute |].
  exists conn', id. split; [done |]. split; [done |].
  change (rec_tag_id (fixture_reading "T2" "1" (-70) 9)) with "T2"%string in Hget.
  rewrite Hget, length_app. by vm_compute.
Defined.

(** *** What every write preserves *)

Lemma NoDup_fmap_filter {A B : Type} (f : A -> B) (P : A -> Prop)
    `{!∀ x, Decision (P x)} (l : list A) :
  NoDup (f <$> l) -> NoDup (f <$> filter P l).
Proof.
  induction l as [|a l IH]; [done |].
  rewrite fmap_cons, NoDup_cons. intros [Ha Hl]. rewrite filter_cons.
  destruct (decide (P a)); [|by apply IH].
  rewrite fmap_cons, NoDup_cons. split; [|by apply IH].
  intros (b & Hb & Hin)%list_elem_of_fmap. apply Ha.
  apply list_elem_of_fmap. exists b. split; [done |].
  by apply list_elem_of_filter in Hin as [_ ?].
Qed.

(** The keys of a table after the row with the key of [row] has been
    replaced by [row]. *)
Lemma NoDup_key_replaced {A K : Type} `{EqDecision K} (key : A -> K) (l : list A)
    (row : A) :
  NoDup (key <$> l) ->
  NoDup (key <$> (filter (fun r => key r ≠ key row) l ++ [row])).
Proof.
  intros Hnd. rewrite fmap_app. apply NoDup_app. split; [|split].
  - by apply NoDup_fmap_filter.
  - intros k (r & -> & [Hr _]%list_elem_of_filter)%list_elem_of_fmap.
    by intros Hin%list_elem_of_singleton.
  - apply NoDup_singleton.
Qed.

Lemma elem_of_key_replaced {A K : Type} `{EqDecision K} (key : A -> K) (l : list A)
    (row : A) (k : K) :
  k ∈ key <$> l -> k ∈ key <$> (filter (fun r => key r ≠ key row) l ++ [row]).
Proof.
  intros (r & -> & Hr)%list_elem_of_fmap. rewrite fmap_app, elem_of_app.
  destruct (decide (key r = key row)) as [Heq|Hne].
  - right. by apply list_elem_of_singleton.
  - left. apply list_elem_of_fmap. exists r. split; [done |].
    by apply list_elem_of_filter.
Qed.

Lemma insert_antenna_invariant (conn conn' : sqlite.Connection) (a : sqlite.Antenna) :
  connection_invariant conn -> sqlite.insert_antenna conn a = Ok conn' ->
  connection_invariant conn'.
Proof.
  intros [Hak Htk Htc Hrp Hri Hrk Hseq]. unfold sqlite.insert_antenna.
  destruct (is_nan (sqlite.x a) || is_nan (sqlite.y a)); [done |].
  destruct (bool_decide _); [done |]. intros [= <-].
  split; simpl; try done.
  - by apply NoDup_key_replaced.
  - eapply Forall_impl; [exact Hrp |]. intros r (Ht & Ha & Hnan).
    split; [done |]. split; [|done].
    apply has_antenna_elem_of. simpl.
    by apply elem_of_key_replaced, has_antenna_elem_of.
Qed.

Lemma sqlite_insert_tag_Ok (conn conn' : sqlite.Connection) (t : Tag) :
  sqlite.insert_tag conn t = Ok conn' ->
  db.tag_check (repository.tag_row t) = true
  ∧ conn' = {| sqlite.antenna := sqlite.antenna conn;
               sqlite.tables :=
                 {| tag := filter (fun r => tag_id r ≠ tag_id t) (tag (sqlite.tables conn))
                             ++ [repository.tag_row t];
                    record :=
                      filter (fun r => ¬ (sqlite.has_tag conn (tag_id t)
                                          ∧ rec_tag_id r = tag_id t))
                        (record (sqlite.tables conn)) |};
               sqlite.sequence := sqlite.sequence conn |}.
Proof.
  unfold sqlite.insert_tag. intros Hins.
  apply bind_Ok in Hins as (db' & Hdb & [= <-]).
  by apply repository_insert_tag_Ok in Hdb as [Hcheck ->].
Qed.

Lemma insert_tag_invariant (conn conn' : sqlite.Connection) (t : Tag) :
  connection_invariant conn -> sqlite.insert_tag conn t = Ok conn' ->
  connection_invariant conn'.
Proof.
  intros [Hak Htk Htc Hrp Hri Hrk Hseq] [Hcheck ->]%sqlite_insert_tag_Ok.
  split; simpl; try done.
  - by apply (NoDup_key_replaced tag_id _ (repository.tag_row t)).
  - apply Forall_app. split.
    + apply Forall_forall. intros r [_ Hr]%list_elem_of_filter.
      by apply (proj1 (Forall_forall _ _) Htc).
    + apply Forall_singleton. by apply tag_check_invariant.
  - apply Forall_forall. intros r [_ Hr]%list_elem_of_filter.
    destruct (proj1 (Forall_forall _ _) Hrp r Hr) as (Ht & Ha & Hnan).
    split; [|done]. apply has_tag_elem_of. simpl.
    by apply (elem_of_key_replaced tag_id _ (repository.tag_row t)), has_tag_elem_of.
  - apply Forall_forall. intros r [_ Hr]%list_elem_of_filter.
    by apply (proj1 (Forall_forall _ _) Hri).
  - by apply NoDup_fmap_filter.
Qed.

Lemma repository_update_tag_Ok (conn conn' : Database) (t : Tag) :
  repository.update_tag conn t = Ok conn' ->
  tag_id <$> tag conn' = tag_id <$> tag conn
  ∧ record conn' = record conn
  ∧ ∀ r', r' ∈ tag conn' ->
      (r' = repository.tag_row t ∧ db.tag_check (repository.tag_row t) = true)
      ∨ r' ∈ tag conn.
Proof.
  unfold repository.update_tag. intros Hupd.
  assert (conn' = {| tag := (fun r => if bool_decide (tag_id r = tag_id t)
                                      then repository.tag_row t else r) <$> tag conn;
                     record := record conn |}) as ->.
  { destruct (_ && _); [done | by injection Hupd as <-]. }
  simpl. split; [|split; [done |]].
  - rewrite <-list_fmap_compose. apply list_fmap_ext. intros i r _. simpl.
    by destruct (bool_decide (tag_id r = _)) eqn:Hr; [apply bool_decide_eq_true in Hr |].
  - intros r' (r & -> & Hr)%list_elem_of_fmap.
    destruct (bool_decide (tag_id r = _)) eqn:Hid; [left | by right].
    apply bool_decide_eq_true in Hid. split; [done |].
    destruct (db.tag_check (repository.tag_row t)); [done |].
    rewrite andb_true_r, bool_decide_eq_true_2 in Hupd; [done |].
    apply Exists_exists. by exists r.
Qed.

Lemma update_tag_invariant (conn conn' : sqlite.Connection) (t : Tag) :
  connection_invariant conn -> sqlite.update_tag conn t = Ok conn' ->
  connection_invariant conn'.
Proof.
  intros [Hak Htk Htc Hrp Hri Hrk Hseq]. unfold sqlite.update_tag. intros Hupd.
  apply bind_Ok in Hupd as (db' & Hdb & [= <-]).
  apply repository_update_tag_Ok in Hdb as (Hkeys & Hrecs & Hrows).
  split; simpl; try done.
  - by rewrite Hkeys.
  - apply Forall_forall. intros r' [[-> Hcheck]|Hr']%Hrows.
    + by apply tag_check_invariant.
    + by apply (proj1 (Forall_forall _ _) Htc).
  - rewrite Hrecs. eapply Forall_impl; [exact Hrp |]. intros r (Ht & Ha & Hnan).
    split; [|done]. apply has_tag_elem_of. simpl. rewrite Hkeys.
    by apply has_tag_elem_of.
  - by rewrite Hrecs.
  - by rewrite Hrecs.
Qed.

Lemma insert_record_invariant (conn conn' : sqlite.Connection) (r : Record_) (id : Z) :
  connection_invariant conn -> sqlite.insert_record conn r = Ok (conn', id) ->
  connection_invariant conn'.
Proof.
  intros [Hak Htk Htc Hrp Hri Hrk Hseq] (Hnan & Ht & Ha & -> & ->)%insert_record_Ok.
  split; simpl; try done.
  - apply Forall_app. split; [done |]. by apply Forall_singleton.
  - apply Forall_app. split.
    + eapply Forall_impl; [exact Hri |]. intros old (id & Hid & Hle).
      exists id. split; [done | lia].
    + apply Forall_singleton. eexists. split; [done | lia].
  - rewrite fmap_app. apply NoDup_app. split; [done |]. split; [|apply NoDup_singleton].
    intros k (old & -> & Hold)%list_elem_of_fmap Hin.
    apply list_elem_of_singleton in Hin. simpl in Hin.
    destruct (proj1 (Forall_forall _ _) Hri old Hold) as (id & Hid & Hle).
    rewrite Hid in Hin. injection Hin as ->. lia.
  - lia.
Qed.

Lemma insert_records_cons (conn : sqlite.Connection) (r : Record_) (rs : list Record_) :
  sqlite.insert_records conn (r :: rs)
  = p ← sqlite.insert_record conn r; sqlite.insert_records p.1 rs.
Proof.
  unfold sqlite.insert_records.
  change (for_loop ?body (r :: rs) conn) with (body conn r ≫= for_loop body rs).
  cbv beta. destruct (sqlite.insert_record conn r); reflexivity.
Qed.

Lemma insert_records_invariant (rs : list Record_) (conn conn' : sqlite.Connection) :
  connection_invariant conn -> sqlite.insert_records conn rs = Ok conn' ->
  connection_invariant conn'.
Proof.
  revert conn. induction rs as [|r rs IH]; intros conn Hinv.
  - by intros [= <-].
  - rewrite insert_records_cons. intros ([c id] & Hr & Hrest)%bind_Ok.
    eapply IH; [|exact Hrest]. by eapply insert_record_invariant.
Qed.

Lemma reset_all_Ok (conn : sqlite.Connection) :
  sqlite.reset_all conn
  = Ok {| sqlite.antenna := []; sqlite.tables := db.initial;
          sqlite.sequence := sqlite.sequence conn |}.
Proof. reflexivity. Qed.

(** X6.  A consistent connection stays consistent under every write of
    the repository and of the handlers: distinct keys, tags within
    the constraints, no reading without its tag and its antenna, no
    [record_id] above the counter.  The connection of a new database
    is consistent. *)
Theorem writes_keep_the_connection_consistent (conn : sqlite.Connection) :
  connection_invariant conn ->
  (∀ a conn', sqlite.insert_antenna conn a = Ok conn' -> connection_invariant conn')
  ∧ (∀ t conn', sqlite.insert_tag conn t = Ok conn' -> connection_invariant conn')
  ∧ (∀ t conn', sqlite.update_tag conn t = Ok conn' -> connection_invariant conn')
  ∧ (∀ r conn' id, sqlite.insert_record conn r = Ok (conn', id) ->
       connection_invariant conn')
  ∧ (∀ rs conn', sqlite.insert_records conn rs = Ok conn' -> connection_invariant conn')
  ∧ (∀ tag_in conn', sqlite.create_tag conn tag_in = Ok conn' ->
       connection_invariant conn')
  ∧ (∀ conn', sqlite.reset_all conn = Ok conn' -> connection_invariant conn').
Proof.
  intros Hinv. split; [|split; [|split; [|split; [|split; [|split]]]]].
  - intros a conn'. by apply insert_antenna_invariant.
  - intros t conn'. by apply insert_tag_invariant.
  - intros t conn'. by apply update_tag_invariant.
  - intros r conn' id. by apply insert_record_invariant.
  - intros rs conn'. by apply insert_records_invariant.
  - intros tag_in conn'. unfold sqlite.create_tag. intros (t & _ & Hins)%bind_Ok.
    by eapply insert_tag_invariant.
  - intros conn'. rewrite reset_all_Ok. intros [= <-].
    destruct Hinv. split; simpl; try done; constructor.
Qed.

Lemma initial_connection_invariant : connection_invariant sqlite.initial.
Proof. split; simpl; try done; constructor. Qed.

Lemma writes_keep_the_connection_consistent_witness :
  ∃ conn',
    sqlite.insert_antenna sqlite.initial
      {| sqlite.antenna_id := "1"; sqlite.x := 0; sqlite.y := 0 |} = Ok conn'
    ∧ connection_invariant conn'.
Proof.
  destruct (writes_keep_the_connection_consistent sqlite.initial
              initial_connection_invariant) as [Hant _].
  eexists. split; [by vm_compute |].
  apply (Hant {| sqlite.antenna_id := "1"; sqlite.x := 0; sqlite.y := 0 |}).
  by vm_compute.
Defined.

(** *** Batches of readings *)

Lemma insert_records_Ok (rs : list Record_) (conn : sqlite.Connection) :
  Forall (fun r => is_nan (rec_rssi r) = false
                   ∧ sqlite.has_tag conn (rec_tag_id r)
                   ∧ sqlite.has_antenna conn (rec_antenna_id r)) rs ->
  sqlite.insert_records conn rs
  = Ok {| sqlite.antenna := sqlite.antenna conn;
          sqlite.tables :=
            {| tag := tag (sqlite.tables conn);
               record :=
                 record (sqlite.tables conn)
                 ++ imap (fun i r =>
                            sqlite.stored_row r (sqlite.sequence conn + 1 + Z.of_nat i))
                      rs |};
          sqlite.sequence := sqlite.sequence conn + Z.of_nat (length rs) |}.
Proof.
  revert conn. induction rs as [|r rs IH]; intros conn Hall.
  - unfold sqlite.insert_records. simpl. rewrite app_nil_r, Z.add_0_r.
    by destruct conn as [? [] ?].
  - apply Forall_cons in Hall as [(Hnan & Ht & Ha) Hall].
    rewrite insert_records_cons.
    rewrite (proj2 (insert_record_Ok conn _ r _)
               (conj Hnan (conj Ht (conj Ha (conj eq_refl eq_refl))))).
    bind_ok. rewrite IH by exact Hall. simpl.
    rewrite <-app_assoc. simpl. f_equal. f_equal; [|lia].
    f_equal. f_equal. f_equal; [f_equal; lia |].
    apply imap_ext. intros i r' _. simpl. f_equal. lia.
Qed.

Lemma insert_records_Raise (rs : list Record_) (conn : sqlite.Connection) :
  ¬ Forall (fun r => is_nan (rec_rssi r) = false
                     ∧ sqlite.has_tag conn (rec_tag_id r)
                     ∧ sqlite.has_antenna conn (rec_antenna_id r)) rs ->
  sqlite.insert_records conn rs = Raise IntegrityError.
Proof.
  revert conn. induction rs as [|r rs IH]; intros conn Hnot.
  - destruct Hnot. constructor.
  - rewrite insert_records_cons.
    destruct (sqlite.insert_record conn r) as [[c id]|e] eqn:Hr.
    + bind_ok. apply insert_record_Ok in Hr as (Hnan & Ht & Ha & -> & ->).
      apply IH. intros Hall. apply Hnot. by constructor.
    + assert (e = IntegrityError) as ->; [|done].
      unfold sqlite.insert_record in Hr.
      destruct (is_nan (rec_rssi r)); [congruence |].
      destruct (bool_decide _); [done | congruence].
Qed.

(** X7.  [insert_records] stores the batch when every record of it has a
    signal that is a number, a tag in the [tag] table and an antenna
    in the [antenna] table: the rows are appended in the order of
    the batch with the consecutive [record_id]s after the counter,
    and the counter moves on by the size of the batch.  One record
    that fails makes the call raise IntegrityError. *)
Theorem insert_records_stores_the_batch_or_raises (conn : sqlite.Connection)
    (rs : list Record_) :
  let passes (r : Record_) :=
    is_nan (rec_rssi r) = false
    ∧ sqlite.has_tag conn (rec_tag_id r)
    ∧ sqlite.has_antenna conn (rec_antenna_id r) in
  (Forall passes rs ->
   sqlite.insert_records conn rs
   = Ok {| sqlite.antenna := sqlite.antenna conn;
           sqlite.tables :=
             {| tag := tag (sqlite.tables conn);
                record :=
                  record (sqlite.tables conn)
                  ++ imap (fun i r =>
                             sqlite.stored_row r (sqlite.sequence conn + 1 + Z.of_nat i))
                       rs |};
           sqlite.sequence := sqlite.sequence conn + Z.of_nat (length rs) |})
  ∧ (¬ Forall passes rs -> sqlite.insert_records conn rs = Raise IntegrityError).
Proof.
  intros passes. split; [apply insert_records_Ok | apply insert_records_Raise].
Qed.

Lemma insert_records_stores_the_batch_or_raises_witness :
  sqlite.insert_records fixture_connection
    [fixture_reading "T1" "1" (-50) 3; fixture_reading "T3" "1" (-50) 3]
  = Raise IntegrityError
  ∧ ∃ conn',
      sqlite.insert_records fixture_connection
        [fixture_reading "T1" "1" (-50) 3; fixture_reading "T2" "1" (-50) 3]
      = Ok conn'
      ∧ sqlite.sequence conn' = 14.
Proof.
  split.
  - destruct (insert_records_stores_the_batch_or_raises fixture_connection
                [fixture_reading "T1" "1" (-50) 3; fixture_reading "T3" "1" (-50) 3])
      as [_ Hraise].
    apply Hraise. apply (bool_decide_unpack _). by vm_compute.
  - destruct (insert_records_stores_the_batch_or_raises fixture_connection
                [fixture_reading "T1" "1" (-50) 3; fixture_reading "T2" "1" (-50) 3])
      as [Hok _].
    eexists. split; [apply Hok; apply (bool_decide_unpack _); by vm_compute |].
    by vm_compute.
Defined.

(** *** The reset *)

(** X8.  [reset_all] never raises: it leaves the three tables empty and
    the counter of [record] where it was, so a [record_id] is not
    issued again.  The order of its statements matters on a
    consistent connection: while there are readings the antennas
    cannot be deleted, and deleting the tags alone already deletes
    every reading. *)
Theorem reset_all_empties_the_tables_and_keeps_the_counter (conn : sqlite.Connection) :
  sqlite.reset_all conn
  = Ok {| sqlite.antenna := []; sqlite.tables := db.initial;
          sqlite.sequence := sqlite.sequence conn |}
  ∧ (connection_invariant conn -> record (sqlite.tables conn) ≠ [] ->
     sqlite.delete_from_antenna conn = Raise IntegrityError)
  ∧ (connection_invariant conn ->
     ∃ conn', sqlite.delete_from_tag conn = Ok conn' ∧ sqlite.tables conn' = db.initial).
Proof.
  split; [apply reset_all_Ok |]. split.
  - intros Hinv Hne. unfold sqlite.delete_from_antenna.
    rewrite bool_decide_eq_true_2; [done |].
    destruct (record (sqlite.tables conn)) as [|r l] eqn:Hrecs; [done |].
    apply Exists_cons_hd.
    pose proof (record_parents conn Hinv) as Hrp. rewrite Hrecs in Hrp.
    by apply Forall_cons in Hrp as [(_ & Ha & _) _].
  - intros Hinv. eexists. split; [done |]. simpl. f_equal.
    pose proof (record_parents conn Hinv) as Hrp.
    induction Hrp as [|r l (Ht & _) _ IH]; [done |].
    rewrite filter_cons_False; [done | tauto].
Qed.

Lemma reset_all_empties_the_tables_and_keeps_the_counter_witness :
  sqlite.delete_from_antenna fixture_connection = Raise IntegrityError
  ∧ sqlite.reset_all fixture_connection
    = Ok {| sqlite.antenna := []; sqlite.tables := db.initial; sqlite.sequence := 12 |}.
Proof.
  destruct (reset_all_empties_the_tables_and_keeps_the_counter fixture_connection)
    as (Hreset & Hant & _).
  split; [|exact Hreset]. apply Hant; [apply fixture_connection_invariant |].
  by vm_compute.
Defined.

(** *** [create_tag] *)

(** X9.  [create_tag] raises ValueError for a type other than ['ref'] and
    ['tar'], from the constructor, before the database is touched.
    For the two types it never raises: the tag is stored unread and
    without prediction, whatever was stored under its id before, and
    on a consistent connection it has no reading afterwards. *)
Theorem create_tag_stores_an_unread_tag_without_readings (conn : sqlite.Connection)
    (tag_in : sqlite.TagIn) :
  (sqlite.in_type tag_in ∉ ["ref"; "tar"]%string ->
   sqlite.create_tag conn tag_in = Raise ValueError)
  ∧ (sqlite.in_type tag_in ∈ ["ref"; "tar"]%string ->
     ∃ conn',
       sqlite.create_tag conn tag_in = Ok conn'
       ∧ repository.get_tag_by_id (sqlite.tables conn') (sqlite.in_tag_id tag_in)
         = Ok (Some {| tag_id := sqlite.in_tag_id tag_in;
                       type := sqlite.in_type tag_in;
                       true_x := sql_real (sqlite.in_true_x tag_in);
                       true_y := sql_real (sqlite.in_true_y tag_in);
                       pred_x := None; pred_y := None; is_read := false |})
       ∧ (connection_invariant conn ->
          sqlite.get_records_by_tag conn' (sqlite.in_tag_id tag_in) = [])).
Proof.
  unfold sqlite.create_tag.
  set (t := {| tag_id := sqlite.in_tag_id tag_in; type := sqlite.in_type tag_in;
               true_x := sqlite.in_true_x tag_in; true_y := sqlite.in_true_y tag_in;
               pred_x := None; pred_y := None; is_read := false |}).
  split.
  - intros Hty. unfold post_init.
    by rewrite (bool_decide_eq_false_2 (type t ∈ _)) by done.
  - intros Hty.
    assert (tag_invariant t) as Hinv by (split; [done | by intros _]).
    assert (db.tag_check (repository.tag_row t) = true) as Hcheck.
    { unfold db.tag_check. simpl.
      apply elem_of_cons in Hty as [Hty|Hty%list_elem_of_singleton]; rewrite Hty;
        by vm_compute. }
    rewrite (proj2 (post_init_Ok t t)) by done. bind_ok.
    unfold sqlite.insert_tag, repository.insert_tag. rewrite Hcheck. bind_ok.
    eexists. split; [done |]. split.
    + unfold repository.get_tag_by_id. simpl.
      pose proof (filter_key_replaced tag_id (tag (sqlite.tables conn))
                    (repository.tag_row t) (tag_id t)) as Hf.
      change (tag_id (repository.tag_row t)) with (tag_id t) in Hf.
      change (sqlite.in_tag_id tag_in) with (tag_id t).
      rewrite Hf, decide_True by done.
      unfold repository.tag_of_row.
      by rewrite (proj2 (post_init_Ok _ _))
        by (split; [done | by apply tag_check_invariant]).
    + intros Hconn. unfold sqlite.get_records_by_tag. simpl.
      rewrite list_filter_filter.
      pose proof (record_parents conn Hconn) as Hrp.
      induction Hrp as [|r l (Ht & _) _ IH]; [done |].
      rewrite filter_cons_False; [done |].
      intros [Hid Hnot]. apply Hnot. split; [|done].
      change (tag_id (repository.tag_row t)) with (sqlite.in_tag_id tag_in).
      by rewrite <-Hid.
Qed.

Lemma create_tag_stores_an_unread_tag_without_readings_witness :
  sqlite.create_tag fixture_connection
    {| sqlite.in_tag_id := "T5"; sqlite.in_type := "reference";
       sqlite.in_true_x := None; sqlite.in_true_y := None |}
  = Raise ValueError
  ∧ ∃ conn',
      sqlite.create_tag fixture_connection
        {| sqlite.in_tag_id := "T1"; sqlite.in_type := "tar";
           sqlite.in_true_x := None; sqlite.in_true_y := None |} = Ok conn'
      ∧ sqlite.get_records_by_tag conn' "T1" = [].
Proof.
  split.
  - destruct (create_tag_stores_an_unread_tag_without_readings fixture_connection
                {| sqlite.in_tag_id := "T5"; sqlite.in_type := "reference";
                   sqlite.in_true_x := None; sqlite.in_true_y := None |}) as [Hraise _].
    apply Hraise. apply (bool_decide_unpack _). by vm_compute.
  - destruct (create_tag_stores_an_unread_tag_without_readings fixture_connection
                {| sqlite.in_tag_id := "T1"; sqlite.in_type := "tar";
                   sqlite.in_true_x := None; sqlite.in_true_y := None |}) as [_ Hok].
    destruct Hok as (conn' & Hcreate & _ & Hrecs);
      [apply (bool_decide_unpack _); by vm_compute |].
    exists conn'. split; [done |]. apply Hrecs, fixture_connection_invariant.
Defined.

(** *** Reading the tags and their readings *)

Lemma filter_ext_Forall {A : Type} (P Q : A -> Prop) `{!∀ x, Decision (P x)}
    `{!∀ x, Decision (Q x)} (l : list A) :
  Forall (fun x => P x <-> Q x) l -> filter P l = filter Q l.
Proof.
  induction 1 as [|a l Ha _ IH]; [done |]. rewrite !filter_cons, IH.
  destruct (decide (P a)), (decide (Q a)); tauto.
Qed.

Lemma list_tags_of_type (d : Database) (tag_type : string) :
  db_invariant d -> tag_type ∈ ["ref"; "tar"]%string ->
  repository.list_tags d (Some tag_type)
  = Ok (filter (fun t => type t = tag_type) (tag d)).
Proof.
  intros Hinv Hty. unfold repository.list_tags. rewrite bool_decide_eq_true_2.
  - rewrite comprehension_tag_of_row.
    + f_equal. apply list_filter_iff. intros t. split; [by intros [= ?] | by intros ->].
    + apply Forall_forall. intros r [_ Hr]%list_elem_of_filter.
      by apply (proj1 (Forall_forall _ _) Hinv).
  - apply elem_of_cons in Hty as [->|Hty%list_elem_of_singleton].
    + by left.
    + rewrite Hty. right. by left.
Qed.

(** The entry of [get_readings] for one tag. *)
Lemma get_readings_Returned (conn : sqlite.Connection) (tag_type : string) :
  db_invariant (sqlite.tables conn) -> tag_type ∈ ["ref"; "tar"]%string ->
  sqlite.get_readings conn tag_type
  = sqlite.Returned
      ((fun t =>
          {| sqlite.out_tag_id := tag_id t;
             sqlite.out_rssi := rec_rssi <$> sqlite.get_records_by_tag conn (tag_id t);
             sqlite.out_rc := rec_rc <$> sqlite.get_records_by_tag conn (tag_id t);
             sqlite.out_is_read := is_read t |})
         <$> filter (fun t => type t = tag_type) (tag (sqlite.tables conn))).
Proof.
  intros Hinv Hty. unfold sqlite.get_readings.
  rewrite (bool_decide_eq_true_2 (tag_type ∈ _)) by done. simpl.
  by rewrite list_tags_of_type.
Qed.

(** X10.  [get_readings] answers with status 400 for every type other
    than ['ref'] and ['tar'], where [list_tags] would list all tags.
    For the two types, on a table within the constraints of the
    schema, it returns one entry per tag of the type, in table order:
    the signals and the read counts of the readings of the tag in
    the order they were stored, both empty for a tag that has not
    been read. *)
Theorem get_readings_answers_for_ref_and_tar_only (conn : sqlite.Connection)
    (tag_type : string) :
  (tag_type ∉ ["ref"; "tar"]%string ->
   sqlite.get_readings conn tag_type = sqlite.HTTPException 400)
  ∧ (tag_type ∈ ["ref"; "tar"]%string -> db_invariant (sqlite.tables conn) ->
     ∃ out,
       sqlite.get_readings conn tag_type = sqlite.Returned out
       ∧ Forall2
           (fun t o =>
              sqlite.out_tag_id o = tag_id t
              ∧ sqlite.out_is_read o = is_read t
              ∧ sqlite.out_rssi o = rec_rssi <$> sqlite.get_records_by_tag conn (tag_id t)
              ∧ sqlite.out_rc o = rec_rc <$> sqlite.get_records_by_tag conn (tag_id t)
              ∧ (¬ sqlite.has_tag conn (tag_id t) ∨
                 sqlite.get_records_by_tag conn (tag_id t) = [] ->
                 sqlite.out_rssi o = [] ∧ sqlite.out_rc o = []))
           (filter (fun t => type t = tag_type) (tag (sqlite.tables conn))) out).
Proof.
  split.
  - intros Hty. unfold sqlite.get_readings.
    by rewrite (bool_decide_eq_false_2 (tag_type ∈ _)) by done.
  - intros Hty Hinv. eexists. split; [by apply get_readings_Returned |].
    apply Forall2_fmap_r, Forall_Forall2_diag, Forall_forall. intros t Ht. simpl.
    repeat (split; [done |]). intros [Hnot|Hnil]; [|by rewrite Hnil].
    destruct Hnot. apply Exists_exists. exists t. split; [|done].
    by apply list_elem_of_filter in Ht as [_ ?].
Qed.

Lemma get_readings_answers_for_ref_and_tar_only_witness :
  sqlite.get_readings fixture_connection "all" = sqlite.HTTPException 400
  ∧ ∃ out,
      sqlite.get_readings fixture_connection "ref" = sqlite.Returned out
      ∧ length out = 1%nat.
Proof.
  destruct (get_readings_answers_for_ref_and_tar_only fixture_connection "all")
    as [Hbad _].
  split; [apply Hbad; apply (bool_decide_unpack _); by vm_compute |].
  destruct (get_readings_answers_for_ref_and_tar_only fixture_connection "ref")
    as [_ Hok].
  destruct Hok as (out & Hout & Hall);
    [apply (bool_decide_unpack _); by vm_compute
    | apply fixture_connection_invariant |].
  exists out. split; [done |]. apply Forall2_length in Hall. rewrite <-Hall.
  by vm_compute.
Defined.

Lemma concat_fmap_fmap {A B C : Type} (f : B -> C) (g : A -> list B) (l : list A) :
  concat ((fun a => f <$> g a) <$> l) = f <$> concat (g <$> l).
Proof.
  induction l as [|a l IH]; [done |].
  by rewrite !fmap_cons, !concat_cons, fmap_app, IH.
Qed.

(** X11.  On a consistent connection the two answers of [get_readings],
    for ['ref'] and for ['tar'], hold every stored signal, each
    once: no reading is left out and none comes twice. *)
Theorem get_readings_covers_every_reading (conn : sqlite.Connection) :
  connection_invariant conn ->
  ∃ refs tars,
    sqlite.get_readings conn "ref" = sqlite.Returned refs
    ∧ sqlite.get_readings conn "tar" = sqlite.Returned tars
    ∧ concat (sqlite.out_rssi <$> (refs ++ tars))
      ≡ₚ rec_rssi <$> record (sqlite.tables conn)
    ∧ concat (sqlite.out_rc <$> (refs ++ tars))
      ≡ₚ rec_rc <$> record (sqlite.tables conn).
Proof.
  intros Hinv. pose proof (tag_constraints conn Hinv) as Htc.
  eexists _, _.
  split; [apply get_readings_Returned; [done | by left] |].
  split; [apply get_readings_Returned; [done | by right; left] |].
  set (tags := tag (sqlite.tables conn)).
  set (keep := filter (fun t => type t = "ref"%string) tags
               ++ filter (fun t => type t = "tar"%string) tags).
  assert (keep ≡ₚ tags) as Hkeep.
  { unfold keep.
    rewrite <-(filter_ext_Forall (fun t => ¬ type t = "ref"%string)
                 (fun t => type t = "tar"%string) tags).
    - apply filter_app_complement.
    - eapply Forall_impl; [exact Htc |]. intros t [Hty _].
      apply elem_of_cons in Hty as [Hty|Hty%list_elem_of_singleton]; rewrite Hty;
        split; done. }
  assert (concat ((fun k => filter (fun r => rec_tag_id r = k)
                              (record (sqlite.tables conn)))
                    <$> (tag_id <$> keep))
          ≡ₚ record (sqlite.tables conn)) as Hall.
  { apply group_by_key_Permutation.
    - rewrite Hkeep. apply (tag_keys conn Hinv).
    - intros r Hr. rewrite Hkeep. apply has_tag_elem_of.
      by destruct (proj1 (Forall_forall _ _) (record_parents conn Hinv) r Hr). }
  rewrite <-list_fmap_compose in Hall.
  rewrite <-!fmap_app, <-!list_fmap_compose. fold keep.
  split.
  - rewrite <-Hall, <-concat_fmap_fmap. done.
  - rewrite <-Hall, <-concat_fmap_fmap. done.
Qed.

Lemma get_readings_covers_every_reading_witness :
  ∃ refs tars,
    sqlite.get_readings fixture_connection "ref" = sqlite.Returned refs
    ∧ sqlite.get_readings fixture_connection "tar" = sqlite.Returned tars
    ∧ concat (sqlite.out_rssi <$> (refs ++ tars))
      ≡ₚ rec_rssi <$> record (sqlite.tables fixture_connection)
    ∧ concat (sqlite.out_rc <$> (refs ++ tars))
      ≡ₚ rec_rc <$> record (sqlite.tables fixture_connection).
Proof.
  apply (get_readings_covers_every_reading fixture_connection
           fixture_connection_invariant).
Defined.

(** X12.  On a consistent connection every stored reading is returned by
    [get_records_by_tag] for exactly one tag of [list_tags], and by
    [get_records_by_antenna] for exactly one antenna of
    [list_antennas]: read tag by tag, or antenna by antenna, the
    readings are those of the table, none left out and none twice. *)
Theorem every_reading_has_one_tag_and_one_antenna (conn : sqlite.Connection) :
  connection_invariant conn ->
  (∃ tags,
     repository.list_tags (sqlite.tables conn) None = Ok tags
     ∧ concat ((fun t => sqlite.get_records_by_tag conn (tag_id t)) <$> tags)
       ≡ₚ record (sqlite.tables conn))
  ∧ concat ((fun a => sqlite.get_records_by_antenna conn (sqlite.antenna_id a))
              <$> sqlite.list_antennas conn)
    ≡ₚ record (sqlite.tables conn).
Proof.
  intros Hinv. split.
  - exists (tag (sqlite.tables conn)). split.
    + unfold repository.list_tags. rewrite bool_decide_eq_false_2.
      * apply comprehension_tag_of_row, (tag_constraints conn Hinv).
      * rewrite elem_of_cons, list_elem_of_singleton. by intros [?|?].
    + pose proof (group_by_key_Permutation rec_tag_id
                    (tag_id <$> tag (sqlite.tables conn))
                    (record (sqlite.tables conn))) as Hall.
      rewrite <-list_fmap_compose in Hall. apply Hall.
      * apply (tag_keys conn Hinv).
      * intros r Hr. apply has_tag_elem_of.
        by destruct (proj1 (Forall_forall _ _) (record_parents conn Hinv) r Hr).
  - pose proof (group_by_key_Permutation rec_antenna_id
                  (sqlite.antenna_id <$> sqlite.antenna conn)
                  (record (sqlite.tables conn))) as Hall.
    rewrite <-list_fmap_compose in Hall. apply Hall.
    + apply (antenna_keys conn Hinv).
    + intros r Hr. apply has_antenna_elem_of.
      by destruct (proj1 (Forall_forall _ _) (record_parents conn Hinv) r Hr)
        as (_ & ? & _).
Qed.

Lemma every_reading_has_one_tag_and_one_antenna_witness :
  concat ((fun a => sqlite.get_records_by_antenna fixture_connection
                      (sqlite.antenna_id a))
            <$> sqlite.list_antennas fixture_connection)
  ≡ₚ record (sqlite.tables fixture_connection)
  ∧ length (sqlite.get_records_by_antenna fixture_connection "1") = 6%nat.
Proof.
  destruct (every_reading_has_one_tag_and_one_antenna fixture_connection
              fixture_connection_invariant) as [_ Hant].
  split; [exact Hant | by vm_compute].
Defined.

Lemma filter_key_updated {A K : Type} `{EqDecision K} (key : A -> K) (row : A)
    (l : list A) (k : K) :
  filter (fun r => key r = k)
    ((fun r => if bool_decide (key r = key row) then row else r) <$> l)
  = if decide (k = key row)
    then (fun _ => row) <$> filter (fun r => key r = k) l
    else filter (fun r => key r = k) l.
Proof.
  induction l as [|r l IH]; [by case_decide |].
  rewrite fmap_cons, !filter_cons, IH. clear IH.
  destruct (decide (key r = key row)) as [Hr|Hr].
  - rewrite (bool_decide_eq_true_2 (key r = key row)) by done.
    destruct (decide (k = key row)) as [->|Hk].
    + by rewrite !decide_True by done.
    + by rewrite !decide_False by congruence.
  - rewrite (bool_decide_eq_false_2 (key r = key row)) by done.
    destruct (decide (k = key row)) as [->|Hk].
    + by rewrite !decide_False by done.
    + by destruct (decide (key r = k)).
Qed.

(** X13.  What [update_tag] writes for a stored tag as a target tag is
    what [get_predictions] then reports for it, once: the predicted
    coordinates of the tag, a not-a-number coordinate as [None]. *)
Theorem get_predictions_reports_what_update_tag_wrote (conn : sqlite.Connection)
    (t : Tag) :
  connection_invariant conn -> sqlite.has_tag conn (tag_id t) ->
  type t = "tar"%string ->
  ∃ conn' out,
    sqlite.update_tag conn t = Ok conn'
    ∧ sqlite.get_predictions conn' = sqlite.Returned out
    ∧ filter (fun o => sqlite.out_pred_tag_id o = tag_id t) out
      = [ {| sqlite.out_pred_tag_id := tag_id t;
             sqlite.out_pred_x := sql_real (pred_x t);
             sqlite.out_pred_y := sql_real (pred_y t) |} ]
    ∧ Forall (fun o => ∃ s, s ∈ tag (sqlite.tables conn')
                            ∧ type s = "tar"%string
                            ∧ tag_id s = sqlite.out_pred_tag_id o) out.
Proof.
  intros Hinv Hhas Hty.
  assert (db.tag_check (repository.tag_row t) = true) as Hcheck.
  { unfold db.tag_check. simpl. rewrite Hty. by vm_compute. }
  destruct (sqlite.update_tag conn t) as [conn'|e] eqn:Hupd.
  2:{ unfold sqlite.update_tag, repository.update_tag in Hupd.
      by rewrite Hcheck, andb_false_r in Hupd. }
  pose proof (update_tag_invariant _ _ _ Hinv Hupd) as Hinv'.
  unfold sqlite.update_tag, repository.update_tag in Hupd.
  rewrite Hcheck, andb_false_r in Hupd. injection Hupd as <-.
  eexists _, _. split; [done |].
  unfold sqlite.get_predictions.
  rewrite list_tags_of_type;
    [|apply (tag_constraints _ Hinv') | by right; left].
  split; [done |]. cbn [sqlite.tables tag]. split.
  - rewrite <-(filter_fmap_comm _ (fun o => sqlite.out_pred_tag_id o = tag_id t)).
    cbn [sqlite.out_pred_tag_id]. rewrite list_filter_filter.
    rewrite (list_filter_iff _ (fun s => type s = "tar"%string ∧ tag_id s = tag_id t))
      by (intros s; tauto).
    rewrite <-list_filter_filter.
    pose proof (filter_key_updated tag_id (repository.tag_row t)
                  (tag (sqlite.tables conn)) (tag_id t)) as Hf.
    change (tag_id (repository.tag_row t)) with (tag_id t) in Hf.
    rewrite decide_True in Hf by done. rewrite Hf.
    destruct (filter_key_NoDup tag_id (tag (sqlite.tables conn)) (tag_id t)
                (tag_keys conn Hinv)) as [Hnil|[s Hs]].
    + exfalso. apply Exists_exists in Hhas as (s & Hs & Hid).
      eapply filter_nil_not_elem_of; [exact Hnil | exact Hid | exact Hs].
    + rewrite Hs. cbn [fmap list_fmap]. rewrite filter_cons_True by done. done.
  - apply Forall_fmap, Forall_forall. intros s [Hs Hin]%list_elem_of_filter.
    by exists s.
Qed.

Lemma get_predictions_reports_what_update_tag_wrote_witness :
  ∃ conn' out,
    sqlite.update_tag fixture_connection
      {| tag_id := "T2"; type := "tar"; true_x := Some 2%float; true_y := Some 2%float;
         pred_x := Some 1.5%float; pred_y := Some nan; is_read := true |} = Ok conn'
    ∧ sqlite.get_predictions conn' = sqlite.Returned out
    ∧ filter (fun o => sqlite.out_pred_tag_id o = "T2"%string) out
      = [ {| sqlite.out_pred_tag_id := "T2";
             sqlite.out_pred_x := Some 1.5%float;
             sqlite.out_pred_y := None |} ].
Proof.
  destruct (get_predictions_reports_what_update_tag_wrote fixture_connection
              {| tag_id := "T2"; type := "tar"; true_x := Some 2%float;
                 true_y := Some 2%float; pred_x := Some 1.5%float;
                 pred_y := Some nan; is_read := true |})
    as (conn' & out & Hupd & Hget & Hout & _).
  - apply fixture_connection_invariant.
  - apply (bool_decide_unpack _). by vm_compute.
  - done.
  - exists conn', out. split; [exact Hupd |]. split; [exact Hget | exact Hout].
Defined.

(** X14.  The reference tags the positioning pipeline trains on are the
    tags [list_tags] lists for ['ref'], in the same order; a tag
    entered with [insert_tag] is among them exactly when it is
    entered as ['ref'], whatever its type was before. *)
Theorem load_reference_tags_are_the_listed_ref_tags (conn : sqlite.Connection) :
  db_invariant (sqlite.tables conn) ->
  (∃ ts, repository.list_tags (sqlite.tables conn) (Some "ref"%string) = Ok ts
         ∧ load_reference_tags (sqlite.tables conn) = tag_id <$> ts)
  ∧ ∀ t conn', sqlite.insert_tag conn t = Ok conn' ->
      (tag_id t ∈ load_reference_tags (sqlite.tables conn') <-> type t = "ref"%string).
Proof.
  intros Hinv. split.
  - eexists. split; [apply list_tags_of_type; [done | by left] | done].
  - intros t conn' [Hcheck ->]%sqlite_insert_tag_Ok.
    unfold load_reference_tags. simpl. rewrite filter_app, fmap_app, elem_of_app.
    split.
    + intros [Hin|Hin].
      * apply list_elem_of_fmap in Hin as (r & Hid & Hr).
        apply list_elem_of_filter in Hr as [_ Hr].
        by apply list_elem_of_filter in Hr as [Hne _].
      * apply list_elem_of_fmap in Hin as (r & _ & Hr).
        apply list_elem_of_filter in Hr as [Hty Hr].
        by apply list_elem_of_singleton in Hr as ->.
    + intros Hty. right. rewrite filter_cons_True by done. simpl. by left.
Qed.

Lemma load_reference_tags_are_the_listed_ref_tags_witness :
  ∃ ts, repository.list_tags (sqlite.tables fixture_connection) (Some "ref"%string) = Ok ts
        ∧ load_reference_tags (sqlite.tables fixture_connection) = tag_id <$> ts.
Proof.
  destruct (load_reference_tags_are_the_listed_ref_tags fixture_connection) as [Hts _];
    [apply fixture_connection_invariant | exact Hts].
Defined.

End connection.

(* ===================================================================== *)
(** ** The extractor outside its preconditions *)
(* ===================================================================== *)

Lemma np_unique_nil_inv (l : list string) : np_unique l = [] -> l = [].
Proof.
  destruct l as [|x l]; [done |]. intros Hnil.
  assert (x ∈ np_unique (x :: l)) as Hx by (apply elem_of_np_unique; by left).
  rewrite Hnil in Hx. by apply elem_of_nil in Hx.
Qed.

Lemma column_position_cases (cols : list string) (a : string) :
  (a ∈ cols ∧ (∃ j, column_position cols a = Ok j))
  ∨ ((a ∉ cols) ∧ column_position cols a = Raise KeyError).
Proof.
  unfold column_position. destruct (list_find _ cols) as [[j b]|] eqn:Hfind.
  - left. apply list_find_Some in Hfind as (Hj & -> & _).
    split; [by eapply list_elem_of_lookup_2 | by eexists].
  - right. split; [|done]. intros Ha.
    apply list_find_None in Hfind. by apply (proj1 (Forall_forall _ _) Hfind a).
Qed.

(** The columns can be selected exactly when each of the names
    [1 .. k] is among the [k] antenna columns; otherwise the selection
    raises KeyError. *)
Lemma columns_resolve_cases (cols : list string) :
  let named := Forall (fun a => a ∈ cols) (antenna_cols (length cols)) in
  (named ∧ (∃ positions, columns_resolve cols positions))
  ∨ (¬ named
     ∧ comprehension (column_position cols) (antenna_cols (length cols)) = Raise KeyError).
Proof.
  intros named. unfold named, columns_resolve.
  destruct (decide (Forall (fun a => a ∈ cols) (antenna_cols (length cols)))) as [Hall|Hnot].
  - left. split; [done |]. apply comprehension_total.
    eapply Forall_impl; [exact Hall |]. intros a Ha.
    by destruct (column_position_cases cols a) as [[_ ?]|[? _]].
  - right. split; [done |]. apply comprehension_Raise_uniform.
    + apply Forall_forall. intros a _.
      destruct (column_position_cases cols a) as [[_ ?]|[_ ?]]; [by left | by right].
    + apply not_Forall_Exists in Hnot; [|apply _].
      eapply Exists_impl; [exact Hnot |]. intros a Ha. simpl in Ha.
      by destruct (column_position_cases cols a) as [[? _]|[_ ?]].
Qed.

Lemma window_stats_nil (ncols : nat) : window_stats ncols [] = Raise ValueError.
Proof. reflexivity. Qed.

Lemma window_stats_cases (ncols : nat) (window : list (list float)) :
  (∃ s, window_stats ncols window = Ok s) ∨ window_stats ncols window = Raise ValueError.
Proof.
  destruct window as [|row window]; [by right |]. left. eexists. by apply window_stats_Ok.
Qed.

Lemma for_loop_cases {S I : Type} (body : S -> I -> Result S) (e : PyError)
    (iter : list I) (s : S) :
  (∀ s i, (∃ s', body s i = Ok s') ∨ body s i = Raise e) ->
  (∃ out, for_loop body iter s = Ok out) ∨ for_loop body iter s = Raise e.
Proof.
  intros Hbody. revert s. induction iter as [|i iter IH]; intros s; [left; by eexists |].
  change (for_loop body (i :: iter) s) with (body s i ≫= for_loop body iter).
  destruct (Hbody s i) as [[s' ->]| ->]; [apply IH | by right].
Qed.

Lemma py_range_cons (lo hi : Z) : lo < hi -> py_range lo hi = lo :: py_range (lo + 1) hi.
Proof.
  intros Hlt. unfold py_range.
  replace (Z.to_nat (hi - lo)) with (S (Z.to_nat (hi - (lo + 1)))) by lia.
  simpl. f_equal; [lia |]. rewrite <-fmap_S_seq, <-list_fmap_compose.
  apply list_fmap_ext. intros i d _. simpl. lia.
Qed.

(** What [tag_features] does for the rows of one tag, by cases on the
    window sizes. *)
Lemma tag_features_cases (first_window_size window_size : Z) (cols : list string)
    (positions : list nat) (df_tag : list FingerprintRow) :
  columns_resolve cols positions ->
  (first_window_size ≤ 0 ∨ df_tag = [] ->
   tag_features first_window_size window_size cols df_tag = Raise ValueError)
  ∧ (1 ≤ first_window_size -> df_tag ≠ [] ->
     ((∃ out, tag_features first_window_size window_size cols df_tag = Ok out)
      ∨ tag_features first_window_size window_size cols df_tag = Raise ValueError)
     ∧ (Z.of_nat (length df_tag) ≤ first_window_size ->
        ∃ out, tag_features first_window_size window_size cols df_tag = Ok out)
     ∧ (first_window_size < Z.of_nat (length df_tag) -> window_size ≤ 0 ->
        tag_features first_window_size window_size cols df_tag = Raise ValueError)).
Proof.
  intros Hpos. unfold columns_resolve in Hpos. unfold tag_features.
  rewrite Hpos. bind_ok. rewrite first_window_values.
  set (ncols := (length cols + length cols)%nat).
  set (n := Z.of_nat (length df_tag)).
  split.
  - intros Hempty.
    replace (take _ df_tag) with (@nil FingerprintRow); [done |].
    destruct Hempty as [Hw0| ->]; [|by rewrite take_nil].
    by replace (Z.to_nat (Z.min first_window_size n)) with 0%nat by lia.
  - intros Hw0 Hrows.
    assert (0 < n) as Hn by (unfold n; destruct df_tag; [done | simpl; lia]).
    rewrite window_stats_Ok.
    2:{ intros Hnil%(f_equal length). rewrite length_fmap, length_take in Hnil.
        unfold n in *. simpl in Hnil. lia. }
    bind_ok. set (s := Build_Stats _ _ _ _).
    set (df0 := (fun r => {| fingerprint := r; stats := unassigned ncols |}) <$> df_tag).
    set (df1 := foldl _ df0 _).
    split; [|split].
    + apply for_loop_cases. intros df i.
      destruct (window_stats_cases ncols
                  (loc_values positions (Z.max 0 (i - window_size + 1)) i df))
        as [[s' ->]| ->]; [left; by eexists | by right].
    + intros Hshort. replace (py_range first_window_size n) with (@nil Z); [by eexists |].
      unfold py_range. by replace (Z.to_nat (n - first_window_size)) with 0%nat by lia.
    + intros Hlong Hw. rewrite py_range_cons by done.
      change (for_loop ?body (first_window_size :: ?rest) df1)
        with (body df1 first_window_size ≫= for_loop body rest).
      cbv beta.
      replace (loc_values positions _ first_window_size df1) with (@nil (list float));
        [done |].
      unfold loc_values, loc_slice.
      by replace (Z.to_nat (first_window_size + 1) - _)%nat with 0%nat by lia.
Qed.

Lemma for_loop_append_Raise {A I : Type} (f : I -> Result (list A)) (e : PyError)
    (iter : list I) (acc : list A) :
  Forall (fun i => (∃ blk, f i = Ok blk) ∨ f i = Raise e) iter ->
  Exists (fun i => f i = Raise e) iter ->
  for_loop (fun acc i => blk ← f i; Ok (acc ++ blk)) iter acc = Raise e.
Proof.
  intros Hall. revert acc. induction Hall as [|i iter Hi _ IH]; intros acc; [by inversion 1 |].
  intros Hex.
  change (for_loop ?body (i :: iter) acc) with (body acc i ≫= for_loop body iter).
  cbv beta. destruct Hi as [[blk Hblk]|Hi]; [|by rewrite Hi].
  rewrite Hblk. bind_ok. apply IH.
  apply Exists_cons in Hex as [Hex|Hex]; [congruence | done].
Qed.

(** X15.  [sliding_window_features] outside its preconditions.  A frame
    without rows comes back without rows, whatever the arguments.  On a
    frame with rows the call raises KeyError unless each of the names
    [1 .. k] is among the [k] antenna columns, and ValueError when the
    first window size is not positive.  The sliding window size is
    only looked at for a tag with more rows than the first window:
    when no tag has, the call returns for every window size, and when
    one has, a window size that is not positive raises ValueError. *)
Theorem extractor_outside_its_preconditions (dbase : DataFrame FingerprintRow)
    (first_window_size window_size : Z) :
  let cols := antennas dbase in
  let named := Forall (fun a => a ∈ cols) (antenna_cols (length cols)) in
  let rows_of tag := filter (fun r => TagID r = tag) (rows dbase) in
  (rows dbase = [] ->
   sliding_window_features dbase first_window_size window_size
   = Ok {| antennas := cols; rows := [] |})
  ∧ (rows dbase ≠ [] -> ¬ named ->
     sliding_window_features dbase first_window_size window_size = Raise KeyError)
  ∧ (rows dbase ≠ [] -> named -> first_window_size ≤ 0 ->
     sliding_window_features dbase first_window_size window_size = Raise ValueError)
  ∧ (named -> 1 ≤ first_window_size ->
     (∀ tag, Z.of_nat (length (rows_of tag)) ≤ first_window_size) ->
     ∃ out, sliding_window_features dbase first_window_size window_size = Ok out)
  ∧ (named -> 1 ≤ first_window_size -> window_size ≤ 0 ->
     (∃ tag, first_window_size < Z.of_nat (length (rows_of tag))) ->
     sliding_window_features dbase first_window_size window_size = Raise ValueError).
Proof.
  intros cols named rows_of.
  assert (∀ tag, tag ∈ np_unique (TagID <$> rows dbase) -> rows_of tag ≠ []) as Hne.
  { intros tag Htag. apply (proj1 (elem_of_np_unique _ _)) in Htag.
    apply list_elem_of_fmap in Htag as (r & -> & Hr).
    intros Hnil. eapply filter_nil_not_elem_of; [exact Hnil | | exact Hr]. done. }
  assert (∀ e, rows dbase ≠ [] ->
               (∀ df_tag, tag_features first_window_size window_size cols df_tag = Raise e) ->
               sliding_window_features dbase first_window_size window_size = Raise e)
    as Hfirst.
  { intros e Hrows Hraise. unfold sliding_window_features.
    destruct (np_unique (TagID <$> rows dbase)) as [|tag tags] eqn:Htags.
    - apply np_unique_nil_inv, fmap_nil_inv in Htags. done.
    - change (for_loop ?body (tag :: tags) []) with (body [] tag ≫= for_loop body tags).
      cbv beta. fold cols. by rewrite Hraise. }
  split; [|split; [|split; [|split]]].
  - intros Hrows. unfold sliding_window_features. by rewrite Hrows.
  - intros Hrows Hnot. apply Hfirst; [done |]. intros df_tag.
    destruct (columns_resolve_cases cols) as [[Hall _]|[_ Hraise]]; [done |].
    unfold tag_features. by rewrite Hraise.
  - intros Hrows Hall Hw0. apply Hfirst; [done |]. intros df_tag.
    destruct (columns_resolve_cases cols) as [[_ [positions Hpos]]|[Hnot _]]; [|done].
    apply (proj1 (tag_features_cases _ _ _ _ df_tag Hpos)). by left.
  - intros Hall Hw0 Hshort.
    destruct (columns_resolve_cases cols) as [[_ [positions Hpos]]|[Hnot _]]; [|done].
    unfold sliding_window_features.
    destruct (for_loop_append_total
                (fun tag => tag_features first_window_size window_size cols (rows_of tag))
                (np_unique (TagID <$> rows dbase)) []) as [newdbase Hloop].
    + apply Forall_forall. intros tag Htag.
      destruct (proj2 (tag_features_cases first_window_size window_size _ _
                         (rows_of tag) Hpos) Hw0 (Hne _ Htag)) as (_ & Hsh & _).
      apply Hsh, Hshort.
    + unfold rows_of, cols in Hloop. rewrite Hloop. by eexists.
  - intros Hall Hw0 Hw [tag Hlong].
    destruct (columns_resolve_cases cols) as [[_ [positions Hpos]]|[Hnot _]]; [|done].
    unfold sliding_window_features.
    rewrite (for_loop_append_Raise
               (fun tag => tag_features first_window_size window_size cols (rows_of tag))
               ValueError); [done | |].
    + apply Forall_forall. intros tag' Htag.
      by destruct (proj2 (tag_features_cases first_window_size window_size _ _
                            (rows_of tag') Hpos) Hw0 (Hne _ Htag)) as (Hcases & _).
    + apply Exists_exists. exists tag. split.
      * apply elem_of_np_unique.
        destruct (rows_of tag) as [|r l] eqn:Hr; [simpl in Hlong; lia |].
        assert (r ∈ rows_of tag) as Hin by (rewrite Hr; by left).
        apply list_elem_of_filter in Hin as [<- Hin].
        apply list_elem_of_fmap. by exists r.
      * assert (rows_of tag ≠ []) as Hrows.
        { intros Hnil. rewrite Hnil in Hlong. simpl in Hlong. lia. }
        destruct (proj2 (tag_features_cases first_window_size window_size _ _
                           (rows_of tag) Hpos) Hw0 Hrows) as (_ & _ & Hraise).
        by apply Hraise.
Qed.

Lemma extractor_outside_its_preconditions_witness :
  sliding_window_features (load_data_from_db fixture) 0 2 = Raise ValueError
  ∧ sliding_window_features (load_data_from_db fixture) 2 0 = Raise ValueError
  ∧ ∃ out, sliding_window_features (load_data_from_db fixture) 6 0 = Ok out.
Proof.
  assert (Forall (fun a => a ∈ antennas (load_data_from_db fixture))
            (antenna_cols (length (antennas (load_data_from_db fixture))))) as Hnamed.
  { apply (bool_decide_unpack _). by vm_compute. }
  split; [|split].
  - destruct (extractor_outside_its_preconditions (load_data_from_db fixture) 0 2)
      as (_ & _ & Hw0 & _).
    apply Hw0; [by vm_compute | exact Hnamed | lia].
  - destruct (extractor_outside_its_preconditions (load_data_from_db fixture) 2 0)
      as (_ & _ & _ & _ & Hw).
    apply Hw; [exact Hnamed | lia | lia |]. exists "T1"%string. by vm_compute.
  - destruct (extractor_outside_its_preconditions (load_data_from_db fixture) 6 0)
      as (_ & _ & _ & Hshort & _).
    apply Hshort; [exact Hnamed | lia |]. intros tag.
    etrans; [apply Nat2Z.inj_le, length_filter |]. by vm_compute.
Defined.

(* ===================================================================== *)
(** ** The assembled frame *)
(* ===================================================================== *)

#[global] Instance by_TagID_read_total : Total by_TagID_read.
Proof.
  intros [t1 m1] [t2 m2]. unfold by_TagID_read. simpl.
  destruct (decide (t1 = t2)) as [->|Hne].
  - destruct (Z.le_ge_cases m1 m2); [left | right]; right; split; done.
  - destruct (total String.le t1 t2); [left | right]; left; split; congruence.
Qed.

#[global] Instance by_TagID_read_trans : Transitive by_TagID_read.
Proof.
  intros [t1 m1] [t2 m2] [t3 m3]. unfold by_TagID_read. simpl.
  intros [[H12 N12]|[-> L12]] [[H23 N23]|[-> L23]].
  - left. split; [by etrans |]. intros ->. apply N12. by apply (anti_symm String.le).
  - left. by split.
  - left. by split.
  - right. split; [done | lia].
Qed.

#[global] Instance by_TagID_read_anti_symm : AntiSymm eq by_TagID_read.
Proof.
  intros [t1 m1] [t2 m2]. unfold by_TagID_read. simpl.
  intros [[H12 N12]|[-> L12]] [[H21 N21]|[E21 L21]]; try done.
  - destruct N12. by apply (anti_symm String.le).
  - f_equal. lia.
Qed.

(** The left join of one row: exactly one row comes out when the tag
    ids are a key. *)
Lemma merge_left_unique (tags : list models.Tag) (b : FingerprintRow) :
  NoDup (models.tag_id <$> tags) ->
  ∃ fr, merge_left tags b = [fr]
        ∧ TagID fr = TagID b ∧ read fr = read b ∧ rssi fr = rssi b ∧ rc fr = rc b
        ∧ (∀ t, t ∈ tags -> models.tag_id t = TagID b ->
             true_x fr = read_real (models.true_x <$> tags) (models.true_x t)
             ∧ true_y fr = read_real (models.true_y <$> tags) (models.true_y t))
        ∧ ((∀ t, t ∈ tags -> models.tag_id t ≠ TagID b) ->
             true_x fr = true_x b ∧ true_y fr = true_y b).
Proof.
  intros Hnd. unfold merge_left.
  destruct (filter_key_NoDup models.tag_id tags (TagID b) Hnd) as [Hnil|[m Hm]].
  - rewrite Hnil. exists b. repeat (split; [done |]). split; [|done].
    intros t Ht Hid. exfalso.
    eapply (filter_nil_not_elem_of _ _ t); [exact Hnil | exact Hid | exact Ht].
  - rewrite Hm. eexists. split; [done |]. simpl. repeat (split; [done |]).
    assert (m ∈ filter (fun t => models.tag_id t = TagID b) tags) as Hin
      by (rewrite Hm; by left).
    apply list_elem_of_filter in Hin as [Hmid Hin]. split.
    + intros t Ht Hid.
      assert (t ∈ filter (fun t => models.tag_id t = TagID b) tags) as Hin'
        by by apply list_elem_of_filter.
      rewrite Hm in Hin'. by apply list_elem_of_singleton in Hin' as ->.
    + intros Hnone. by destruct (Hnone m Hin).
Qed.

Lemma bind_merge_left_keys (tags : list models.Tag) (df_base : list FingerprintRow) :
  NoDup (models.tag_id <$> tags) ->
  (fun r => (TagID r, read r)) <$> (df_base ≫= merge_left tags)
  = (fun r => (TagID r, read r)) <$> df_base.
Proof.
  intros Hnd. induction df_base as [|b l IH]; [done |].
  rewrite bind_cons, fmap_app, IH, fmap_cons.
  destruct (merge_left_unique tags b Hnd) as (fr & -> & Ht & Hr & _).
  simpl. by rewrite Ht, Hr.
Qed.

Lemma load_data_from_db_row_shape (conn : db.Database) (fr : FingerprintRow) :
  fr ∈ rows (load_data_from_db conn) ->
  length (rssi fr) = length (antennas (load_data_from_db conn))
  ∧ length (rc fr) = length (antennas (load_data_from_db conn)).
Proof.
  intros Hfr. unfold load_data_from_db in *. simpl in *.
  apply list_elem_of_bind in Hfr as (b & Hfr & Hb).
  apply elem_of_merge_left in Hfr as (_ & _ & -> & ->).
  apply list_elem_of_fmap in Hb as (key & -> & _). simpl.
  by rewrite !length_fmap.
Qed.

(** In a list of distinct keys sorted by tag id, then time, the times
    of one tag increase strictly. *)
Lemma times_of_a_tag_increase (ks : list (string * Z)) (tag : string) :
  StronglySorted by_TagID_read ks -> NoDup ks ->
  StronglySorted Z.lt (snd <$> filter (fun k => k.1 = tag) ks).
Proof.
  induction 1 as [|k ks Hsorted IH Hk]; [constructor |].
  rewrite NoDup_cons. intros [Hnotin Hnd]. rewrite filter_cons.
  destruct (decide (k.1 = tag)) as [Htag|Htag]; [|by apply IH].
  rewrite fmap_cons. constructor; [by apply IH |].
  apply Forall_fmap, Forall_forall. intros k' [Htag' Hin]%list_elem_of_filter. simpl.
  pose proof (proj1 (Forall_forall _ _) Hk k' Hin) as [[_ Hne]|[_ Hle]].
  - destruct Hne. congruence.
  - destruct (decide (k.2 = k'.2)) as [Heq|Hneq]; [|lia].
    destruct Hnotin. destruct k, k'. simpl in *. by subst.
Qed.

(** X16.  When tag ids are a key of the [tag] table, the frame of
    [load_data_from_db] has one row for each pair of a tag and a time
    at which some antenna read the tag, and no other row; the rows come
    sorted by tag id, then by time.  The readings that count are those
    pandas can date: written like the first reading of the table, with
    or without microseconds, and within the range of [datetime64[ns]].
    The antenna columns are the antennas that occur in these readings,
    each once, and every row has one signal cell and one read-count
    cell per antenna column.  The rows of one tag follow each other in
    strictly increasing time. *)
Theorem assembled_frame_has_one_row_per_tag_and_time (conn : db.Database) :
  NoDup (models.tag_id <$> db.tag conn) ->
  let dbase := load_data_from_db conn in
  let keys := (fun r => (TagID r, read r)) <$> rows dbase in
  let dated (r : models.Record_) :=
    r ∈ db.record conn
    ∧ ∃ first, head (db.record conn) = Some first
        ∧ has_fraction (models.rec_read_time r)
          = has_fraction (models.rec_read_time first)
        ∧ in_bounds (models.rec_read_time r) = true in
  NoDup keys
  ∧ StronglySorted by_TagID_read keys
  ∧ (∀ t time, (t, time) ∈ keys <->
       ∃ r, dated r ∧ models.rec_tag_id r = t ∧ models.rec_read_time r = time)
  ∧ NoDup (antennas dbase)
  ∧ (∀ a, a ∈ antennas dbase <-> ∃ r, dated r ∧ models.rec_antenna_id r = a)
  ∧ (∀ fr, fr ∈ rows dbase ->
       length (rssi fr) = length (antennas dbase)
       ∧ length (rc fr) = length (antennas dbase))
  ∧ ∀ tag, StronglySorted Z.lt (read <$> filter (fun r => TagID r = tag) (rows dbase)).
Proof.
  intros Hnd dbase keys dated.
  assert (∀ r, dated r <-> r ∈ parse_dates (db.record conn)) as Hdated.
  { intros r. unfold dated. by rewrite elem_of_parse_dates. }
  assert (keys = pivot_index (parse_dates (db.record conn))) as Hkeys.
  { unfold keys, dbase, load_data_from_db. simpl.
    rewrite bind_merge_left_keys by done.
    rewrite <-list_fmap_compose.
    rewrite <-(list_fmap_id (pivot_index (parse_dates (db.record conn)))) at 2.
    apply list_fmap_ext. by intros i [t time] _. }
  assert (NoDup keys ∧ StronglySorted by_TagID_read keys) as [Hnodup Hsorted].
  { rewrite Hkeys. unfold pivot_index. split.
    - rewrite merge_sort_Permutation. apply NoDup_remove_dups.
    - apply StronglySorted_merge_sort; apply _. }
  split; [done |]. split; [done |].
  split; [|split; [|split; [|split]]]; [rewrite Hkeys; unfold pivot_index | ..].
  - intros t time. rewrite merge_sort_Permutation, elem_of_remove_dups, list_elem_of_fmap.
    split.
    + intros (r & [= -> ->] & Hr). exists r. by rewrite Hdated.
    + intros (r & Hr & <- & <-). exists r. by rewrite <-Hdated.
  - apply NoDup_np_unique.
  - intros a. unfold dbase, load_data_from_db. simpl.
    rewrite elem_of_np_unique, list_elem_of_fmap. split.
    + intros (r & -> & Hr). exists r. by rewrite Hdated.
    + intros (r & Hr & <-). exists r. by rewrite <-Hdated.
  - intros fr Hfr. by apply load_data_from_db_row_shape.
  - intros tag.
    pose proof (times_of_a_tag_increase keys tag Hsorted Hnodup) as Htimes.
    unfold keys in Htimes.
    rewrite <-(filter_fmap_comm (fun r => (TagID r, read r)) (fun k => k.1 = tag))
      in Htimes.
    by rewrite <-list_fmap_compose in Htimes.
Qed.

Lemma assembled_frame_has_one_row_per_tag_and_time_witness :
  let dbase := load_data_from_db mixed_format_conn in
  let keys := (fun r => (TagID r, read r)) <$> rows dbase in
  NoDup keys ∧ StronglySorted by_TagID_read keys
  ∧ keys = [("T1"%string, 0); ("T1"%string, 1000000)]
  ∧ antennas dbase = ["1"%string].
Proof.
  destruct (assembled_frame_has_one_row_per_tag_and_time mixed_format_conn)
    as (Hnd & Hsorted & _).
  - apply (bool_decide_unpack _). by vm_compute.
  - split; [exact Hnd |]. split; [exact Hsorted |]. split; by vm_compute.
Defined.

Lemma read_real_cases (column : list (option float)) (c : option float) :
  ((∃ c', c' ∈ column ∧ db.sql_real c' ≠ None) ->
     read_real column c = Some (default nan (db.sql_real c)))
  ∧ ((∀ c', c' ∈ column -> db.sql_real c' = None) -> read_real column c = None).
Proof.
  unfold read_real. split.
  - intros (c' & Hc' & Hsome).
    destruct (forallb _ column) eqn:Hall; [|done].
    rewrite forallb_forall in Hall. apply list_elem_of_In, Hall in Hc'.
    by apply bool_decide_eq_true in Hc'.
  - intros Hnone.
    destruct (forallb _ column) eqn:Hall; [done |].
    apply not_true_iff_false in Hall. destruct Hall.
    apply forallb_forall. intros c' Hc'%list_elem_of_In.
    by apply bool_decide_eq_true_2, Hnone.
Qed.

(** X17.  A row of the assembled frame, when tag ids are a key of the
    [tag] table.  A cell of an antenna that has no dated reading of the
    row's tag at the row's time is [nan], in the signal and in the read
    count.  A true coordinate of the row is that of the row's tag, and
    [nan] where the tag has none, when some tag of the table has this
    coordinate; it is [None] when no tag of the table has it; and it is
    [nan] when the row's tag is not in the table. *)
Theorem assembled_row_is_unset_where_nothing_is_known (conn : db.Database)
    (fr : FingerprintRow) :
  NoDup (models.tag_id <$> db.tag conn) ->
  fr ∈ rows (load_data_from_db conn) ->
  let charted (axis : models.Tag -> option float) :=
    ∃ t', t' ∈ db.tag conn ∧ db.sql_real (axis t') ≠ None in
  (∀ j a, antennas (load_data_from_db conn) !! j = Some a ->
     (∀ r, r ∈ parse_dates (db.record conn) ->
        ¬ (models.rec_tag_id r = TagID fr ∧ models.rec_antenna_id r = a
           ∧ models.rec_read_time r = read fr)) ->
     rssi fr !! j = Some nan ∧ rc fr !! j = Some nan)
  ∧ (∀ t, t ∈ db.tag conn -> models.tag_id t = TagID fr ->
       (charted models.true_x ->
          true_x fr = Some (default nan (db.sql_real (models.true_x t))))
       ∧ (¬ charted models.true_x -> true_x fr = None)
       ∧ (charted models.true_y ->
            true_y fr = Some (default nan (db.sql_real (models.true_y t))))
       ∧ (¬ charted models.true_y -> true_y fr = None))
  ∧ ((∀ t, t ∈ db.tag conn -> models.tag_id t ≠ TagID fr) ->
       true_x fr = Some nan ∧ true_y fr = Some nan).
Proof.
  intros Hnd Hfr charted. unfold load_data_from_db in *. simpl in *.
  apply list_elem_of_bind in Hfr as (b & Hfr & Hb).
  destruct (merge_left_unique (db.tag conn) b Hnd)
    as (fr' & Hmerge & Htag & Hread & Hrssi & Hrc & Hcoord & Hnone).
  rewrite Hmerge in Hfr. apply list_elem_of_singleton in Hfr as ->.
  apply list_elem_of_fmap in Hb as (key & -> & _). simpl in *.
  assert (∀ axis : models.Tag -> option float,
            (charted axis ->
               ∀ c, read_real (axis <$> db.tag conn) c
                    = Some (default nan (db.sql_real c)))
            ∧ (¬ charted axis -> ∀ c, read_real (axis <$> db.tag conn) c = None))
    as Hcolumn.
  { intros axis. split.
    - intros (t' & Ht' & Hsome) c. apply read_real_cases.
      exists (axis t'). split; [|done]. apply list_elem_of_fmap. by exists t'.
    - intros Hnot c. apply read_real_cases.
      intros c' (t' & -> & Ht')%list_elem_of_fmap.
      destruct (db.sql_real (axis t')) eqn:Hreal; [|done].
      destruct Hnot. exists t'. split; [done |]. by rewrite Hreal. }
  split; [|split].
  - intros j a Ha Hgap. rewrite Hrssi, Hrc, !list_lookup_fmap, Ha. simpl.
    assert (cell_group (parse_dates (db.record conn)) key a = []) as ->; [|done].
    unfold cell_group. apply filter_none. intros r Hr [Hkey Hant].
    apply (Hgap r Hr). rewrite Htag, Hread. destruct key as [t time].
    injection Hkey as <- <-. by repeat split.
  - intros t Ht Hid.
    destruct (Hcoord t Ht) as [-> ->]; [by rewrite <-Htag |].
    destruct (Hcolumn models.true_x) as [Hx Hx'].
    destruct (Hcolumn models.true_y) as [Hy Hy'].
    split; [|split; [|split]]; intros Hc;
      first [by apply Hx | by apply Hx' | by apply Hy | by apply Hy'].
  - intros Habsent. apply Hnone. intros t Ht. rewrite <-Htag. by apply Habsent.
Qed.

Lemma assembled_row_is_unset_where_nothing_is_known_witness :
  let fr := {| TagID := "T1"; read := 1000000; rssi := [nan; (-60)%float];
               rc := [nan; 1%float]; true_x := Some 0%float; true_y := Some 0%float |} in
  let uncharted := {| TagID := "T1"; read := 0; rssi := [(-50)%float];
                      rc := [1%float]; true_x := None; true_y := None |} in
  fr ∈ rows (load_data_from_db gap_db)
  ∧ rssi fr !! 0%nat = Some nan ∧ rc fr !! 0%nat = Some nan
  ∧ true_x fr = Some (default nan (db.sql_real (Some 0%float)))
  ∧ uncharted ∈ rows (load_data_from_db uncharted_db)
  ∧ true_x uncharted = None.
Proof.
  assert ({| TagID := "T1"; read := 1000000; rssi := [nan; (-60)%float];
             rc := [nan; 1%float]; true_x := Some 0%float; true_y := Some 0%float |}
          ∈ rows (load_data_from_db gap_db)) as Hfr by (vm_compute; right; left).
  assert ({| TagID := "T1"; read := 0; rssi := [(-50)%float];
             rc := [1%float]; true_x := None; true_y := None |}
          ∈ rows (load_data_from_db uncharted_db)) as Hun by (vm_compute; left).
  destruct (assembled_row_is_unset_where_nothing_is_known gap_db _
              ltac:(apply (bool_decide_unpack _); by vm_compute) Hfr)
    as (Hgap & Hcoord & _).
  destruct (assembled_row_is_unset_where_nothing_is_known uncharted_db _
              ltac:(apply (bool_decide_unpack _); by vm_compute) Hun)
    as (_ & Hnone & _).
  split; [exact Hfr |].
  destruct (Hgap 0%nat "1"%string) as [Hrssi Hrc]; [by vm_compute | |].
  { intros r Hr (Ht & Ha & Hm). revert Hr.
    vm_compute. intros Hr.
    repeat (apply elem_of_cons in Hr as [->|Hr]; [simpl in *; try done; try lia |]).
    by apply elem_of_nil in Hr. }
  split; [exact Hrssi |]. split; [exact Hrc |].
  destruct (Hcoord (fixture_tag "T1" "ref" (Some 0%float))) as (Hx & _);
    [by left | done |].
  split.
  { apply Hx. exists (fixture_tag "T1" "ref" (Some 0%float)).
    split; [by left | by vm_compute]. }
  split; [exact Hun |].
  destruct (Hnone (fixture_tag "T1" "ref" None)) as (_ & Hx' & _); [by left | done |].
  apply Hx'. intros (t' & Ht' & Hsome). apply Hsome. revert Ht'.
  intros ->%list_elem_of_singleton. done.
Defined.

(* ===================================================================== *)
(** ** From the database to the feature frame *)
(* ===================================================================== *)

Lemma elem_of_concat {A : Type} (x : A) (ls : list (list A)) :
  x ∈ concat ls <-> ∃ l, l ∈ ls ∧ x ∈ l.
Proof.
  induction ls as [|l ls IH].
  - split; [by intros ?%elem_of_nil | by intros (l & ?%elem_of_nil & _)].
  - rewrite concat_cons, elem_of_app, IH. split.
    + intros [Hx|(l' & Hl' & Hx)]; [exists l; split; [by left | done] |].
      exists l'. split; [by right | done].
    + intros (l' & [->|Hl']%elem_of_cons & Hx); [by left | right; by exists l'].
Qed.

Lemma StronglySorted_filter {A : Type} (R : relation A) (P : A -> Prop)
    `{!∀ x, Decision (P x)} (l : list A) :
  StronglySorted R l -> StronglySorted R (filter P l).
Proof.
  induction 1 as [|x l Hl IH Hx]; [constructor |]. rewrite filter_cons.
  destruct (decide (P x)); [|done]. constructor; [done |].
  apply Forall_forall. intros y [_ Hy]%list_elem_of_filter.
  by apply (proj1 (Forall_forall _ _) Hx).
Qed.

Lemma window_stats_length (ncols : nat) (window : list (list float)) (s : Stats) :
  window_stats ncols window = Ok s ->
  length (avg s) = ncols ∧ length (min s) = ncols
  ∧ length (max s) = ncols ∧ length (stddev s) = ncols.
Proof.
  intros Hs. pose proof (window_stats_nonempty _ _ _ Hs) as Hne.
  rewrite window_stats_Ok in Hs by done. injection Hs as <-.
  cbn [avg min max stddev]. unfold np.axis0.
  by rewrite !length_fmap, !length_seq.
Qed.

(** A row of the returned frame lies in the block of its tag. *)
Lemma sliding_window_features_row (dbase : DataFrame FingerprintRow)
    (first_window_size window_size : Z) (out : DataFrame FeatureRow) (fr : FeatureRow) :
  sliding_window_features dbase first_window_size window_size = Ok out ->
  fr ∈ rows out ->
  ∃ tag blk,
    tag_features first_window_size window_size (antennas dbase)
      (filter (fun r => TagID r = tag) (rows dbase)) = Ok blk
    ∧ fr ∈ blk.
Proof.
  intros (_ & blocks & Hblocks & ->)%sliding_window_features_blocks.
  rewrite merge_sort_Permutation. intros (blk & Hblk & Hfr)%elem_of_concat.
  apply list_elem_of_lookup_1 in Hblk as [i Hi].
  destruct (Forall2_lookup_r _ _ _ _ _ Hblocks Hi) as (tag & _ & Htag).
  by exists tag, blk.
Qed.

(** X18.  Every row of the feature frame built from the database has ten
    feature cells per antenna column: its signal and its read count,
    and the four statistics of each.  With [k] antennas the first
    [10 k] columns of the frame are the features. *)
Theorem feature_vector_has_ten_cells_per_antenna (conn : db.Database)
    (first_window_size window_size : Z) (out : DataFrame FeatureRow) :
  sliding_window_features (load_data_from_db conn) first_window_size window_size = Ok out ->
  ∀ fr, fr ∈ rows out ->
    length (feature_vector fr) = (10 * length (antennas out))%nat
    ∧ py_prefix (10 * Z.of_nat (length (antennas out))) (frame_row fr)
      = VFloat <$> feature_vector fr.
Proof.
  intros Hout fr Hfr.
  assert (length (feature_vector fr) = (10 * length (antennas out))%nat) as Hlen.
  { destruct (sliding_window_features_row _ _ _ _ _ Hout Hfr) as (tag & blk & Hblk & Hin).
    apply sliding_window_features_blocks in Hout as [-> _].
    apply tag_features_lookup in Hblk as (positions & _ & _ & _ & Hfp & Hstats).
    apply list_elem_of_lookup_1 in Hin as [i Hi].
    pose proof (Hstats _ _ Hi) as Hs.
    apply window_stats_length in Hs as (Havg & Hmin & Hmax & Hstd).
    assert (fingerprint fr ∈ rows (load_data_from_db conn)) as Hrow.
    { assert (fingerprint fr ∈ fingerprint <$> blk) as Hin'.
      { apply list_elem_of_fmap. exists fr. split; [done |].
        by eapply list_elem_of_lookup_2. }
      rewrite Hfp in Hin'. by apply list_elem_of_filter in Hin' as [_ ?]. }
    apply load_data_from_db_row_shape in Hrow as [Hrssi Hrc].
    unfold feature_vector. rewrite !length_app, Hrssi, Hrc, Havg, Hmin, Hmax, Hstd. lia. }
  split; [done |].
  rewrite py_prefix_frame_row by lia.
  replace (Z.to_nat _ - _)%nat with 0%nat by lia. by rewrite take_0, app_nil_r.
Qed.

Lemma feature_vector_has_ten_cells_per_antenna_witness :
  ∃ out,
    sliding_window_features (load_data_from_db fixture) 2 2 = Ok out
    ∧ ∀ fr, fr ∈ rows out ->
        length (feature_vector fr) = (10 * length (antennas out))%nat
        ∧ py_prefix (10 * Z.of_nat (length (antennas out))) (frame_row fr)
          = VFloat <$> feature_vector fr.
Proof.
  eassert (sliding_window_features (load_data_from_db fixture) 2 2 = Ok _) as Hout
    by (vm_compute; reflexivity).
  eexists. split; [exact Hout |].
  exact (feature_vector_has_ten_cells_per_antenna fixture 2 2 _ Hout).
Defined.

(** Rows in strictly increasing order of a key are told apart by it. *)
Lemma StronglySorted_lt_inj {A : Type} (f : A -> Z) (l : list A) (x y : A) :
  StronglySorted Z.lt (f <$> l) -> x ∈ l -> y ∈ l -> f x = f y -> x = y.
Proof.
  induction l as [|a l IH]; [by intros _ ?%elem_of_nil |].
  rewrite fmap_cons. intros Hs. apply StronglySorted_inv in Hs as [Hs Ha].
  rewrite Forall_fmap, Forall_forall in Ha.
  intros [->|Hx]%elem_of_cons [->|Hy]%elem_of_cons Heq; [done | | |by apply IH].
  - specialize (Ha y Hy). simpl in Ha. lia.
  - specialize (Ha x Hx). simpl in Ha. lia.
Qed.

(** Selecting one key from the concatenation of blocks that hold one
    key each gives the block of the key. *)
Lemma filter_concat_block {A K : Type} `{EqDecision K} (key : A -> K) (ks : list K)
    (blocks : list (list A)) (k : K) (blk : list A) (i : nat) :
  NoDup ks -> Forall2 (fun k' b => Forall (fun x => key x = k') b) ks blocks ->
  ks !! i = Some k -> blocks !! i = Some blk ->
  filter (fun x => key x = k) (concat blocks) = blk.
Proof.
  intros Hnd Hall. revert i.
  induction Hall as [|k' b ks' bs Hb Hrest IH]; intros i Hk Hblk; [done |].
  apply NoDup_cons in Hnd as [Hnotin Hnd]. rewrite concat_cons, filter_app.
  destruct i as [|i]; simpl in Hk, Hblk.
  - injection Hk as ->. injection Hblk as ->. rewrite filter_all by done.
    rewrite (filter_none _ (concat bs)); [by rewrite app_nil_r |].
    intros x (b' & Hb' & Hx)%elem_of_concat Hkx.
    apply list_elem_of_lookup_1 in Hb' as [j Hj].
    destruct (Forall2_lookup_r _ _ _ _ _ Hrest Hj) as (k'' & Hk'' & Hall'').
    apply Hnotin. rewrite <-Hkx, (proj1 (Forall_forall _ _) Hall'' x Hx).
    by eapply list_elem_of_lookup_2.
  - rewrite (filter_none _ b); [by apply (IH Hnd i) |].
    intros x Hx Hkx. apply Hnotin.
    rewrite <-(proj1 (Forall_forall _ _) Hb x Hx), Hkx.
    by eapply list_elem_of_lookup_2.
Qed.

(** X19.  When the rows of a tag enter in strictly increasing time, as they
    do in the frame of [load_data_from_db], the rows of the tag in the
    returned frame are the rows [tag_features] computes for the tag, in
    the same order: row [i] of the tag in the output carries the
    statistics of the tag's [i]-th reading in time. *)
Theorem extractor_keeps_the_rows_of_a_tag_in_time_order (dbase : DataFrame FingerprintRow)
    (first_window_size window_size : Z) (out : DataFrame FeatureRow) (tag : string) :
  sliding_window_features dbase first_window_size window_size = Ok out ->
  tag ∈ TagID <$> rows dbase ->
  StronglySorted Z.lt (read <$> filter (fun r => TagID r = tag) (rows dbase)) ->
  tag_features first_window_size window_size (antennas dbase)
    (filter (fun r => TagID r = tag) (rows dbase))
  = Ok (filter (fun r => TagID (fingerprint r) = tag) (rows out)).
Proof.
  intros (_ & blocks & Hblocks & ->)%sliding_window_features_blocks Htag Hsorted.
  apply elem_of_np_unique, list_elem_of_lookup_1 in Htag as [i Hi].
  destruct (Forall2_lookup_l _ _ _ _ _ Hblocks Hi) as (blk & Hblk & Hfeat).
  rewrite Hfeat. f_equal. symmetry.
  pose proof Hfeat as (_ & _ & _ & _ & Hfp & _)%tag_features_lookup.
  assert (filter (fun r => TagID (fingerprint r) = tag) (concat blocks) = blk) as Hsel.
  { apply (filter_concat_block (fun r => TagID (fingerprint r))
             (np_unique (TagID <$> rows dbase)) blocks tag blk i);
      [apply NoDup_np_unique | | done..].
    eapply Forall2_impl; [exact Hblocks |]. intros tag' blk' Hfeat'. simpl in Hfeat'.
    apply tag_features_lookup in Hfeat' as (_ & _ & _ & _ & Hfp' & _).
    apply Forall_forall. intros r Hr.
    assert (fingerprint r ∈ fingerprint <$> blk') as Hin
      by (apply list_elem_of_fmap; by exists r).
    rewrite Hfp' in Hin. by apply list_elem_of_filter in Hin as [? _]. }
  assert (StronglySorted Z.lt ((fun r => read (fingerprint r)) <$> blk)) as Hblk_sorted.
  { by rewrite (list_fmap_compose fingerprint read), Hfp. }
  assert (filter (fun r => TagID (fingerprint r) = tag)
            (merge_sort by_read_TagID (concat blocks)) ≡ₚ blk) as Hperm.
  { by rewrite merge_sort_Permutation, Hsel. }
  apply (StronglySorted_unique_strong by_read_TagID); [| | |done].
  - intros x1 x2 Hx1 Hx2 H12 H21. rewrite Hperm in Hx1.
    apply (StronglySorted_lt_inj (fun r => read (fingerprint r)) blk); [done..|].
    unfold by_read_TagID in H12, H21. lia.
  - apply StronglySorted_filter, StronglySorted_merge_sort; apply _.
  - clear -Hblk_sorted. induction blk as [|r blk IH]; [constructor |].
    rewrite fmap_cons in Hblk_sorted.
    apply StronglySorted_inv in Hblk_sorted as [Hs Hr].
    constructor; [by apply IH |].
    rewrite Forall_fmap in Hr. eapply Forall_impl; [exact Hr |].
    intros r' Hlt. simpl in Hlt. by left.
Qed.

Lemma extractor_keeps_the_rows_of_a_tag_in_time_order_witness :
  ∃ out,
    sliding_window_features (load_data_from_db fixture) 2 2 = Ok out
    ∧ tag_features 2 2 (antennas (load_data_from_db fixture))
        (filter (fun r => TagID r = "T2"%string) (rows (load_data_from_db fixture)))
      = Ok (filter (fun r => TagID (fingerprint r) = "T2"%string) (rows out)).
Proof.
  eassert (sliding_window_features (load_data_from_db fixture) 2 2 = Ok _) as Hout
    by (vm_compute; reflexivity).
  eexists. split; [exact Hout |].
  apply (extractor_keeps_the_rows_of_a_tag_in_time_order _ _ _ _ "T2" Hout).
  - apply (bool_decide_unpack _). by vm_compute.
  - apply (bool_decide_unpack _). by vm_compute.
Defined.
